(** * DeepHAM policy trainer ([policy.py]): model and properties

    The trainer unrolls an economy of heterogeneous agents over a finite
    horizon, lets a policy network choose the share of wealth each agent
    consumes, and differentiates the discounted utility through the unrolled
    transition.

    Conventions of the model.
    - Tensor entries are real numbers, and [float64] arithmetic is read
      as exact arithmetic, except where a property is decided by rounding:
      there the entries are binary64 numbers and every operation is rounded
      to nearest, ties to even.  Overflow, [inf] and [NaN] are outside both
      readings.  [Rpower], [ln] and [/] agree with [tf.pow], [tf.math.log]
      and [tf.divide] on positive arguments, which is where the recursions
      are meant to run.
    - A tensor of shape [n_path, n_agt] is a list of rows, one row per path;
      a tensor of shape [n_path, 1] is a list with one entry per path.
      Element-wise operations zip the lists; TensorFlow raises on shapes
      that do not broadcast, the zips stop at the shorter list.
    - The loss is written once over a class of scalars and read three
      times: over [R] (the forward pass in exact arithmetic), over dual
      numbers (forward value with the derivative along one direction), where
      [tf.stop_gradient] keeps the value and drops the derivative, and over
      [Float64] (the forward pass in binary64).
    - The networks, the dataset provider and the shock simulators are
      collaborators whose code is elsewhere: they are parameters. *)

From Stdlib Require Import Reals Lra Lia ZArith Bool String List Permutation.
Import ListNotations.

Open Scope R_scope.

(** ** Module-level constants of [policy.py] *)

Definition EPSILON : R := 1 / 1000.
Definition eps : R := 1 / 100000000.
Definition log_10 : R := ln 10.

(** ** Scalars *)

Class Scalar (A : Type) := {
  const : R -> A;
  value : A -> R;
  add : A -> A -> A;
  sub : A -> A -> A;
  mul : A -> A -> A;
  div : A -> A -> A;
  power : A -> A -> A;
  log : A -> A;
  sigmoid : A -> A;
  minimum : A -> A -> A;
  maximum : A -> A -> A;
  relu : A -> A;
  opp : A -> A;
  stop_gradient : A -> A
}.

Declare Scope scalar_scope.
Delimit Scope scalar_scope with S.
Infix "+" := add : scalar_scope.
Infix "-" := sub : scalar_scope.
Infix "*" := mul : scalar_scope.
Infix "/" := div : scalar_scope.
Infix "**" := power (at level 30, right associativity) : scalar_scope.

(** The forward pass. *)
Definition Rsigmoid (x : R) : R := 1 / (1 + exp (- x)).

#[export] Instance Scalar_R : Scalar R := {
  const := fun r => r;
  value := fun r => r;
  add := Rplus;
  sub := Rminus;
  mul := Rmult;
  div := Rdiv;
  power := Rpower;
  log := ln;
  sigmoid := Rsigmoid;
  minimum := Rmin;
  maximum := Rmax;
  relu := fun x => Rmax x 0;
  opp := Ropp;
  stop_gradient := fun x => x
}.

(** Forward value with the derivative along one direction.  The derivative
    rules are TensorFlow's registered gradients: [Minimum] passes the
    derivative of its first argument where [x <= y], [Maximum] where
    [x >= y], [Pow] gives no derivative in the exponent at a non-positive
    base, [Relu] passes it where the value is positive. *)
Record Dual : Type := mkDual { primal : R; tangent : R }.

Definition dual_pow (x y : Dual) : Dual :=
  mkDual (Rpower (primal x) (primal y))
         (tangent x * (primal y * Rpower (primal x) (primal y - 1))
          + tangent y * (if Rlt_dec 0 (primal x)
                         then Rpower (primal x) (primal y) * ln (primal x)
                         else 0)).

#[export] Instance Scalar_Dual : Scalar Dual := {
  const := fun r => mkDual r 0;
  value := primal;
  add := fun x y => mkDual (primal x + primal y) (tangent x + tangent y);
  sub := fun x y => mkDual (primal x - primal y) (tangent x - tangent y);
  mul := fun x y => mkDual (primal x * primal y)
                           (tangent x * primal y + primal x * tangent y);
  div := fun x y => mkDual (primal x / primal y)
                           (tangent x / primal y
                            - primal x * tangent y / (primal y * primal y));
  power := dual_pow;
  log := fun x => mkDual (ln (primal x)) (tangent x / primal x);
  sigmoid := fun x => mkDual (Rsigmoid (primal x))
                             (tangent x * (Rsigmoid (primal x)
                                           * (1 - Rsigmoid (primal x))));
  minimum := fun x y => if Rle_dec (primal x) (primal y) then x else y;
  maximum := fun x y => if Rge_dec (primal x) (primal y) then x else y;
  relu := fun x => if Rlt_dec 0 (primal x) then x else mkDual 0 0;
  opp := fun x => mkDual (- primal x) (- tangent x);
  stop_gradient := fun x => mkDual (primal x) 0
}.

(** ** Tensors *)

Definition Tensor1 (A : Type) : Type := list A.
Definition Tensor2 (A : Type) : Type := list (list A).
Definition Tensor3 (A : Type) : Type := list (list (list A)).

Fixpoint map2 {X Y Z : Type} (f : X -> Y -> Z) (xs : list X) (ys : list Y)
  : list Z :=
  match xs, ys with
  | x :: xs', y :: ys' => f x y :: map2 f xs' ys'
  | _, _ => []
  end.

Fixpoint map3 {X Y Z W : Type} (f : X -> Y -> Z -> W)
  (xs : list X) (ys : list Y) (zs : list Z) : list W :=
  match xs, ys, zs with
  | x :: xs', y :: ys', z :: zs' => f x y z :: map3 f xs' ys' zs'
  | _, _, _ => []
  end.

(** Entry [(i, j)] of a [n_path, n_agt] tensor. *)
Definition entry {A : Type} (t : Tensor2 A) (i j : nat) : option A :=
  match nth_error t i with
  | Some row => nth_error row j
  | None => None
  end.

(** [traverse f l]: all the results of [f], or [None] as soon as one fails. *)
Fixpoint traverse {X Y : Type} (f : X -> option Y) (l : list X)
  : option (list Y) :=
  match l with
  | [] => Some []
  | x :: l' =>
      match f x, traverse f l' with
      | Some y, Some ys => Some (y :: ys)
      | _, _ => None
      end
  end.

Section TensorOps.
Context {A : Type} `{Scalar A}.
Local Open Scope scalar_scope.

Definition tsum (l : list A) : A := fold_left add l (const 0).

(** [tf.reduce_mean] of a vector. *)
Definition mean (l : list A) : A := tsum l / const (INR (length l)).

(** [tf.reduce_mean] of a whole [n_path, n_agt] tensor. *)
Definition reduce_mean (t : Tensor2 A) : A := mean (concat t).

(** [tf.reduce_mean(t, axis=1, keepdims=True)]: one mean per path. *)
Definition reduce_mean_axis1 (t : Tensor2 A) : Tensor1 A := map mean t.

(** [x[..., t:t+1]] and [x[..., t]] along the time axis. *)
Definition at_time (t : nat) (path : list A) : A := nth t path (const 0).

(** The columns of a [n_agt, n_feature] block: feature [f] of every agent. *)
Definition column (f : nat) (block : list (list A)) : list A :=
  map (fun row => nth f row (const 0)) block.

Definition width (block : list (list A)) : nat :=
  match block with
  | [] => O
  | row :: _ => length row
  end.

(** Mean and variance over the agents, feature by feature
    ([axis=-2, keepdims=True] on one path). *)
Definition feature_means (block : list (list A)) : list A :=
  map (fun f => mean (column f block)) (seq 0 (width block)).

Definition variance (l : list A) : A :=
  let m := mean l in
  mean (map (fun x => (x - m) * (x - m)) l).

Definition feature_variances (block : list (list A)) : list A :=
  map (fun f => variance (column f block)) (seq 0 (width block)).
End TensorOps.

(** A value that is either a Python scalar or a [n_path, n_agt] tensor: the
    accumulators [util_sum] and [value] start as the integer [0] and become
    tensors by broadcasting at the first [+=]. *)
Inductive Acc (A : Type) : Type :=
| Sc (a : A)
| Tn (t : Tensor2 A).
Arguments Sc {A} a.
Arguments Tn {A} t.

Section AccOps.
Context {A : Type} `{Scalar A}.

Definition acc_map (f : A -> A) (x : Acc A) : Acc A :=
  match x with
  | Sc a => Sc (f a)
  | Tn t => Tn (map (map f) t)
  end.

Definition acc_map2 (f : A -> A -> A) (x y : Acc A) : Acc A :=
  match x, y with
  | Sc a, Sc b => Sc (f a b)
  | Sc a, Tn t => Tn (map (map (f a)) t)
  | Tn t, Sc b => Tn (map (map (fun u => f u b)) t)
  | Tn t, Tn u => Tn (map2 (map2 f) t u)
  end.

Definition acc_add : Acc A -> Acc A -> Acc A := acc_map2 add.

(** [tf.reduce_mean(x)]. *)
Definition acc_mean (x : Acc A) : A :=
  match x with
  | Sc a => a
  | Tn t => reduce_mean t
  end.

(** [tf.reduce_mean(x[:, 0])]: subscripting a Python number, or column 0
    of a tensor without columns, raises. *)
Definition acc_mean_agent0 (x : Acc A) : option A :=
  match x with
  | Sc _ => None
  | Tn t =>
      match traverse (@hd_error A) t with
      | Some col => Some (mean col)
      | None => None
      end
  end.
End AccOps.

(** ** Parameters and configuration *)

(** [mparam]: the economic constants read by the recursions. *)
Record MParam : Type := {
  beta : R; delta : R; alpha : R;
  tau_b : R; tau_g : R; l_bar : R; er_b : R; er_g : R; mu : R;
  emp_b : R; emp_g : R;
  epsilon_0 : R; epsilon_1 : R; epsilon_2 : R;
  dt : R; sigma2 : R; rhohat : R; z1 : R; z2 : R;
  n_agt : nat
}.

(** The entries of [config] and [config["policy_config"]] read by the
    state preparation and by the losses. *)
Record Config : Type := {
  t_unroll : nat;
  sgm_scale : R;
  opt_type : string;
  use_log_k : bool;
  full_state : bool;
  n_fm : Z;
  n_gm : Z;
  cfg_n_agt : nat
}.

(** The keys of [normalize_data] and [unnormalize_data]. *)
Inductive Key : Type := key_basic_s | key_agt_s | key_value.

(** [full_state_dict]. *)
Record FullState (A : Type) : Type := {
  basic_s : Tensor3 A;
  agt_s : Tensor3 A
}.
Arguments basic_s {A} f.
Arguments agt_s {A} f.

(** [input_data]: [k_cross] is [n_path, n_agt], [N] is [n_path, 1],
    [ashock] is [n_path, T], [ishock] is [n_path, n_agt, T]. *)
Record InputData (A : Type) : Type := {
  k_cross : Tensor2 A;
  N : Tensor1 A;
  ashock : Tensor2 A;
  ishock : Tensor3 A
}.
Arguments k_cross {A} i.
Arguments N {A} i.
Arguments ashock {A} i.
Arguments ishock {A} i.

(** [output_dict]; only the Davila variant has a ["gp_loss"] entry. *)
Record Output (A : Type) : Type := {
  m_util : A;
  gp_loss : option A;
  k_end : A
}.
Arguments m_util {A} o.
Arguments gp_loss {A} o.
Arguments k_end {A} o.

(** ** Shape operations shared by the trainers *)

Section Shapes.
Context {A : Type} `{Scalar A}.
Local Open Scope scalar_scope.

(** [tf.expand_dims(x, axis=-1)]. *)
Definition expand_dims (t : Tensor2 A) : Tensor3 A :=
  map (map (fun x => [x])) t.

(** [tf.tile(x, [1, n])] of a [n_path, 1] tensor. *)
Definition tile (col : Tensor1 A) (n : nat) : Tensor2 A :=
  map (fun c => repeat c n) col.

(** [tf.concat([x, y], axis=-1)], and of a list of tensors. *)
Definition concat_last2 (x y : Tensor3 A) : Tensor3 A :=
  map2 (map2 (@app A)) x y.

Definition concat_last (ts : list (Tensor3 A)) : Tensor3 A :=
  match ts with
  | [] => []
  | x :: rest => fold_left concat_last2 rest x
  end.

(** [x[..., 0]]: index 0 of an empty last axis raises. *)
Definition index0 (t : Tensor3 A) : option (Tensor2 A) :=
  traverse (traverse (@hd_error A)) t.

(** [x[:, t:t+1]] of [ashock] and [x[:, :, t]] of [ishock]. *)
Definition ashock_at (t : nat) (a : Tensor2 A) : Tensor1 A :=
  map (at_time t) a.

Definition ishock_at (t : nat) (i : Tensor3 A) : Tensor2 A :=
  map (map (at_time t)) i.

(** [tf.clip_by_value(x, lo, hi)] is [maximum(minimum(x, hi), lo)]: the
    lower bound is applied last. *)
Definition clip_by_value (x lo hi : A) : A := maximum (minimum x hi) lo.

(** The ["game"] objective optimises agent 0 only:
    [tf.concat([c[:, 0:1], tf.stop_gradient(c[:, 1:])], axis=1)]. *)
Definition game_share (c_share : Tensor2 A) : Tensor2 A :=
  map (fun row => firstn 1 row ++ map stop_gradient (skipn 1 row)) c_share.

Definition is_game (cfg : Config) : bool := String.eqb (opt_type cfg) "game".
Definition is_socialplanner (cfg : Config) : bool :=
  String.eqb (opt_type cfg) "socialplanner".

Definition masked_share (cfg : Config) (c_share : Tensor2 A) : Tensor2 A :=
  if is_game cfg then game_share c_share else c_share.
End Shapes.

(** ** [PolicyTrainer]: state preparation and policy *)

Section PolicyTrainer.
Context {A : Type} `{Scalar A}.
Local Open Scope scalar_scope.

Variable cfg : Config.
(** [self.model] and [self.gm_model]: the networks. *)
Variable model : Tensor3 A -> Tensor3 A.
Variable gm_model : Tensor3 A -> Tensor3 A.

Definition log10 (x : A) : A := log x / const log_10.

(** [prepare_state]; a value of [n_fm] other than 0, 1, 2 without
    [full_state] leaves [state] unbound, which raises. *)
Definition prepare_state (input_data : FullState A) : option (Tensor3 A) :=
  let log_k : Tensor3 A :=
    map (map (fun row => map (fun k => log10 (k + const eps)) (firstn 1 row)))
        (basic_s input_data) in
  let log_k_mean : Tensor3 A :=
    map (fun block => repeat (feature_means block) (length block)) log_k in
  let basic : Tensor3 A :=
    if use_log_k cfg
    then concat_last [log_k; log_k_mean;
                      map (map (skipn 2)) (basic_s input_data)]
    else basic_s input_data in
  let agt : Tensor3 A :=
    if use_log_k cfg
    then map (map (map log10)) (agt_s input_data)
    else agt_s input_data in
  let state : option (Tensor3 A) :=
    if full_state cfg then
      Some (concat_last
              [map (map (firstn 1)) basic; map (map (skipn 2)) basic;
               map (fun block =>
                      flat_map (fun f => repeat (column f block) (cfg_n_agt cfg))
                               (seq 0 (width block)))
                   (agt_s input_data)])
    else if (n_fm cfg =? 2)%Z then
      Some (concat_last
              [basic;
               map (fun block =>
                      repeat (feature_variances block) (length block)) agt])
    else if (n_fm cfg =? 0)%Z then
      Some (concat_last [map (map (firstn 1)) basic; map (map (skipn 2)) basic])
    else if (n_fm cfg =? 1)%Z then Some basic
    else None in
  match state with
  | Some st =>
      if (0 <? n_gm cfg)%Z then Some (concat_last [st; gm_model agt])
      else Some st
  | None => None
  end.

(** [policy_fn]: [tf.sigmoid(self.sgm_scale * self.model(state))]. *)
Definition policy_fn (input_data : FullState A) : option (Tensor3 A) :=
  match prepare_state input_data with
  | Some state =>
      Some (map (map (map (fun y => sigmoid (const (sgm_scale cfg) * y))))
                (model state))
  | None => None
  end.
End PolicyTrainer.

(** ** The loss recursions *)

Notation "x <- e ;; k" :=
  (match e with Some x => k | None => None end)
  (at level 61, e at next level, right associativity, only parsing).

(** The variables a [for t in range(self.t_unroll)] loop carries; [N] is
    used by the JFV variant and [gp_loss] by the Davila variant only. *)
Record LoopState (A : Type) : Type := {
  st_k_cross : Tensor2 A;
  st_N : Tensor1 A;
  st_util_sum : Acc A;
  st_gp_loss : Acc A
}.
Arguments st_k_cross {A} l.
Arguments st_N {A} l.
Arguments st_util_sum {A} l.
Arguments st_gp_loss {A} l.

Section Losses.
Context {A : Type} `{Scalar A}.
Local Open Scope scalar_scope.

Variable mparam : MParam.
Variable cfg : Config.
(** [self.init_ds.normalize_data] and [unnormalize_data] ([withtf=True]). *)
Variable normalize_data : Key -> Tensor3 A -> Tensor3 A.
Variable unnormalize_data : Key -> Tensor2 A -> Tensor2 A.
(** [vtr.value_fn] of every member of [self.vtrainers]. *)
Variable vtrainers : list (FullState A -> Tensor3 A).
(** [self.policy_fn]. *)
Variable policy_fn : FullState A -> option (Tensor3 A).
(** What the inner [tf.GradientTape] of the Davila loss returns for
    [tape.gradient(csmp_gp, k_cross)] at period [t]. *)
Variable tape_gradient : nat -> InputData A -> Tensor2 A -> Tensor2 A.

(** [self.discount = np.power(beta, np.arange(t_unroll))]. *)
Definition discount (t : nat) : R := (beta mparam ^ t)%R.

Definition is_terminal (t : nat) : bool :=
  (Z.of_nat t =? Z.of_nat (t_unroll cfg) - 1)%Z.

Definition init_state (input_data : InputData A) : LoopState A :=
  {| st_k_cross := k_cross input_data;
     st_N := N input_data;
     st_util_sum := Sc (const 0);
     st_gp_loss := Sc (const 0) |}.

(** The terminal period: the mean of the value networks, unnormalised. *)
Definition terminal_value (full_state_dict : FullState A) : option (Acc A) :=
  vs <- traverse (fun value_fn => index0 (value_fn full_state_dict)) vtrainers ;;
  Some (acc_map (fun v => v / const (INR (length vtrainers)))
          (fold_left
             (fun value v => acc_add value (Tn (unnormalize_data key_value v)))
             vs (Sc (const 0)))).

Definition discounted (t : nat) (value : Acc A) : Acc A :=
  acc_map (fun v => const (discount t) * v) value.

(** [c_share = self.policy_fn(full_state_dict)[..., 0]], then the ["game"]
    mask. *)
Definition consumption_share (full_state_dict : FullState A)
  : option (Tensor2 A) :=
  p <- policy_fn full_state_dict ;;
  c_share <- index0 p ;;
  Some (masked_share cfg c_share).

(** [k_cross = wealth - csmp]. *)
Definition next_capital (wealth csmp : Tensor2 A) : Tensor2 A :=
  map2 (map2 sub) wealth csmp.

(** [output_dict]: [gp] is the ["gp_loss"] entry, which only the Davila
    variant has; an [opt_type] other than the two known ones leaves
    [output_dict] unbound, which raises. *)
Definition output (st : LoopState A) (gp : option A) : option (Output A) :=
  if is_socialplanner cfg then
    Some {| m_util := opp (acc_mean (st_util_sum st));
            gp_loss := gp;
            k_end := reduce_mean (st_k_cross st) |}
  else if is_game cfg then
    m <- acc_mean_agent0 (st_util_sum st) ;;
    Some {| m_util := opp m;
            gp_loss := gp;
            k_end := reduce_mean (st_k_cross st) |}
  else None.

(** *** [KSPolicyTrainer.loss] *)

(** [basic_s_tmp] and [full_state_dict] of the KS and DavilaAS variants. *)
Definition KS_full_state_dict (t : nat) (input_data : InputData A)
  (k : Tensor2 A) : FullState A :=
  let k_mean := reduce_mean_axis1 k in
  let k_mean_tmp := expand_dims (tile k_mean (n_agt mparam)) in
  let i_tmp := map (map (fun path => [at_time t path])) (ishock input_data) in
  let a_tmp :=
    expand_dims (tile (ashock_at t (ashock input_data)) (n_agt mparam)) in
  let basic_s_tmp := concat_last [expand_dims k; k_mean_tmp; a_tmp; i_tmp] in
  {| basic_s := normalize_data key_basic_s basic_s_tmp;
     agt_s := normalize_data key_agt_s (expand_dims k) |}.

(** One path of [wealth]: [a] is [ashock[:, t:t+1]], [k_mean] the mean
    capital of the path, [k] and [i] run over its agents. *)
Definition KS_wealth_path (a k_mean : A) (k_row i_row : list A) : list A :=
  let tau :=
    if Rlt_dec (value a) 1 then const (tau_b mparam) else const (tau_g mparam) in
  let emp :=
    if Rlt_dec (value a) 1 then const (l_bar mparam * er_b mparam)
    else const (l_bar mparam * er_g mparam) in
  let R := const (1 - delta mparam)
           + a * const (alpha mparam)
             * (k_mean / emp) ** const (alpha mparam - 1) in
  let wage := a * const (1 - alpha mparam)
              * (k_mean / emp) ** const (alpha mparam) in
  map2 (fun k i =>
          R * k + (const 1 - tau) * wage * const (l_bar mparam) * i
          + const (mu mparam) * wage * (const 1 - i))
       k_row i_row.

Definition KS_wealth (t : nat) (input_data : InputData A) (k : Tensor2 A)
  : Tensor2 A :=
  map2 (fun '(a, k_mean) '(k_row, i_row) => KS_wealth_path a k_mean k_row i_row)
       (combine (ashock_at t (ashock input_data)) (reduce_mean_axis1 k))
       (combine k (ishock_at t (ishock input_data))).

(** [csmp = tf.clip_by_value(c_share * wealth, EPSILON, wealth-EPSILON)]. *)
Definition clipped_csmp (c_share wealth : Tensor2 A) : Tensor2 A :=
  map2 (map2 (fun c w =>
                clip_by_value (c * w) (const EPSILON) (w - const EPSILON)))
       c_share wealth.

Definition KS_body (input_data : InputData A) (st : option (LoopState A))
  (t : nat) : option (LoopState A) :=
  s <- st ;;
  let full_state_dict := KS_full_state_dict t input_data (st_k_cross s) in
  if is_terminal t then
    v <- terminal_value full_state_dict ;;
    Some {| st_k_cross := st_k_cross s;
            st_N := st_N s;
            st_util_sum := acc_add (st_util_sum s) (discounted t v);
            st_gp_loss := st_gp_loss s |}
  else
    c_share <- consumption_share full_state_dict ;;
    let wealth := KS_wealth t input_data (st_k_cross s) in
    let csmp := clipped_csmp c_share wealth in
    Some {| st_k_cross := next_capital wealth csmp;
            st_N := st_N s;
            st_util_sum :=
              acc_add (st_util_sum s)
                      (Tn (map (map (fun c => const (discount t) * log c)) csmp));
            st_gp_loss := st_gp_loss s |}.

Definition KS_loss (input_data : InputData A) : option (Output A) :=
  s <- fold_left (KS_body input_data) (seq 0 (t_unroll cfg))
                 (Some (init_state input_data)) ;;
  output s None.

(** *** [DavilaPolicyTrainer.loss] *)

(** No aggregate shock and no normalisation in this variant. *)
Definition Davila_full_state_dict (t : nat) (input_data : InputData A)
  (k : Tensor2 A) : FullState A :=
  let k_mean := reduce_mean_axis1 k in
  let k_mean_tmp := expand_dims (tile k_mean (n_agt mparam)) in
  let i_tmp := map (map (fun path => [at_time t path])) (ishock input_data) in
  let basic_s_tmp := concat_last [expand_dims k; k_mean_tmp; i_tmp] in
  {| basic_s := basic_s_tmp; agt_s := expand_dims k |}.

(** The labour endowment of the three idiosyncratic states. *)
Definition endowment (i : A) : A :=
  const (epsilon_0 mparam) * (const 1 - i) * (const 2 - i) / const 2
  + const (epsilon_1 mparam) * i * (const 2 - i)
  + const (epsilon_2 mparam) * i * (i - const 1) / const 2.

Definition Davila_wealth_path (k_mean : A) (k_row i_row : list A) : list A :=
  let emp := const (emp_g mparam) in
  let R := const (1 - delta mparam)
           + const (alpha mparam) * (k_mean / emp) ** const (alpha mparam - 1) in
  let wage := const (1 - alpha mparam) * (k_mean / emp) ** const (alpha mparam) in
  map2 (fun k i => R * k + wage * endowment i) k_row i_row.

Definition Davila_wealth (t : nat) (input_data : InputData A) (k : Tensor2 A)
  : Tensor2 A :=
  map2 (fun k_mean '(k_row, i_row) => Davila_wealth_path k_mean k_row i_row)
       (reduce_mean_axis1 k)
       (combine k (ishock_at t (ishock input_data))).

(** [csmp = c_share * wealth]: no clipping. *)
Definition Davila_csmp (c_share wealth : Tensor2 A) : Tensor2 A :=
  map2 (map2 mul) c_share wealth.

(** [gradients = tape.gradient(csmp_gp, k_cross) * log_10 * k_cross] and
    [gp_loss += relu(-gradients)]. *)
Definition Davila_penalty (t : nat) (input_data : InputData A)
  (k : Tensor2 A) : Tensor2 A :=
  map2 (map2 (fun g x => relu (opp (g * const log_10 * x))))
       (tape_gradient t input_data k) k.

Definition Davila_body (input_data : InputData A) (st : option (LoopState A))
  (t : nat) : option (LoopState A) :=
  s <- st ;;
  let full_state_dict := Davila_full_state_dict t input_data (st_k_cross s) in
  if is_terminal t then
    v <- terminal_value full_state_dict ;;
    Some {| st_k_cross := st_k_cross s;
            st_N := st_N s;
            st_util_sum := acc_add (st_util_sum s) (discounted t v);
            st_gp_loss := st_gp_loss s |}
  else
    c_share <- consumption_share full_state_dict ;;
    let wealth := Davila_wealth t input_data (st_k_cross s) in
    let csmp := Davila_csmp c_share wealth in
    Some {| st_k_cross := next_capital wealth csmp;
            st_N := st_N s;
            st_util_sum :=
              acc_add (st_util_sum s)
                      (Tn (map (map (fun c => const (discount t)
                                              * (const 1 - const 1 / c))) csmp));
            st_gp_loss :=
              acc_add (st_gp_loss s)
                      (Tn (Davila_penalty t input_data (st_k_cross s))) |}.

Definition Davila_loss (input_data : InputData A) : option (Output A) :=
  s <- fold_left (Davila_body input_data) (seq 0 (t_unroll cfg))
                 (Some (init_state input_data)) ;;
  output s (Some (acc_mean (st_gp_loss s))).

(** *** [DavilaASPolicyTrainer.loss] *)

Definition DavilaAS_wealth_path (a k_mean : A) (k_row i_row : list A)
  : list A :=
  let emp :=
    if Rlt_dec (value a) 1 then const (emp_b mparam) else const (emp_g mparam) in
  let R := const (1 - delta mparam)
           + a * const (alpha mparam)
             * (k_mean / emp) ** const (alpha mparam - 1) in
  let wage := a * const (1 - alpha mparam)
              * (k_mean / emp) ** const (alpha mparam) in
  map2 (fun k i => R * k + wage * endowment i) k_row i_row.

Definition DavilaAS_wealth (t : nat) (input_data : InputData A)
  (k : Tensor2 A) : Tensor2 A :=
  map2 (fun '(a, k_mean) '(k_row, i_row) =>
          DavilaAS_wealth_path a k_mean k_row i_row)
       (combine (ashock_at t (ashock input_data)) (reduce_mean_axis1 k))
       (combine k (ishock_at t (ishock input_data))).

Definition DavilaAS_body (input_data : InputData A)
  (st : option (LoopState A)) (t : nat) : option (LoopState A) :=
  s <- st ;;
  let full_state_dict := KS_full_state_dict t input_data (st_k_cross s) in
  if is_terminal t then
    v <- terminal_value full_state_dict ;;
    Some {| st_k_cross := st_k_cross s;
            st_N := st_N s;
            st_util_sum := acc_add (st_util_sum s) (discounted t v);
            st_gp_loss := st_gp_loss s |}
  else
    c_share <- consumption_share full_state_dict ;;
    let wealth := DavilaAS_wealth t input_data (st_k_cross s) in
    let csmp := clipped_csmp c_share wealth in
    Some {| st_k_cross := next_capital wealth csmp;
            st_N := st_N s;
            st_util_sum :=
              acc_add (st_util_sum s)
                      (Tn (map (map (fun c => const (discount t)
                                              * (const 1 - const 1 / c))) csmp));
            st_gp_loss := st_gp_loss s |}.

Definition DavilaAS_loss (input_data : InputData A) : option (Output A) :=
  s <- fold_left (DavilaAS_body input_data) (seq 0 (t_unroll cfg))
                 (Some (init_state input_data)) ;;
  output s None.

(** *** [JFVPolicyTrainer.loss] *)

Definition JFV_full_state_dict (t : nat) (input_data : InputData A)
  (k : Tensor2 A) (N_ : Tensor1 A) : FullState A :=
  let k_mean := reduce_mean_axis1 k in
  let k_mean_tmp := expand_dims (tile k_mean (n_agt mparam)) in
  let i_tmp := map (map (fun path => [at_time t path])) (ishock input_data) in
  let N_tmp := expand_dims (tile N_ (n_agt mparam)) in
  let basic_s_tmp := concat_last [expand_dims k; k_mean_tmp; N_tmp; i_tmp] in
  {| basic_s := normalize_data key_basic_s basic_s_tmp;
     agt_s := normalize_data key_agt_s (expand_dims k) |}.

Definition JFV_wealth_path (N_ k_mean : A) (k_row i_row : list A) : list A :=
  let K := N_ + k_mean in
  let wage_unit := const (1 - alpha mparam) * K ** const (alpha mparam) in
  let r := const (alpha mparam) * K ** const (alpha mparam - 1)
           - const (delta mparam) - const (sigma2 mparam) * K / N_ in
  map2 (fun k i =>
          let wage := (i * const (z2 mparam - z1 mparam) + const (z1 mparam))
                      * wage_unit in
          (const 1 + r * const (dt mparam)) * k + wage * const (dt mparam))
       k_row i_row.

Definition JFV_wealth (t : nat) (input_data : InputData A) (k : Tensor2 A)
  (N_ : Tensor1 A) : Tensor2 A :=
  map2 (fun '(n, k_mean) '(k_row, i_row) => JFV_wealth_path n k_mean k_row i_row)
       (combine N_ (reduce_mean_axis1 k))
       (combine k (ishock_at t (ishock input_data))).

(** [csmp = tf.clip_by_value(c_share * wealth / dt, EPSILON,
    wealth/dt - EPSILON)]. *)
Definition JFV_csmp (c_share wealth : Tensor2 A) : Tensor2 A :=
  map2 (map2 (fun c w =>
                clip_by_value (c * w / const (dt mparam)) (const EPSILON)
                              (w / const (dt mparam) - const EPSILON)))
       c_share wealth.

(** [k_cross = wealth - csmp * dt]. *)
Definition JFV_next_capital (wealth csmp : Tensor2 A) : Tensor2 A :=
  map2 (map2 (fun w c => w - c * const (dt mparam))) wealth csmp.

(** [N = tf.maximum(N + dN_drift + dN_diff, 0.01)]. *)
Definition JFV_next_N_path (a N_ k_mean : A) : A :=
  let K := N_ + k_mean in
  let dN_drift :=
    const (dt mparam)
    * (const (alpha mparam) * K ** const (alpha mparam - 1)
       - const (delta mparam) - const (rhohat mparam)
       - const (sigma2 mparam) * (opp k_mean / N_) * (K / N_))
    * N_ in
  let dN_diff := K * a in
  maximum (N_ + dN_drift + dN_diff) (const (1 / 100)).

Definition JFV_next_N (t : nat) (input_data : InputData A) (k : Tensor2 A)
  (N_ : Tensor1 A) : Tensor1 A :=
  map3 JFV_next_N_path (ashock_at t (ashock input_data)) N_
       (reduce_mean_axis1 k).

Definition JFV_body (input_data : InputData A) (st : option (LoopState A))
  (t : nat) : option (LoopState A) :=
  s <- st ;;
  let full_state_dict :=
    JFV_full_state_dict t input_data (st_k_cross s) (st_N s) in
  if is_terminal t then
    v <- terminal_value full_state_dict ;;
    Some {| st_k_cross := st_k_cross s;
            st_N := st_N s;
            st_util_sum :=
              acc_add (acc_map (fun u => u * const (dt mparam)) (st_util_sum s))
                      (discounted t v);
            st_gp_loss := st_gp_loss s |}
  else
    c_share <- consumption_share full_state_dict ;;
    let wealth := JFV_wealth t input_data (st_k_cross s) (st_N s) in
    let csmp := JFV_csmp c_share wealth in
    Some {| st_k_cross := JFV_next_capital wealth csmp;
            st_N := JFV_next_N t input_data (st_k_cross s) (st_N s);
            st_util_sum :=
              acc_add (st_util_sum s)
                      (Tn (map (map (fun c => const (discount t)
                                              * (const 1 - const 1 / c))) csmp));
            st_gp_loss := st_gp_loss s |}.

Definition JFV_loss (input_data : InputData A) : option (Output A) :=
  s <- fold_left (JFV_body input_data) (seq 0 (t_unroll cfg))
                 (Some (init_state input_data)) ;;
  output s None.
End Losses.

(** ** The training loop and the sampler *)

(** The calls [train] and [sampler] make to their collaborators, in the
    order they are made.  [n_step] is the global step at which the value
    trainers are retrained. *)
Inductive Event : Type :=
| EvNextBatch (batch_size : Z)
| EvSimulShocks (n_sample : Z)
| EvUpdatePolicyDataset (update_init : bool)
| EvTrainStep
| EvGetValueDataset (n_step : Z) (update_init : bool)
| EvValueTrain (n_step : Z) (vtr : nat)
| EvValidLoss.

Inductive Exception : Type :=
| AssertionError
| ZeroDivisionError.

Inductive Result (X : Type) : Type :=
| Ok (x : X)
| Raise (e : Exception).
Arguments Ok {X} x.
Arguments Raise {X} e.

(** The entries of [config] read by [train] and [sampler]. *)
Record TrainConfig : Type := {
  valid_size : Z;
  freq_valid : Z;
  freq_update_v : Z;
  epoch_resample : Z;
  cfg_update_init : bool;
  value_sampling : string;
  lr_beg : R;
  lr_end : R
}.

Section Training.
(** The policy dataset, a batch of it, the shock paths, a value dataset,
    and everything else the collaborators keep (network weights, optimiser
    and random state, the value trainers). *)
Variables Dataset Batch Shocks ValueDataset World : Type.

Variable tcfg : TrainConfig.
Variable num_vnet : nat.
(** [self.init_ds.datadict]. *)
Variable datadict : Batch.

Variable epoch_used : Dataset -> Z.
Variable next_batch : Z -> Dataset -> Batch * Dataset.
Variable simul_shocks : Z -> Batch -> World -> Shocks * World.
Variable with_shocks : Batch -> Shocks -> Batch.
Variable get_policydataset : bool -> World -> Dataset * World.
Variable apply_gradients : Batch -> World -> World.
Variable get_valuedataset : bool -> World -> ValueDataset * World.
Variable vtr_train : nat -> ValueDataset -> World -> World.

Record Trainer : Type := {
  policy_ds : Dataset;
  world : World
}.

(** A computation on the trainer that may raise, with the calls it made. *)
Definition M (X : Type) : Type := Trainer -> Result X * Trainer * list Event.

Definition ret {X : Type} (x : X) : M X := fun s => (Ok x, s, []).

Definition raise {X : Type} (e : Exception) : M X :=
  fun s => (Raise e, s, []).

Definition bind {X Y : Type} (m : M X) (k : X -> M Y) : M Y :=
  fun s =>
    match m s with
    | (Ok x, s1, log1) =>
        let '(r, s2, log2) := k x s1 in (r, s2, log1 ++ log2)
    | (Raise e, s1, log1) => (Raise e, s1, log1)
    end.

Definition emit (e : Event) : M unit := fun s => (Ok tt, s, [e]).

Definition get_ds : M Dataset := fun s => (Ok (policy_ds s), s, []).

Definition on_world {X : Type} (f : World -> X * World) : M X :=
  fun s =>
    let '(x, w) := f (world s) in
    (Ok x, {| policy_ds := policy_ds s; world := w |}, []).

Definition set_ds (d : Dataset) : M unit :=
  fun s => (Ok tt, {| policy_ds := d; world := world s |}, []).

Local Notation "x <-- m ;;; k" := (bind m (fun x => k))
  (at level 61, m at next level, right associativity).
Local Notation "m ;;; k" := (bind m (fun _ => k))
  (at level 61, right associativity).

(** [for x in xs: acc = body(x, acc)]. *)
Fixpoint for_each {X S : Type} (xs : list X) (body : X -> S -> M S) (acc : S)
  : M S :=
  match xs with
  | [] => ret acc
  | x :: xs' => acc' <-- body x acc ;;; for_each xs' body acc'
  end.

(** [range(n)]. *)
Definition range (n : Z) : list Z := map Z.of_nat (seq 0 (Z.to_nat n)).

(** [update_policydataset] of the concrete trainers:
    [self.policy_ds = self.init_ds.get_policydataset(self.current_c_policy,
    "nn_share", update_init)]. *)
Definition update_policydataset (update_init : bool) : M unit :=
  emit (EvUpdatePolicyDataset update_init) ;;;
  d <-- on_world (get_policydataset update_init) ;;;
  set_ds d.

(** [sampler]. *)
Definition sampler (batch_size : Z) (update_init : bool) : M Batch :=
  d <-- get_ds ;;;
  emit (EvNextBatch batch_size) ;;;
  let '(train_data, d') := next_batch batch_size d in
  set_ds d' ;;;
  emit (EvSimulShocks batch_size) ;;;
  shocks <-- on_world (simul_shocks batch_size train_data) ;;;
  let train_data := with_shocks train_data shocks in
  d'' <-- get_ds ;;;
  (if (epoch_used d'' >? epoch_resample tcfg)%Z
   then update_policydataset update_init
   else ret tt) ;;;
  ret train_data.

(** [train_step]: one optimiser update from one batch. *)
Definition train_step (train_data : Batch) : M unit :=
  emit EvTrainStep ;;;
  on_world (fun w => (tt, apply_gradients train_data w)).

(** The retraining of the value trainers inside the step loop. *)
Definition retrain_values (n_step : Z) : M bool :=
  let update_init := cfg_update_init tcfg in
  emit (EvGetValueDataset n_step update_init) ;;;
  vds <-- on_world (get_valuedataset update_init) ;;;
  for_each (seq 0 num_vnet)
           (fun vtr (_ : unit) =>
              emit (EvValueTrain n_step vtr) ;;;
              on_world (fun w => (tt, vtr_train vtr vds w)))
           tt ;;;
  ret update_init.

(** The condition of line 158, evaluated left to right: [n_step % 0]
    raises. *)
Definition retrain_due (n_step : Z) : M bool :=
  if negb (String.eqb (value_sampling tcfg) "bchmk") then
    if (freq_update_v tcfg =? 0)%Z then raise ZeroDivisionError
    else ret ((n_step mod freq_update_v tcfg =? 0)%Z && (n_step >? 0)%Z)
  else ret false.

Definition inner_step (batch_size n step : Z) (update_init : bool) : M bool :=
  train_data <-- sampler batch_size update_init ;;;
  train_step train_data ;;;
  let n_step := (n * freq_valid tcfg + step)%Z in
  due <-- retrain_due n_step ;;;
  if due then retrain_values n_step else ret update_init.

Definition epoch (batch_size n : Z) (update_init : bool) : M bool :=
  update_init' <--
    for_each (range (freq_valid tcfg)) (inner_step batch_size n) update_init ;;;
  emit EvValidLoss ;;;
  ret update_init'.

(** [train]. *)
Definition train (num_step batch_size : Z) : M unit :=
  (* lr_schedule: [decay_rate = lr_end / lr_beg] *)
  (if Req_dec_T (lr_beg tcfg) 0 then raise ZeroDivisionError else ret tt) ;;;
  (if (batch_size <=? valid_size tcfg)%Z then ret tt
   else raise AssertionError) ;;;
  (* valid_data["ashock"], valid_data["ishock"] *)
  emit (EvSimulShocks (valid_size tcfg)) ;;;
  on_world (simul_shocks (valid_size tcfg) datadict) ;;;
  (if (freq_valid tcfg =? 0)%Z then raise ZeroDivisionError else ret tt) ;;;
  let n_epoch := (num_step / freq_valid tcfg)%Z in
  for_each (range n_epoch) (epoch batch_size) false ;;;
  ret tt.
End Training.

Arguments policy_ds {Dataset World} t.
Arguments world {Dataset World} t.
Arguments Build_Trainer {Dataset World} policy_ds world.

(** ** [grad]: the differentiated quantity *)

(** [total_loss] of [grad]: with [grad_penalty] the entry ["gp_loss"] of
    [output_dict] is read, a missing key for the variants that do not
    compute one. *)
Definition total_loss {A : Type} `{Scalar A} (grad_penalty : bool)
  (output_dict : Output A) : option A :=
  if grad_penalty then
    g <- gp_loss output_dict ;;
    Some (m_util output_dict + const (1 / 10) * g)%S
  else Some (m_util output_dict).

(** ** [current_c_policy]: the policy on raw states *)

(** [np.stack(ts, axis=-1)] of [n_path, n_agt] arrays. *)
Fixpoint stack_last {A : Type} (ts : list (Tensor2 A)) : Tensor3 A :=
  match ts with
  | [] => []
  | t :: rest =>
      match rest with
      | [] => map (map (fun x => [x])) t
      | _ :: _ => map2 (map2 cons) t (stack_last rest)
      end
  end.

Section CurrentPolicy.
Context {A : Type} `{Scalar A}.

Variable mparam : MParam.
(** [self.init_ds.normalize_data] on arrays (without [withtf]). *)
Variable normalize_data_np : Key -> Tensor3 A -> Tensor3 A.
Variable policy_fn : FullState A -> option (Tensor3 A).

(** [np.repeat(x, n, axis=1)] of a [n_path, 1] array. *)
Definition repeat_axis1 (col : Tensor1 A) (n : nat) : Tensor2 A :=
  map (fun c => repeat c n) col.

(** [KSPolicyTrainer.current_c_policy] and
    [DavilaASPolicyTrainer.current_c_policy]. *)
Definition KS_current_c_policy (k_cross : Tensor2 A) (ashock : Tensor1 A)
  (ishock : Tensor2 A) : option (Tensor2 A) :=
  let k_mean := reduce_mean_axis1 k_cross in
  let k_mean := repeat_axis1 k_mean (n_agt mparam) in
  let ashock := repeat_axis1 ashock (n_agt mparam) in
  let basic_s := stack_last [k_cross; k_mean; ashock; ishock] in
  let basic_s := normalize_data_np key_basic_s basic_s in
  let full_state_dict :=
    {| basic_s := basic_s;
       agt_s := normalize_data_np key_agt_s (expand_dims k_cross) |} in
  p <- policy_fn full_state_dict ;;
  index0 p.

(** [DavilaPolicyTrainer.current_c_policy]. *)
Definition Davila_current_c_policy (k_cross : Tensor2 A) (ishock : Tensor2 A)
  : option (Tensor2 A) :=
  let k_mean := reduce_mean_axis1 k_cross in
  let k_mean := repeat_axis1 k_mean (n_agt mparam) in
  let basic_s := stack_last [k_cross; k_mean; ishock] in
  let full_state_dict :=
    {| basic_s := basic_s; agt_s := expand_dims k_cross |} in
  p <- policy_fn full_state_dict ;;
  index0 p.

(** [JFVPolicyTrainer.current_c_policy]. *)
Definition JFV_current_c_policy (k_cross : Tensor2 A) (N_ : Tensor1 A)
  (ishock : Tensor2 A) : option (Tensor2 A) :=
  let k_mean := reduce_mean_axis1 k_cross in
  let k_mean := repeat_axis1 k_mean (n_agt mparam) in
  let N_tmp := repeat_axis1 N_ (n_agt mparam) in
  let basic_s := stack_last [k_cross; k_mean; N_tmp; ishock] in
  let basic_s := normalize_data_np key_basic_s basic_s in
  let full_state_dict :=
    {| basic_s := basic_s;
       agt_s := normalize_data_np key_agt_s (expand_dims k_cross) |} in
  p <- policy_fn full_state_dict ;;
  index0 p.
End CurrentPolicy.

(** ** binary64

    The third reading of the scalars: [float64] numbers, with every
    operation rounded to the nearest binary64 number, ties to even.  A
    binary64 number is [m * 2^e] with [|m| < 2^53] and [e >= -1074]; the
    exponent of a normal number is at least [emin = -1022].  Overflow,
    [inf] and [NaN] stay outside: a real beyond the binary64 range rounds to
    a real with a 53-bit mantissa, and a division by zero is [0] as it is
    in [R].  [exp], [log] and [pow] are taken correctly rounded; what is
    proved below uses only that the exponential is positive and
    increasing. *)

(** [2^e]. *)
Definition pow2 (e : Z) : R := powerRZ 2 e.

(** [floor(log2 x)], the exponent of a positive real. *)
Definition ilog2 (x : R) : Z := Int_part (ln x / ln 2).

(** The nearest integer, ties to even. *)
Definition round_half_even (y : R) : Z :=
  let n := Int_part y in
  if Rlt_dec (y - IZR n) (1 / 2) then n
  else if Rlt_dec (1 / 2) (y - IZR n) then (n + 1)%Z
  else if Z.even n then n else (n + 1)%Z.

(** The exponent of the smallest normal number. *)
Definition emin : Z := (-1022)%Z.

(** A positive real rounded to 53 significant bits, or to a multiple of
    [2^-1074] below the normal range. *)
Definition rnd64_pos (x : R) : R :=
  let e := Z.max (ilog2 x) emin in
  IZR (round_half_even (x * pow2 (52 - e))) * pow2 (e - 52).

(** Round to nearest, ties to even. *)
Definition rnd64 (x : R) : R :=
  if Rlt_dec 0 x then rnd64_pos x
  else if Rlt_dec x 0 then - rnd64_pos (- x)
  else 0.

(** A binary64 number, given by any real that rounds to it: [f64 x] is the
    number [x] stands for. *)
Record Float64 : Type := of_real { raw : R }.

Definition f64 (x : Float64) : R := rnd64 (raw x).

Definition f64_add (x y : Float64) : Float64 := of_real (f64 x + f64 y).
Definition f64_sub (x y : Float64) : Float64 := of_real (f64 x - f64 y).
Definition f64_mul (x y : Float64) : Float64 := of_real (f64 x * f64 y).
Definition f64_div (x y : Float64) : Float64 := of_real (f64 x / f64 y).
Definition f64_opp (x : Float64) : Float64 := of_real (- f64 x).
Definition f64_exp (x : Float64) : Float64 := of_real (exp (f64 x)).

(** [tf.sigmoid] on [float64]: [1 / (1 + exp(-x))]. *)
Definition f64_sigmoid (x : Float64) : Float64 :=
  f64_div (of_real 1) (f64_add (of_real 1) (f64_exp (f64_opp x))).

#[export] Instance Scalar_Float64 : Scalar Float64 := {
  const := of_real;
  value := f64;
  add := f64_add;
  sub := f64_sub;
  mul := f64_mul;
  div := f64_div;
  power := fun x y => of_real (Rpower (f64 x) (f64 y));
  log := fun x => of_real (ln (f64 x));
  sigmoid := f64_sigmoid;
  minimum := fun x y => if Rle_dec (f64 x) (f64 y) then x else y;
  maximum := fun x y => if Rge_dec (f64 x) (f64 y) then x else y;
  relu := fun x => if Rlt_dec 0 (f64 x) then x else of_real 0;
  opp := f64_opp;
  stop_gradient := fun x => x
}.

(** * Statements *)

(** Every entry of a policy output is a share. *)
Definition share3 (p : Tensor3 R) : Prop :=
  Forall (Forall (Forall (fun y => 0 < y < 1))) p.


(** What one clipped period guarantees, entry by entry: consumption is at
    least [EPSILON]; it leaves the margin [EPSILON] below wealth, and the
    next capital is at least [EPSILON], exactly when wealth is at least
    [2 * EPSILON]. *)
Definition margin (wealth csmp k' : Tensor2 R) : Prop :=
  forall i j w c,
    entry wealth i j = Some w -> entry csmp i j = Some c ->
    entry k' i j = Some (w - c) /\
    EPSILON <= c /\
    (c <= w - EPSILON <-> 2 * EPSILON <= w) /\
    (EPSILON <= w - c <-> 2 * EPSILON <= w).

(** The same for the JFV variant, where consumption is a rate over a step
    of length [h]. *)
Definition JFV_margin (h : R) (wealth csmp k' : Tensor2 R) : Prop :=
  forall i j w c,
    entry wealth i j = Some w -> entry csmp i j = Some c ->
    entry k' i j = Some (w - c * h) /\
    EPSILON <= c /\
    (c <= w / h - EPSILON <-> 2 * EPSILON <= w / h) /\
    (EPSILON * h <= w - c * h <-> 2 * EPSILON <= w / h).

(** Strict interiority: what the clip gives in general. *)
Definition interior (wealth csmp k' : Tensor2 R) : Prop :=
  forall i j w c,
    entry wealth i j = Some w -> entry csmp i j = Some c ->
    entry k' i j = Some (w - c) /\
    0 < c /\
    (c < w <-> EPSILON < w) /\
    (0 <= w - c <-> EPSILON <= w).

Definition JFV_interior (h : R) (wealth csmp k' : Tensor2 R) : Prop :=
  forall i j w c,
    entry wealth i j = Some w -> entry csmp i j = Some c ->
    entry k' i j = Some (w - c * h) /\
    0 < c /\
    (c < w / h <-> EPSILON < w / h) /\
    (0 <= w - c * h <-> EPSILON <= w / h).


(** ** A small economy for the examples

    Two agents on one path, the parameters of the regression scenario
    (beta 0.96, delta 0.1, alpha 0.36), no labour tax, no unemployment
    benefit, and a policy network whose output is constantly 0, so that
    every agent consumes half of its wealth before clipping. *)

Definition example_mparam : MParam :=
  {| beta := 96 / 100; delta := 1 / 10; alpha := 36 / 100;
     tau_b := 0; tau_g := 0; l_bar := 1; er_b := 1; er_g := 1; mu := 0;
     emp_b := 1; emp_g := 1;
     epsilon_0 := 0; epsilon_1 := 1; epsilon_2 := 2;
     dt := 1 / 10; sigma2 := 0; rhohat := 1 / 25; z1 := 0; z2 := 1;
     n_agt := 2 |}.

Definition example_cfg (objective : string) : Config :=
  {| t_unroll := 2; sgm_scale := 1; opt_type := objective;
     use_log_k := false; full_state := false; n_fm := 1; n_gm := 0;
     cfg_n_agt := 2 |}.

Definition identity_normalizer {A : Type} (_ : Key) (x : Tensor3 A) : Tensor3 A := x.
Definition identity_unnormalizer {A : Type} (_ : Key) (x : Tensor2 A) : Tensor2 A := x.

(** A network that answers 0 for every agent. *)
Definition zero_net (state : Tensor3 R) : Tensor3 R :=
  map (map (fun _ => [0])) state.

Definition example_policy (objective : string)
  : FullState R -> option (Tensor3 R) :=
  policy_fn (example_cfg objective) zero_net (fun x => x).

Definition example_vtrainers : list (FullState R -> Tensor3 R) :=
  [fun full_state_dict => zero_net (basic_s full_state_dict)].

(** Both agents employed and holding one unit of capital. *)
Definition rich_batch : InputData R :=
  {| k_cross := [[1; 1]];
     N := [1];
     ashock := [[1; 1]];
     ishock := [[[1; 1]; [1; 1]]] |}.

(** Agent 0 is unemployed and holds 0.0005 units of capital; the mean
    capital of the path is still 1. *)
Definition poor_batch : InputData R :=
  {| k_cross := [[1 / 2000; 3999 / 2000]];
     N := [1];
     ashock := [[1; 1]];
     ishock := [[[0; 0]; [1; 1]]] |}.

(** The loop state after period 0 of a recursion started on [batch]. *)
Definition after_first_period
  (body : option (LoopState R) -> nat -> option (LoopState R))
  (batch : InputData R) : LoopState R :=
  match body (Some (init_state batch)) 0%nat with
  | Some s' => s'
  | None => init_state batch
  end.

Definition example_KS_body (objective : string) (batch : InputData R) :=
  KS_body example_mparam (example_cfg objective) identity_normalizer
          identity_unnormalizer example_vtrainers (example_policy objective)
          batch.

Definition example_DavilaAS_body (objective : string) (batch : InputData R) :=
  DavilaAS_body example_mparam (example_cfg objective) identity_normalizer
                identity_unnormalizer example_vtrainers
                (example_policy objective) batch.

Definition example_JFV_body (objective : string) (batch : InputData R) :=
  JFV_body example_mparam (example_cfg objective) identity_normalizer
           identity_unnormalizer example_vtrainers (example_policy objective)
           batch.

(** Every entry of a [n_path, n_agt] tensor of shares is a share. *)
Definition share2 (c : Tensor2 R) : Prop :=
  Forall (Forall (fun y => 0 < y < 1)) c.

(** One unclipped period (Davila), entry by entry: with a share strictly
    between 0 and 1, consumption is strictly inside [(0, wealth)], and the
    next capital [(1 - share) * wealth] is positive, exactly when wealth is
    positive. *)
Definition Davila_interior (c_share wealth csmp k' : Tensor2 R) : Prop :=
  forall i j w sh,
    entry wealth i j = Some w -> entry c_share i j = Some sh ->
    0 < sh < 1 ->
    entry csmp i j = Some (sh * w) /\
    entry k' i j = Some ((1 - sh) * w) /\
    (0 < sh * w < w <-> 0 < w) /\
    (0 < (1 - sh) * w <-> 0 < w).

Definition example_Davila_body (objective : string) (batch : InputData R) :=
  Davila_body example_mparam (example_cfg objective) identity_unnormalizer
              example_vtrainers (example_policy objective)
              (fun _ _ k => k) batch.

(** ** Derivatives

    A dual number is flat when its derivative is 0.  A tensor is flat when
    all its entries are. *)
Definition flat (x : Dual) : Prop := tangent x = 0.
Definition flat1 (l : list Dual) : Prop := Forall flat l.
Definition flat2 (t : Tensor2 Dual) : Prop := Forall flat1 t.
Definition flat3 (t : Tensor3 Dual) : Prop := Forall flat2 t.

Definition flat_acc (x : Acc Dual) : Prop :=
  match x with
  | Sc a => flat a
  | Tn t => flat2 t
  end.

Definition flat_state (f : FullState Dual) : Prop :=
  flat3 (basic_s f) /\ flat3 (agt_s f).

Definition flat_input (i : InputData Dual) : Prop :=
  flat2 (k_cross i) /\ flat1 (N i) /\ flat2 (ashock i) /\ flat3 (ishock i).

(** A collaborator that is differentiated with its parameters held fixed
    maps flat inputs to flat outputs. *)
Definition flat_normalizer (f : Key -> Tensor3 Dual -> Tensor3 Dual) : Prop :=
  forall key x, flat3 x -> flat3 (f key x).

Definition flat_unnormalizer (f : Key -> Tensor2 Dual -> Tensor2 Dual) : Prop :=
  forall key x, flat2 x -> flat2 (f key x).

Definition flat_value_fn (f : FullState Dual -> Tensor3 Dual) : Prop :=
  forall s, flat_state s -> flat3 (f s).

(** The consumption share of agent 0 is not perturbed; the shares of the
    other agents carry any derivative at all. *)
Definition agent0_unperturbed (policy : FullState Dual -> option (Tensor3 Dual))
  : Prop :=
  forall s p, flat_state s -> policy s = Some p ->
    Forall (fun block => match block with
                         | [] => True
                         | agent0 :: _ => flat1 agent0
                         end) p.

(** The loop variables the objective depends on are flat. *)
Definition flat_loop (s : LoopState Dual) : Prop :=
  flat2 (st_k_cross s) /\ flat1 (st_N s) /\ flat_acc (st_util_sum s).

Definition lift (x : R) : Dual := mkDual x 0.

(** [rich_batch] as a batch of constants. *)
Definition rich_batch_dual : InputData Dual :=
  {| k_cross := map (map lift) (k_cross rich_batch);
     N := map lift (N rich_batch);
     ashock := map (map lift) (ashock rich_batch);
     ishock := map (map (map lift)) (ishock rich_batch) |}.

(** The value network of the examples, on dual numbers. *)
Definition example_vtrainers_dual : list (FullState Dual -> Tensor3 Dual) :=
  [fun full_state_dict =>
     map (map (fun _ => [lift 0])) (basic_s full_state_dict)].

(** Every agent consumes half of its wealth; the unit derivative sits on
    the share of agent [who], at every period. *)
Definition perturbed_policy (who : nat) (s : FullState Dual)
  : option (Tensor3 Dual) :=
  Some (map (fun block =>
               map (fun j => [mkDual (1 / 2) (if Nat.eqb j who then 1 else 0)])
                   (seq 0 (length block)))
            (basic_s s)).

(** A batch for the JFV recursion: capital 0.5 per agent and [N = 0.5], no
    aggregate shock. *)
Definition jfv_batch_dual : InputData Dual :=
  {| k_cross := [[lift (1 / 2); lift (1 / 2)]];
     N := [lift (1 / 2)];
     ashock := [[lift 0; lift 0]];
     ishock := [[[lift 1; lift 1]; [lift 1; lift 1]]] |}.

(** The derivative of [m_util] along the direction carried by the inputs
    and the policy. *)
Definition objective_derivative (result : option (Output Dual)) : option R :=
  match result with
  | Some out => Some (tangent (m_util out))
  | None => None
  end.

(** The loop state after the periods [ts] of a recursion started on
    [batch]. *)
Definition after_periods
  (body : option (LoopState R) -> nat -> option (LoopState R))
  (ts : list nat) (batch : InputData R) : LoopState R :=
  match fold_left body ts (Some (init_state batch)) with
  | Some s' => s'
  | None => init_state batch
  end.

(** ** The JFV objective as the specification words it

    Every per-period utility is scaled by [dt] when it is added to the
    running sum, and the discounted terminal value is added to that sum as
    it is: the sum over the non-terminal periods of
    [dt * beta^t * (1 - 1/c_t)], plus [beta^(T-1)] times the mean value. *)
Section JFVScaled.
Context {A : Type} `{Scalar A}.
Local Open Scope scalar_scope.

Variable mparam : MParam.
Variable cfg : Config.
Variable normalize_data : Key -> Tensor3 A -> Tensor3 A.
Variable unnormalize_data : Key -> Tensor2 A -> Tensor2 A.
Variable vtrainers : list (FullState A -> Tensor3 A).
Variable policy_fn : FullState A -> option (Tensor3 A).

Definition JFV_body_scaled (input_data : InputData A)
  (st : option (LoopState A)) (t : nat) : option (LoopState A) :=
  s <- st ;;
  let full_state_dict :=
    JFV_full_state_dict mparam normalize_data t input_data
                        (st_k_cross s) (st_N s) in
  if is_terminal cfg t then
    v <- terminal_value unnormalize_data vtrainers full_state_dict ;;
    Some {| st_k_cross := st_k_cross s;
            st_N := st_N s;
            st_util_sum := acc_add (st_util_sum s) (discounted mparam t v);
            st_gp_loss := st_gp_loss s |}
  else
    c_share <- consumption_share cfg policy_fn full_state_dict ;;
    let wealth := JFV_wealth mparam t input_data (st_k_cross s) (st_N s) in
    let csmp := JFV_csmp mparam c_share wealth in
    Some {| st_k_cross := JFV_next_capital mparam wealth csmp;
            st_N := JFV_next_N mparam t input_data (st_k_cross s) (st_N s);
            st_util_sum :=
              acc_add (st_util_sum s)
                      (Tn (map (map (fun c =>
                                       const (dt mparam)
                                       * (const (discount mparam t)
                                          * (const 1 - const 1 / c))))
                               csmp));
            st_gp_loss := st_gp_loss s |}.

Definition JFV_loss_scaled (input_data : InputData A) : option (Output A) :=
  s <- fold_left (JFV_body_scaled input_data) (seq 0 (t_unroll cfg))
                 (Some (init_state input_data)) ;;
  output cfg s None.
End JFVScaled.

(** The running sums of the two recursions before the terminal period. *)
Definition scaled_by (h : R) (s ss : LoopState R) : Prop :=
  st_k_cross ss = st_k_cross s /\
  st_N ss = st_N s /\
  st_gp_loss ss = st_gp_loss s /\
  st_util_sum ss = acc_map (fun u => u * h) (st_util_sum s).

(** The two recursions fail together, and otherwise stay related. *)
Definition together (h : R) (r rs : option (LoopState R)) : Prop :=
  match r, rs with
  | Some s, Some ss => scaled_by h s ss
  | None, None => True
  | _, _ => False
  end.

Definition example_JFV_loop (objective : string) (batch : InputData R)
  : LoopState R :=
  after_periods (example_JFV_body objective batch) (seq 0 2) batch.

(** Every entry of [N] is at least 0.01. *)
Definition floored (s : LoopState R) : Prop :=
  Forall (fun n => 1 / 100 <= n) (st_N s).


(** ** Statements about the training loop *)

(** The number of dataset regenerations in a sequence of calls. *)
Fixpoint count_updates (log : list Event) : nat :=
  match log with
  | [] => 0
  | EvUpdatePolicyDataset _ :: log' => S (count_updates log')
  | _ :: log' => count_updates log'
  end.

(** What every call that retrains the value trainers satisfies: it is made
    at a positive global step that is a multiple of [freq_update_v], hence
    at step [freq_update_v] at the earliest, and never when the value
    sampling is ["bchmk"]. *)
Definition retrain_event_ok (tcfg : TrainConfig) (e : Event) : Prop :=
  let due n_step :=
    (0 < n_step)%Z /\
    String.eqb (value_sampling tcfg) "bchmk" = false /\
    freq_update_v tcfg <> 0%Z /\
    (n_step mod freq_update_v tcfg = 0)%Z /\
    (freq_update_v tcfg <= n_step)%Z in
  match e with
  | EvGetValueDataset n_step _ => due n_step
  | EvValueTrain n_step _ => due n_step
  | _ => True
  end.

(** Every call a computation makes satisfies [P]; and, besides, every value
    it returns satisfies [Q]. *)
Definition logs {Dataset World X : Type} (P : Event -> Prop)
  (m : M Dataset World X) : Prop :=
  forall s, Forall P (snd (m s)).

Definition logs_post {Dataset World X : Type} (P : Event -> Prop)
  (Q : X -> Prop) (m : M Dataset World X) : Prop :=
  forall s, Forall P (snd (m s)) /\
            (forall x, fst (fst (m s)) = Ok x -> Q x).

(** A toy instance of the collaborators: the dataset is its own usage
    counter, and a batch drawn from it uses it once more. *)
Definition example_tcfg : TrainConfig :=
  {| valid_size := 4; freq_valid := 2; freq_update_v := 3;
     epoch_resample := 1; cfg_update_init := true;
     value_sampling := "nn"; lr_beg := 1 / 1000; lr_end := 1 / 10000 |}.

Definition example_trainer (used : Z) : Trainer Z unit :=
  {| policy_ds := used; world := tt |}.

Definition example_sampler (batch_size : Z) (update_init : bool)
  : M Z unit unit :=
  sampler Z unit unit unit example_tcfg
          (fun d => d) (fun _ d => (tt, (d + 1)%Z))
          (fun _ _ w => (tt, w)) (fun b _ => b) (fun _ w => (0%Z, w))
          batch_size update_init.

Definition example_train (num_step batch_size : Z) : M Z unit unit :=
  train Z unit unit unit unit example_tcfg 1 tt
        (fun d => d) (fun _ d => (tt, (d + 1)%Z))
        (fun _ _ w => (tt, w)) (fun b _ => b) (fun _ w => (0%Z, w))
        (fun _ w => w) (fun _ w => (tt, w)) (fun _ _ w => w)
        num_step batch_size.

(** ** Statements over binary64 *)

(** Every entry of a policy output, and of a tensor of shares, is a
    binary64 number between 0 and 1, the ends included. *)
Definition share3_f64 (p : Tensor3 Float64) : Prop :=
  Forall (Forall (Forall (fun y => 0 <= f64 y <= 1))) p.

Definition share2_f64 (c : Tensor2 Float64) : Prop :=
  Forall (Forall (fun y => 0 <= f64 y <= 1)) c.

(** What one clipped period guarantees in binary64, entry by entry, with
    [lo] the rounded [EPSILON] and [hi] the rounded [wealth - EPSILON]:
    consumption is at least [lo]; it is at most [hi] exactly when the
    bounds do not cross, and it is [lo] when they do; the next capital is
    the rounded [wealth - c], which is not negative when the bounds do not
    cross. *)
Definition margin_f64 (wealth csmp k' : Tensor2 Float64) : Prop :=
  forall i j w c,
    entry wealth i j = Some w -> entry csmp i j = Some c ->
    let lo := rnd64 EPSILON in
    let hi := rnd64 (f64 w - rnd64 EPSILON) in
    entry k' i j = Some (w - c)%S /\
    lo <= f64 c /\
    (f64 c <= hi <-> lo <= hi) /\
    (hi < lo -> f64 c = lo) /\
    (lo <= hi -> 0 <= f64 (w - c)%S).

(** The same for the JFV variant, [hi] being the rounded
    [wealth / dt - EPSILON]; the next capital [wealth - c * dt] has no
    bound that survives the two roundings. *)
Definition JFV_margin_f64 (h : R) (wealth csmp k' : Tensor2 Float64) : Prop :=
  forall i j w c,
    entry wealth i j = Some w -> entry csmp i j = Some c ->
    let lo := rnd64 EPSILON in
    let hi := rnd64 (rnd64 (f64 w / rnd64 h) - rnd64 EPSILON) in
    entry k' i j = Some (w - c * const h)%S /\
    lo <= f64 c /\
    (f64 c <= hi <-> lo <= hi) /\
    (hi < lo -> f64 c = lo).

(** In exact arithmetic: below a wealth of [2 * EPSILON] the clamp returns
    [EPSILON]. *)
Definition clamp_floor (wealth csmp : Tensor2 R) : Prop :=
  forall i j w c,
    entry wealth i j = Some w -> entry csmp i j = Some c ->
    w < 2 * EPSILON -> c = EPSILON.

Definition JFV_clamp_floor (h : R) (wealth csmp : Tensor2 R) : Prop :=
  forall i j w c,
    entry wealth i j = Some w -> entry csmp i j = Some c ->
    w / h < 2 * EPSILON -> c = EPSILON.

(** One unclipped period (Davila) in binary64, entry by entry: the share
    is between 0 and 1, the ends included; consumption is the rounded
    [share * wealth] and the next capital the rounded [wealth - csmp];
    with a wealth that is not negative, consumption lies between 0 and
    wealth and the next capital is not negative. *)
Definition Davila_floor_f64 (c_share wealth k' : Tensor2 Float64) : Prop :=
  forall i j w sh,
    entry wealth i j = Some w -> entry c_share i j = Some sh ->
    0 <= f64 sh <= 1 /\
    entry k' i j = Some (w - sh * w)%S /\
    (0 <= f64 w ->
     0 <= f64 (sh * w)%S <= f64 w /\ 0 <= f64 (w - sh * w)%S).

(** The small economy in binary64: a network whose output is the constant
    [y], a state of one path and one agent, and the batches of the
    examples with their entries read as binary64 numbers. *)
Definition constant_net (y : R) (state : Tensor3 Float64) : Tensor3 Float64 :=
  map (map (fun _ => [of_real y])) state.

Definition example_state_f64 : FullState Float64 :=
  {| basic_s := [[[of_real 2; of_real 2; of_real 1; of_real 1]]];
     agt_s := [[[of_real 2]]] |}.

Definition to_f64 (batch : InputData R) : InputData Float64 :=
  {| k_cross := map (map of_real) (k_cross batch);
     N := map of_real (N batch);
     ashock := map (map of_real) (ashock batch);
     ishock := map (map (map of_real)) (ishock batch) |}.

Definition example_policy_f64 (objective : string)
  : FullState Float64 -> option (Tensor3 Float64) :=
  policy_fn (example_cfg objective) (constant_net 0) (fun x => x).

Definition example_vtrainers_f64 : list (FullState Float64 -> Tensor3 Float64) :=
  [fun full_state_dict => constant_net 0 (basic_s full_state_dict)].

(** ** Further statements *)

(** The loops of the four losses, from the initial state of a batch. *)
Section Loops.
Context {A : Type} `{Scalar A}.
Variable mparam : MParam.
Variable cfg : Config.
Variable normalize_data : Key -> Tensor3 A -> Tensor3 A.
Variable unnormalize_data : Key -> Tensor2 A -> Tensor2 A.
Variable vtrainers : list (FullState A -> Tensor3 A).
Variable policy_fn : FullState A -> option (Tensor3 A).
Variable tape_gradient : nat -> InputData A -> Tensor2 A -> Tensor2 A.
Variable input_data : InputData A.

Definition KS_loop : option (LoopState A) :=
  fold_left (KS_body mparam cfg normalize_data unnormalize_data vtrainers
                     policy_fn input_data)
            (seq 0 (t_unroll cfg)) (Some (init_state input_data)).

Definition Davila_loop : option (LoopState A) :=
  fold_left (Davila_body mparam cfg unnormalize_data vtrainers policy_fn
                         tape_gradient input_data)
            (seq 0 (t_unroll cfg)) (Some (init_state input_data)).

Definition DavilaAS_loop : option (LoopState A) :=
  fold_left (DavilaAS_body mparam cfg normalize_data unnormalize_data
                           vtrainers policy_fn input_data)
            (seq 0 (t_unroll cfg)) (Some (init_state input_data)).

Definition JFV_loop : option (LoopState A) :=
  fold_left (JFV_body mparam cfg normalize_data unnormalize_data vtrainers
                      policy_fn input_data)
            (seq 0 (t_unroll cfg)) (Some (init_state input_data)).
End Loops.

(** Two loop results that agree on everything but the accumulated gradient
    penalty. *)
Definition same_forward (l1 l2 : option (LoopState R)) : Prop :=
  match l1, l2 with
  | Some s1, Some s2 =>
      st_k_cross s1 = st_k_cross s2 /\ st_N s1 = st_N s2 /\
      st_util_sum s1 = st_util_sum s2
  | None, None => True
  | _, _ => False
  end.

(** An accumulator without negative entries. *)
Definition nonneg_acc (x : Acc R) : Prop :=
  match x with
  | Sc a => 0 <= a
  | Tn t => Forall (Forall (fun y => 0 <= y)) t
  end.

(** ** Counting the calls of a run *)

Definition count_events (p : Event -> bool) (log : list Event) : nat :=
  length (filter p log).

Definition is_train_step (e : Event) : bool :=
  match e with EvTrainStep => true | _ => false end.

Definition is_next_batch (e : Event) : bool :=
  match e with EvNextBatch _ => true | _ => false end.

Definition is_valid_loss (e : Event) : bool :=
  match e with EvValidLoss => true | _ => false end.

Definition is_retraining (e : Event) : bool :=
  match e with
  | EvGetValueDataset _ _ => true
  | EvValueTrain _ _ => true
  | _ => false
  end.

Definition is_regeneration (e : Event) : bool :=
  match e with EvUpdatePolicyDataset _ => true | _ => false end.

Definition b2n (b : bool) : nat := if b then 1%nat else 0%nat.

(** A computation that returns normally from every state, after exactly
    [n] calls of the kind [p]. *)
Definition runs {Dataset World X : Type} (p : Event -> bool) (n : nat)
  (m : M Dataset World X) : Prop :=
  forall s, exists x s' log,
    m s = (Ok x, s', log) /\ count_events p log = n.

(** A kind of call that is made once or more per step, and not by a
    regeneration of the dataset or a retraining of the value trainers. *)
Definition per_step_kind (p : Event -> bool) : Prop :=
  forall e, is_regeneration e = true \/ is_retraining e = true -> p e = false.

(** The calls of kind [p] of one pass of the step loop: one batch drawn,
    one shock simulation, one optimiser update. *)
Definition step_events (p : Event -> bool) (batch_size : Z) : nat :=
  (b2n (p (EvNextBatch batch_size)) + b2n (p (EvSimulShocks batch_size))
   + b2n (p EvTrainStep))%nat.

Definition is_simul_shocks (e : Event) : bool :=
  match e with EvSimulShocks _ => true | _ => false end.

(** [n_epoch = num_step // freq_valid], and the steps of that many
    epochs. *)
Definition epochs_run (tcfg : TrainConfig) (num_step : Z) : nat :=
  Z.to_nat (num_step / freq_valid tcfg).

Definition steps_run (tcfg : TrainConfig) (num_step : Z) : nat :=
  (epochs_run tcfg num_step * Z.to_nat (freq_valid tcfg))%nat.

(** A computation that raises [e] from every state, after exactly [n]
    calls of the kind [p]. *)
Definition fails {Dataset World X : Type} (p : Event -> bool) (e : Exception)
  (n : nat) (m : M Dataset World X) : Prop :=
  forall s, exists s' log, m s = (Raise e, s', log) /\ count_events p log = n.

(** The [update_init] flag along a log: a regeneration of the policy
    dataset is called with [True] only after a retraining of the value
    trainers, and only if the configured flag [c] is [True]. *)
Definition is_get_valuedataset (e : Event) : bool :=
  match e with EvGetValueDataset _ _ => true | _ => false end.

Definition retrained_in (log : list Event) : bool :=
  existsb is_get_valuedataset log.

Fixpoint regenerations_ok (c retrained : bool) (log : list Event) : bool :=
  match log with
  | [] => true
  | EvUpdatePolicyDataset u :: l =>
      implb u (retrained && c) && regenerations_ok c retrained l
  | EvGetValueDataset _ _ :: l => regenerations_ok c true l
  | _ :: l => regenerations_ok c retrained l
  end.

(** Started after [r] retrainings-or-none, the computation keeps
    [regenerations_ok], and what it returns satisfies [Q] together with the
    retraining status at its end. *)
Definition tracks {Dataset World X : Type} (c r : bool)
  (Q : X -> bool -> Prop) (m : M Dataset World X) : Prop :=
  forall s,
    regenerations_ok c r (snd (m s)) = true /\
    (forall x, fst (fst (m s)) = Ok x -> Q x (r || retrained_in (snd (m s)))).

Definition flag_ok (c : bool) (update_init retrained : bool) : Prop :=
  implb update_init (retrained && c) = true.

(** The toy instance with other frequencies. *)
Definition example_tcfg_with (fv fu : Z) : TrainConfig :=
  {| valid_size := 4; freq_valid := fv; freq_update_v := fu;
     epoch_resample := 1; cfg_update_init := true;
     value_sampling := "nn"; lr_beg := 1 / 1000; lr_end := 1 / 10000 |}.

Definition example_train_with (fv fu : Z) (num_step batch_size : Z)
  : M Z unit unit :=
  train Z unit unit unit unit (example_tcfg_with fv fu) 1 tt
        (fun d => d) (fun _ d => (tt, (d + 1)%Z))
        (fun _ _ w => (tt, w)) (fun b _ => b) (fun _ w => (0%Z, w))
        (fun _ w => w) (fun _ w => (tt, w)) (fun _ _ w => w)
        num_step batch_size.

(** Two states that differ at most in feature 1 of [basic_s], the mean
    capital the caller supplies. *)
Definition same_but_supplied_mean {A : Type} (x y : FullState A) : Prop :=
  agt_s x = agt_s y /\
  map (map (firstn 1)) (basic_s x) = map (map (firstn 1)) (basic_s y) /\
  map (map (skipn 2)) (basic_s x) = map (map (skipn 2)) (basic_s y).

(** One path of two agents, holding 1 and 3. *)
Definition example_state (k_mean : R) : FullState R :=
  {| basic_s := [[[1; k_mean; 1; 1]; [3; k_mean; 1; 0]]];
     agt_s := [[[1]; [3]]] |}.

Definition example_cfg_without_mean : Config :=
  {| t_unroll := 2; sgm_scale := 1; opt_type := "game";
     use_log_k := false; full_state := false; n_fm := 0; n_gm := 0;
     cfg_n_agt := 2 |}.

(** Two value networks that differ, in either order. *)
Definition example_value_pair : list (FullState R -> Tensor3 R) :=
  [fun full_state_dict => zero_net (basic_s full_state_dict);
   fun full_state_dict => basic_s full_state_dict].

Definition example_value_pair_swapped : list (FullState R -> Tensor3 R) :=
  [fun full_state_dict => basic_s full_state_dict;
   fun full_state_dict => zero_net (basic_s full_state_dict)].

(** * Properties *)

(** ** Lists and tensors *)

Lemma nth_error_map2 {X Y Z : Type} (f : X -> Y -> Z) xs ys i :
  nth_error (map2 f xs ys) i =
  match nth_error xs i, nth_error ys i with
  | Some x, Some y => Some (f x y)
  | _, _ => None
  end.
Proof.
  revert ys i; induction xs as [|x xs IH]; intros ys i.
  - destruct i; reflexivity.
  - destruct ys as [|y ys].
    + destruct i; simpl; [reflexivity|].
      destruct (nth_error xs i); reflexivity.
    + destruct i; simpl; [reflexivity | apply IH].
Qed.

Lemma entry_map2 {X : Type} (f : X -> X -> X) (t u : Tensor2 X) i j :
  entry (map2 (map2 f) t u) i j =
  match entry t i j, entry u i j with
  | Some x, Some y => Some (f x y)
  | _, _ => None
  end.
Proof.
  unfold entry. rewrite nth_error_map2.
  destruct (nth_error t i) as [r|], (nth_error u i) as [r'|]; try reflexivity.
  - apply nth_error_map2.
  - destruct (nth_error r j); reflexivity.
Qed.

Lemma entry_map {X : Type} (f : X -> X) (t : Tensor2 X) i j :
  entry (map (map f) t) i j = option_map f (entry t i j).
Proof.
  unfold entry. rewrite nth_error_map.
  destruct (nth_error t i) as [r|]; simpl; [apply nth_error_map | reflexivity].
Qed.

Lemma map2_length {X Y Z : Type} (f : X -> Y -> Z) xs ys :
  length (map2 f xs ys) = Nat.min (length xs) (length ys).
Proof.
  revert ys; induction xs as [|x xs IH]; intros [|y ys]; simpl; auto.
Qed.

(** ** The sigmoid *)

Lemma Rsigmoid_range (x : R) : 0 < Rsigmoid x < 1.
Proof.
  unfold Rsigmoid.
  pose proof (exp_pos (- x)) as He.
  assert (Hd : 0 < 1 + exp (- x)) by lra.
  split.
  - apply Rdiv_lt_0_compat; lra.
  - apply (Rmult_lt_reg_r (1 + exp (- x))); [exact Hd|].
    unfold Rdiv. rewrite Rmult_assoc, Rinv_l; lra.
Qed.

(** The sigmoid gets below every positive bound and above every bound
    smaller than 1. *)
Lemma Rsigmoid_small (d : R) : 0 < d -> Rsigmoid (- / d) < d.
Proof.
  intros Hd. unfold Rsigmoid. rewrite Ropp_involutive.
  assert (Hi : 0 < / d) by (apply Rinv_0_lt_compat; exact Hd).
  pose proof (exp_ineq1 (/ d) ltac:(lra)) as He.
  assert (Hden : 0 < 1 + exp (/ d)) by lra.
  apply (Rmult_lt_reg_r (1 + exp (/ d))); [exact Hden|].
  unfold Rdiv. rewrite Rmult_assoc, Rinv_l by lra.
  assert (Hone : d * / d = 1) by (apply Rinv_r; lra).
  nra.
Qed.

Lemma Rsigmoid_opp (x : R) : Rsigmoid (- x) = 1 - Rsigmoid x.
Proof.
  unfold Rsigmoid. rewrite Ropp_involutive.
  pose proof (exp_pos x) as Hp. pose proof (exp_pos (- x)) as Hn.
  assert (Hprod : exp x * exp (- x) = 1).
  { rewrite <- exp_plus. replace (x + - x) with 0 by ring. apply exp_0. }
  apply (Rmult_eq_reg_r ((1 + exp x) * (1 + exp (- x)))); [|nra].
  field_simplify; [nra | lra | lra].
Qed.

Lemma Rsigmoid_large (d : R) : 0 < d -> 1 - d < Rsigmoid (/ d).
Proof.
  intros Hd. pose proof (Rsigmoid_small d Hd) as Hs.
  rewrite Rsigmoid_opp in Hs. lra.
Qed.

(** ** C7: the policy is a share *)

Lemma share3_sigmoid (c : R) (t : Tensor3 R) :
  share3 (map (map (map (fun y => sigmoid (const c * y)%S))) t).
Proof.
  unfold share3.
  apply Forall_map, Forall_forall; intros block _.
  apply Forall_map, Forall_forall; intros row _.
  apply Forall_map, Forall_forall; intros y _.
  apply Rsigmoid_range.
Qed.

Lemma policy_fn_share (cfg : Config) (model gm_model : Tensor3 R -> Tensor3 R)
  (input_data : FullState R) :
  match policy_fn cfg model gm_model input_data with
  | Some policy => share3 policy
  | None => True
  end.
Proof.
  unfold policy_fn.
  destruct (prepare_state cfg gm_model input_data); [|exact I].
  apply share3_sigmoid.
Qed.

(** ** Clipping *)

Lemma clip_lower (x lo hi : R) : lo <= clip_by_value x lo hi.
Proof. unfold clip_by_value; simpl. apply Rmax_r. Qed.

Lemma clip_upper_iff (x lo hi : R) : clip_by_value x lo hi <= hi <-> lo <= hi.
Proof.
  unfold clip_by_value; simpl. unfold Rmax, Rmin.
  destruct (Rle_dec x hi); destruct (Rle_dec _ lo); split; intros; lra.
Qed.

(** When the bounds cross, the lower bound wins. *)
Lemma clip_crossed (x lo hi : R) : hi < lo -> clip_by_value x lo hi = lo.
Proof.
  intros Hc. unfold clip_by_value; simpl. unfold Rmax, Rmin.
  destruct (Rle_dec x hi); destruct (Rle_dec _ lo); lra.
Qed.

Lemma EPSILON_pos : 0 < EPSILON.
Proof. unfold EPSILON; lra. Qed.

Lemma clipped_entry (c_share wealth : Tensor2 R) i j w c :
  entry wealth i j = Some w ->
  entry (clipped_csmp c_share wealth) i j = Some c ->
  exists sh, entry c_share i j = Some sh /\
             c = clip_by_value (sh * w) EPSILON (w - EPSILON).
Proof.
  intros Hw Hc. unfold clipped_csmp in Hc. rewrite entry_map2, Hw in Hc.
  destruct (entry c_share i j) as [sh|]; [|discriminate].
  exists sh; split; [reflexivity|]. inversion Hc; reflexivity.
Qed.

Lemma next_capital_entry (wealth csmp : Tensor2 R) i j w c :
  entry wealth i j = Some w -> entry csmp i j = Some c ->
  entry (next_capital wealth csmp) i j = Some (w - c).
Proof.
  intros Hw Hc. unfold next_capital. rewrite entry_map2, Hw, Hc. reflexivity.
Qed.

Lemma clipped_margin (c_share wealth : Tensor2 R) :
  margin wealth (clipped_csmp c_share wealth)
         (next_capital wealth (clipped_csmp c_share wealth)).
Proof.
  intros i j w c Hw Hc.
  split; [apply next_capital_entry; assumption|].
  destruct (clipped_entry _ _ _ _ _ _ Hw Hc) as (sh & _ & ->).
  pose proof (clip_lower (sh * w) EPSILON (w - EPSILON)) as Hlo.
  pose proof (clip_upper_iff (sh * w) EPSILON (w - EPSILON)) as Hup.
  repeat split; try tauto; intros; try lra; apply Hup; lra.
Qed.

Lemma clipped_interior (c_share wealth : Tensor2 R) :
  interior wealth (clipped_csmp c_share wealth)
           (next_capital wealth (clipped_csmp c_share wealth)).
Proof.
  intros i j w c Hw Hc.
  split; [apply next_capital_entry; assumption|].
  destruct (clipped_entry _ _ _ _ _ _ Hw Hc) as (sh & _ & ->).
  pose proof EPSILON_pos as He.
  pose proof (clip_lower (sh * w) EPSILON (w - EPSILON)) as Hlo.
  pose proof (clip_upper_iff (sh * w) EPSILON (w - EPSILON)) as Hup.
  destruct (Rle_dec EPSILON (w - EPSILON)) as [Hle|Hgt].
  - apply Hup in Hle. repeat split; intros; lra.
  - rewrite clip_crossed by lra. repeat split; intros; lra.
Qed.

Lemma JFV_csmp_entry (mparam : MParam) (c_share wealth : Tensor2 R) i j w c :
  entry wealth i j = Some w ->
  entry (JFV_csmp mparam c_share wealth) i j = Some c ->
  exists sh, entry c_share i j = Some sh /\
             c = clip_by_value (sh * w / dt mparam) EPSILON
                               (w / dt mparam - EPSILON).
Proof.
  intros Hw Hc. unfold JFV_csmp in Hc. rewrite entry_map2, Hw in Hc.
  destruct (entry c_share i j) as [sh|]; [|discriminate].
  exists sh; split; [reflexivity|]. inversion Hc; reflexivity.
Qed.

Lemma JFV_next_capital_entry (mparam : MParam) (wealth csmp : Tensor2 R)
  i j w c :
  entry wealth i j = Some w -> entry csmp i j = Some c ->
  entry (JFV_next_capital mparam wealth csmp) i j = Some (w - c * dt mparam).
Proof.
  intros Hw Hc. unfold JFV_next_capital.
  rewrite entry_map2, Hw, Hc. reflexivity.
Qed.

Lemma scaled_back (h w : R) : 0 < h -> w = w / h * h.
Proof. intros Hh. field. lra. Qed.

Lemma JFV_clipped_margin (mparam : MParam) (c_share wealth : Tensor2 R) :
  0 < dt mparam ->
  JFV_margin (dt mparam) wealth (JFV_csmp mparam c_share wealth)
    (JFV_next_capital mparam wealth (JFV_csmp mparam c_share wealth)).
Proof.
  intros Hdt i j w c Hw Hc.
  split; [apply JFV_next_capital_entry; assumption|].
  destruct (JFV_csmp_entry _ _ _ _ _ _ _ Hw Hc) as (sh & _ & ->).
  set (W := w / dt mparam).
  pose proof (clip_lower (sh * w / dt mparam) EPSILON (W - EPSILON)) as Hlo.
  pose proof (clip_upper_iff (sh * w / dt mparam) EPSILON (W - EPSILON)) as Hup.
  pose proof (scaled_back (dt mparam) w Hdt) as Hw'. fold W in Hw'.
  set (c := clip_by_value (sh * w / dt mparam) EPSILON (W - EPSILON)) in *.
  split; [exact Hlo|]. split.
  - split; intros; [lra | apply Hup; lra].
  - rewrite Hw' at 1. split; intros Hk.
    + assert (EPSILON <= W - c) by nra. lra.
    + assert (c <= W - EPSILON) by (apply Hup; lra). nra.
Qed.

Lemma JFV_clipped_interior (mparam : MParam) (c_share wealth : Tensor2 R) :
  0 < dt mparam ->
  JFV_interior (dt mparam) wealth (JFV_csmp mparam c_share wealth)
    (JFV_next_capital mparam wealth (JFV_csmp mparam c_share wealth)).
Proof.
  intros Hdt i j w c Hw Hc.
  split; [apply JFV_next_capital_entry; assumption|].
  destruct (JFV_csmp_entry _ _ _ _ _ _ _ Hw Hc) as (sh & _ & ->).
  set (W := w / dt mparam).
  pose proof EPSILON_pos as He.
  pose proof (clip_lower (sh * w / dt mparam) EPSILON (W - EPSILON)) as Hlo.
  pose proof (clip_upper_iff (sh * w / dt mparam) EPSILON (W - EPSILON)) as Hup.
  pose proof (scaled_back (dt mparam) w Hdt) as Hw'. fold W in Hw'.
  destruct (Rle_dec EPSILON (W - EPSILON)) as [Hle|Hgt].
  - apply Hup in Hle.
    set (c := clip_by_value (sh * w / dt mparam) EPSILON (W - EPSILON)) in *.
    split; [lra|]. split; [split; intros; lra|].
    rewrite Hw' at 1. split; intros; [lra | nra].
  - rewrite clip_crossed by lra.
    split; [lra|]. split; [split; intros; lra|].
    rewrite Hw' at 1. split; intros; [|nra].
    assert (0 <= (W - EPSILON) * dt mparam) by lra.
    destruct (Rle_dec EPSILON W); [assumption|]. nra.
Qed.

(** ** The non-terminal step of each recursion *)

Section Steps.
Context {A : Type} `{Scalar A}.
Variable mparam : MParam.
Variable cfg : Config.
Variable normalize_data : Key -> Tensor3 A -> Tensor3 A.
Variable unnormalize_data : Key -> Tensor2 A -> Tensor2 A.
Variable vtrainers : list (FullState A -> Tensor3 A).
Variable policy_fn : FullState A -> option (Tensor3 A).
Variable tape_gradient : nat -> InputData A -> Tensor2 A -> Tensor2 A.
Variable input_data : InputData A.
Variable t : nat.
Hypothesis Hnonterminal : is_terminal cfg t = false.

Lemma KS_body_step (s s' : LoopState A) :
  KS_body mparam cfg normalize_data unnormalize_data vtrainers policy_fn
          input_data (Some s) t = Some s' ->
  exists c_share,
    consumption_share cfg policy_fn
      (KS_full_state_dict mparam normalize_data t input_data (st_k_cross s))
    = Some c_share /\
    let wealth := KS_wealth mparam t input_data (st_k_cross s) in
    st_k_cross s' = next_capital wealth (clipped_csmp c_share wealth) /\
    st_N s' = st_N s.
Proof.
  unfold KS_body. rewrite Hnonterminal.
  destruct (consumption_share _ _ _) as [c_share|]; [|discriminate].
  intros E; inversion E; subst; clear E.
  exists c_share; simpl; auto.
Qed.

Lemma DavilaAS_body_step (s s' : LoopState A) :
  DavilaAS_body mparam cfg normalize_data unnormalize_data vtrainers
                policy_fn input_data (Some s) t = Some s' ->
  exists c_share,
    consumption_share cfg policy_fn
      (KS_full_state_dict mparam normalize_data t input_data (st_k_cross s))
    = Some c_share /\
    let wealth := DavilaAS_wealth mparam t input_data (st_k_cross s) in
    st_k_cross s' = next_capital wealth (clipped_csmp c_share wealth) /\
    st_N s' = st_N s.
Proof.
  unfold DavilaAS_body. rewrite Hnonterminal.
  destruct (consumption_share _ _ _) as [c_share|]; [|discriminate].
  intros E; inversion E; subst; clear E.
  exists c_share; simpl; auto.
Qed.

Lemma Davila_body_step (s s' : LoopState A) :
  Davila_body mparam cfg unnormalize_data vtrainers policy_fn tape_gradient
              input_data (Some s) t = Some s' ->
  exists c_share,
    consumption_share cfg policy_fn
      (Davila_full_state_dict mparam t input_data (st_k_cross s))
    = Some c_share /\
    let wealth := Davila_wealth mparam t input_data (st_k_cross s) in
    st_k_cross s' = next_capital wealth (Davila_csmp c_share wealth) /\
    st_N s' = st_N s.
Proof.
  unfold Davila_body. rewrite Hnonterminal.
  destruct (consumption_share _ _ _) as [c_share|]; [|discriminate].
  intros E; inversion E; subst; clear E.
  exists c_share; simpl; auto.
Qed.

Lemma JFV_body_step (s s' : LoopState A) :
  JFV_body mparam cfg normalize_data unnormalize_data vtrainers policy_fn
           input_data (Some s) t = Some s' ->
  exists c_share,
    consumption_share cfg policy_fn
      (JFV_full_state_dict mparam normalize_data t input_data
                           (st_k_cross s) (st_N s))
    = Some c_share /\
    let wealth := JFV_wealth mparam t input_data (st_k_cross s) (st_N s) in
    st_k_cross s' =
      JFV_next_capital mparam wealth (JFV_csmp mparam c_share wealth) /\
    st_N s' = JFV_next_N mparam t input_data (st_k_cross s) (st_N s).
Proof.
  unfold JFV_body. rewrite Hnonterminal.
  destruct (consumption_share _ _ _) as [c_share|]; [|discriminate].
  intros E; inversion E; subst; clear E.
  exists c_share; simpl; auto.
Qed.
End Steps.

(** ** The example economy *)

Lemma Rpower_base_one (y : R) : Rpower 1 y = 1.
Proof. unfold Rpower. rewrite ln_1, Rmult_0_r. apply exp_0. Qed.

(** The aggregate shock of the examples is 1: the good regime. *)
Ltac good_regime :=
  repeat match goal with
         | |- context [Rlt_dec ?a ?b] =>
             destruct (Rlt_dec a b); [exfalso; lra|]
         end.

(** Capital per unit of labour is 1 in the examples. *)
Ltac unit_base :=
  repeat match goal with
         | |- context [Rpower ?b ?e] =>
             lazymatch b with
             | 1 => fail
             | _ => replace b with 1 by (field || lra)
             end
         end;
  rewrite ?Rpower_base_one.

Lemma poor_wealth_entry :
  entry (KS_wealth example_mparam 0 poor_batch (k_cross poor_batch)) 0 0
  = Some (63 / 100000).
Proof. cbn. good_regime. unit_base. f_equal. lra. Qed.

Lemma poor_csmp_entry (c_share : Tensor2 R) (sh : R) :
  entry c_share 0 0 = Some sh ->
  entry (clipped_csmp c_share
           (KS_wealth example_mparam 0 poor_batch (k_cross poor_batch))) 0 0
  = Some EPSILON.
Proof.
  intros Hs. unfold clipped_csmp.
  rewrite entry_map2, poor_wealth_entry, Hs.
  f_equal. apply clip_crossed. cbn. unfold EPSILON; lra.
Qed.

(** ** C1: the margin of the clipped variants *)

(** C1, against the claim as stated.  In the KS recursion on [poor_batch],
    agent 0 has positive wealth 0.00063 at period 0; its clipped consumption
    is [EPSILON], above [wealth - EPSILON], and its next capital is
    negative. *)
Lemma margin_fails_for_small_wealth :
  exists s' c_share w c k1,
    example_KS_body "socialplanner" poor_batch (Some (init_state poor_batch)) 0
    = Some s' /\
    consumption_share (example_cfg "socialplanner")
      (example_policy "socialplanner")
      (KS_full_state_dict example_mparam identity_normalizer 0 poor_batch
                          (k_cross poor_batch)) = Some c_share /\
    entry (KS_wealth example_mparam 0 poor_batch (k_cross poor_batch)) 0 0
    = Some w /\
    entry (clipped_csmp c_share
             (KS_wealth example_mparam 0 poor_batch (k_cross poor_batch))) 0 0
    = Some c /\
    entry (st_k_cross s') 0 0 = Some k1 /\
    0 < w /\ ~ (c <= w - EPSILON) /\ ~ (EPSILON <= k1) /\ k1 < 0.
Proof.
  eexists. eexists.
  exists (63 / 100000), EPSILON, (63 / 100000 - EPSILON).
  split; [reflexivity|].
  split; [reflexivity|].
  split; [apply poor_wealth_entry|].
  split; [apply (poor_csmp_entry _ (Rsigmoid (1 * 0))); reflexivity|].
  split.
  { cbn [st_k_cross]. apply next_capital_entry; [apply poor_wealth_entry|].
    apply (poor_csmp_entry _ (Rsigmoid (1 * 0))); reflexivity. }
  unfold EPSILON. lra.
Qed.

(** ** Shares *)

Lemma traverse_Forall2 {X Y : Type} (f : X -> option Y) l ys :
  traverse f l = Some ys -> Forall2 (fun x y => f x = Some y) l ys.
Proof.
  revert ys; induction l as [|x l IH]; intros ys Ht; simpl in Ht.
  - inversion Ht; constructor.
  - destruct (f x) as [y|] eqn:Hx; [|discriminate].
    destruct (traverse f l) as [ys'|]; [|discriminate].
    inversion Ht; subst. constructor; auto.
Qed.

Lemma index0_share (p : Tensor3 R) (c : Tensor2 R) :
  share3 p -> index0 p = Some c -> share2 c.
Proof.
  unfold share3, share2, index0. intros Hp Hi.
  apply traverse_Forall2 in Hi.
  induction Hi as [|block row p' c' Hrow _ IH]; [constructor|].
  inversion Hp as [|? ? Hblock Hp']; subst.
  constructor; [|apply IH; exact Hp'].
  apply traverse_Forall2 in Hrow. clear IH Hp Hp'.
  induction Hrow as [|feat y b' r' Hhd _ IH]; [constructor|].
  inversion Hblock as [|? ? Hfeat Hb']; subst.
  constructor; [|apply IH; exact Hb'].
  destruct feat as [|y0 feat]; [discriminate|].
  inversion Hhd; subst. inversion Hfeat; assumption.
Qed.

(** In the forward pass the ["game"] mask changes nothing. *)
Lemma game_share_forward (c : Tensor2 R) : game_share c = c.
Proof.
  unfold game_share. induction c as [|row c IH]; [reflexivity|].
  cbn [map]. rewrite IH. f_equal.
  cbn [stop_gradient Scalar_R]. rewrite map_id. apply (firstn_skipn 1 row).
Qed.

Lemma masked_share_forward (cfg : Config) (c : Tensor2 R) :
  masked_share cfg c = c.
Proof.
  unfold masked_share. destruct (is_game cfg); [apply game_share_forward|].
  reflexivity.
Qed.

Lemma consumption_share_is_share (cfg cfg' : Config)
  (model gm_model : Tensor3 R -> Tensor3 R) (fsd : FullState R)
  (c_share : Tensor2 R) :
  consumption_share cfg (policy_fn cfg' model gm_model) fsd = Some c_share ->
  share2 c_share.
Proof.
  unfold consumption_share. intros Hc.
  pose proof (policy_fn_share cfg' model gm_model fsd) as Hp.
  destruct (policy_fn cfg' model gm_model fsd) as [p|]; [|discriminate].
  destruct (index0 p) as [c|] eqn:Hi; [|discriminate].
  inversion Hc; subst. rewrite masked_share_forward.
  eapply index0_share; eassumption.
Qed.

Lemma share2_entry (c : Tensor2 R) i j sh :
  share2 c -> entry c i j = Some sh -> 0 < sh < 1.
Proof.
  unfold share2, entry. intros Hc He.
  destruct (nth_error c i) as [row|] eqn:Hr; [|discriminate].
  apply nth_error_In in Hr, He.
  rewrite Forall_forall in Hc. specialize (Hc row Hr).
  rewrite Forall_forall in Hc. exact (Hc sh He).
Qed.

Lemma Davila_unclipped (c_share wealth : Tensor2 R) :
  Davila_interior c_share wealth (Davila_csmp c_share wealth)
    (next_capital wealth (Davila_csmp c_share wealth)).
Proof.
  intros i j w sh Hw Hs Hsh.
  assert (Hc : entry (Davila_csmp c_share wealth) i j = Some (sh * w)).
  { unfold Davila_csmp. rewrite entry_map2, Hs, Hw. reflexivity. }
  split; [exact Hc|]. split.
  - rewrite (next_capital_entry _ _ _ _ _ _ Hw Hc). f_equal. ring.
  - split; split; intros; nra.
Qed.

(** ** C2: consumption strictly inside (0, wealth) *)




(** ** Flat dual numbers *)

Lemma Forall_map2 {X Y Z : Type} (PX : X -> Prop) (PY : Y -> Prop)
  (PZ : Z -> Prop) (f : X -> Y -> Z) xs ys :
  (forall x y, PX x -> PY y -> PZ (f x y)) ->
  Forall PX xs -> Forall PY ys -> Forall PZ (map2 f xs ys).
Proof.
  intros Hf Hx; revert ys; induction Hx as [|x xs Hx _ IH]; intros ys Hy.
  - constructor.
  - destruct Hy as [|y ys Hy Hys]; simpl; constructor; auto.
Qed.

Lemma Forall_map3 {X Y Z W : Type} (PW : W -> Prop) (f : X -> Y -> Z -> W)
  xs ys zs :
  (forall x y z, PW (f x y z)) -> Forall PW (map3 f xs ys zs).
Proof.
  intros Hf; revert ys zs; induction xs as [|x xs IH]; intros ys zs.
  - constructor.
  - destruct ys, zs; simpl; constructor; auto.
Qed.

Lemma Forall_combine {X Y : Type} (PX : X -> Prop) (PY : Y -> Prop) xs ys :
  Forall PX xs -> Forall PY ys ->
  Forall (fun p => PX (fst p) /\ PY (snd p)) (combine xs ys).
Proof.
  intros Hx; revert ys; induction Hx as [|x xs Hx _ IH]; intros ys Hy.
  - constructor.
  - destruct Hy as [|y ys Hy Hys]; simpl; constructor; auto.
Qed.

Lemma Forall_repeat {X : Type} (P : X -> Prop) x n :
  P x -> Forall P (repeat x n).
Proof. intros Hx; induction n; simpl; constructor; auto. Qed.

Lemma Forall_nth {X : Type} (P : X -> Prop) l n d :
  Forall P l -> P d -> P (nth n l d).
Proof.
  intros Hl Hd; revert n; induction Hl; intros [|n]; simpl; auto.
Qed.

Ltac flat_arith :=
  unfold flat in *; cbn;
  repeat match goal with
         | H : tangent _ = 0 |- _ => rewrite H
         end;
  unfold Rdiv; ring.

Lemma flat_const (r : R) : flat (const r).
Proof. reflexivity. Qed.

Lemma flat_add (x y : Dual) : flat x -> flat y -> flat (x + y)%S.
Proof. intros; flat_arith. Qed.

Lemma flat_sub (x y : Dual) : flat x -> flat y -> flat (x - y)%S.
Proof. intros; flat_arith. Qed.

Lemma flat_mul (x y : Dual) : flat x -> flat y -> flat (x * y)%S.
Proof. intros; flat_arith. Qed.

Lemma flat_div (x y : Dual) : flat x -> flat y -> flat (x / y)%S.
Proof. intros; flat_arith. Qed.

Lemma flat_power (x y : Dual) : flat x -> flat y -> flat (x ** y)%S.
Proof. intros; flat_arith. Qed.

Lemma flat_log (x : Dual) : flat x -> flat (log x).
Proof. intros; flat_arith. Qed.

Lemma flat_opp (x : Dual) : flat x -> flat (opp x).
Proof. intros; flat_arith. Qed.

Lemma flat_stop_gradient (x : Dual) : flat (stop_gradient x).
Proof. reflexivity. Qed.

Lemma flat_minimum (x y : Dual) : flat x -> flat y -> flat (minimum x y).
Proof. intros; cbn; destruct (Rle_dec _ _); assumption. Qed.

Lemma flat_maximum (x y : Dual) : flat x -> flat y -> flat (maximum x y).
Proof. intros; cbn; destruct (Rge_dec _ _); assumption. Qed.

Lemma flat_clip (x lo hi : Dual) :
  flat x -> flat lo -> flat hi -> flat (clip_by_value x lo hi).
Proof.
  intros; unfold clip_by_value. apply flat_maximum; [apply flat_minimum|]; auto.
Qed.

Lemma flat_choice (P Q : Prop) (c : {P} + {Q}) (x y : Dual) :
  flat x -> flat y -> flat (if c then x else y).
Proof. destruct c; auto. Qed.

Create HintDb flat.
#[export] Hint Resolve flat_const flat_add flat_sub flat_mul flat_div
  flat_power flat_log flat_opp flat_stop_gradient flat_minimum flat_maximum
  flat_clip flat_choice : flat.

Lemma flat_fold_add (l : list Dual) (a : Dual) :
  flat1 l -> flat a -> flat (fold_left add l a).
Proof.
  intros Hl; revert a.
  induction Hl as [|x l Hx _ IH]; intros a Ha; cbn [fold_left]; [exact Ha|].
  apply IH. auto with flat.
Qed.

Lemma flat_tsum (l : list Dual) : flat1 l -> flat (tsum l).
Proof. intros Hl. apply flat_fold_add; [exact Hl | apply flat_const]. Qed.

Lemma flat_mean (l : list Dual) : flat1 l -> flat (mean l).
Proof. intros Hl; unfold mean. apply flat_div; [apply flat_tsum|]; auto with flat. Qed.

Lemma flat_concat (t : Tensor2 Dual) : flat2 t -> flat1 (concat t).
Proof.
  intros Ht; induction Ht; simpl; [constructor|].
  apply Forall_app; split; assumption.
Qed.

Lemma flat_reduce_mean (t : Tensor2 Dual) : flat2 t -> flat (reduce_mean t).
Proof. intros; apply flat_mean, flat_concat; assumption. Qed.

Lemma flat_reduce_mean_axis1 (t : Tensor2 Dual) :
  flat2 t -> flat1 (reduce_mean_axis1 t).
Proof.
  intros Ht; unfold reduce_mean_axis1, flat1.
  apply Forall_map. eapply Forall_impl; [|exact Ht].
  intros row Hrow; apply flat_mean; exact Hrow.
Qed.

Lemma flat_at_time (t : nat) (path : list Dual) :
  flat1 path -> flat (at_time t path).
Proof. intros; unfold at_time; apply Forall_nth; auto with flat. Qed.

Lemma flat_ashock_at (t : nat) (a : Tensor2 Dual) :
  flat2 a -> flat1 (ashock_at t a).
Proof.
  intros Ha; unfold ashock_at, flat1. apply Forall_map.
  eapply Forall_impl; [|exact Ha]. intros; apply flat_at_time; assumption.
Qed.

Lemma flat_ishock_at (t : nat) (i : Tensor3 Dual) :
  flat3 i -> flat2 (ishock_at t i).
Proof.
  intros Hi; unfold ishock_at, flat2. apply Forall_map.
  eapply Forall_impl; [|exact Hi]. intros block Hb.
  unfold flat1. apply Forall_map.
  eapply Forall_impl; [|exact Hb]. intros; apply flat_at_time; assumption.
Qed.

Lemma flat_expand_dims (t : Tensor2 Dual) : flat2 t -> flat3 (expand_dims t).
Proof.
  intros Ht; unfold expand_dims, flat3. apply Forall_map.
  eapply Forall_impl; [|exact Ht]. intros row Hr.
  unfold flat2. apply Forall_map.
  eapply Forall_impl; [|exact Hr]. intros x Hx. repeat constructor; exact Hx.
Qed.

Lemma flat_tile (col : Tensor1 Dual) (n : nat) : flat1 col -> flat2 (tile col n).
Proof.
  intros Hc; unfold tile, flat2. apply Forall_map.
  eapply Forall_impl; [|exact Hc]. intros; apply Forall_repeat; assumption.
Qed.

Lemma flat_concat_last2 (x y : Tensor3 Dual) :
  flat3 x -> flat3 y -> flat3 (concat_last2 x y).
Proof.
  intros Hx Hy; unfold concat_last2.
  apply (Forall_map2 flat2 flat2); [|exact Hx|exact Hy].
  intros b b' Hb Hb'.
  apply (Forall_map2 flat1 flat1); [|exact Hb|exact Hb'].
  intros f f' Hf Hf'. apply Forall_app; split; assumption.
Qed.

Lemma flat_concat_last (ts : list (Tensor3 Dual)) :
  Forall flat3 ts -> flat3 (concat_last ts).
Proof.
  intros Hts; destruct Hts as [|x rest Hx Hrest]; simpl; [constructor|].
  revert x Hx; induction Hrest as [|y rest Hy _ IH]; intros x Hx; simpl.
  - exact Hx.
  - apply IH, flat_concat_last2; assumption.
Qed.

Lemma flat_index0 (p : Tensor3 Dual) (c : Tensor2 Dual) :
  flat3 p -> index0 p = Some c -> flat2 c.
Proof.
  unfold index0. intros Hp Hi.
  apply traverse_Forall2 in Hi.
  induction Hi as [|block row p' c' Hrow _ IH]; [constructor|].
  inversion Hp as [|? ? Hblock Hp']; subst.
  constructor; [|apply IH; exact Hp'].
  apply traverse_Forall2 in Hrow. clear IH Hp Hp'.
  induction Hrow as [|feat y b' r' Hhd _ IH]; [constructor|].
  inversion Hblock as [|? ? Hfeat Hb']; subst.
  constructor; [|apply IH; exact Hb'].
  destruct feat as [|y0 feat]; [discriminate|].
  inversion Hhd; subst. inversion Hfeat; assumption.
Qed.

(** ** The recursions keep flat states flat under the ["game"] mask *)

Lemma fold_left_none {S T : Type} (body : option S -> T -> option S) ts :
  (forall t, body None t = None) -> fold_left body ts None = None.
Proof.
  intros Hb; induction ts as [|t ts IH]; simpl; [reflexivity|].
  rewrite Hb. exact IH.
Qed.

Lemma fold_left_invariant {S T : Type} (I : S -> Prop)
  (body : option S -> T -> option S) ts :
  (forall t, body None t = None) ->
  (forall s t s', I s -> body (Some s) t = Some s' -> I s') ->
  forall s s', I s -> fold_left body ts (Some s) = Some s' -> I s'.
Proof.
  intros Hnone Hstep; induction ts as [|t ts IH]; intros s s' Hs Hf; simpl in Hf.
  - inversion Hf; subst; exact Hs.
  - destruct (body (Some s) t) as [s1|] eqn:Hb.
    + eapply IH; [eapply Hstep; eassumption | exact Hf].
    + rewrite fold_left_none in Hf by exact Hnone. discriminate.
Qed.

Lemma flat_acc_map (f : Dual -> Dual) (x : Acc Dual) :
  (forall a, flat a -> flat (f a)) -> flat_acc x -> flat_acc (acc_map f x).
Proof.
  intros Hf; destruct x as [a|t]; simpl; [apply Hf|].
  intros Ht. unfold flat2. apply Forall_map.
  eapply Forall_impl; [|exact Ht]. intros row Hr.
  unfold flat1. apply Forall_map.
  eapply Forall_impl; [|exact Hr]. exact Hf.
Qed.

Lemma flat2_map (f : Dual -> Dual) (t : Tensor2 Dual) :
  (forall a, flat a -> flat (f a)) -> flat2 t -> flat2 (map (map f) t).
Proof. intros Hf Ht. exact (flat_acc_map f (Tn t) Hf Ht). Qed.

Lemma flat2_map2 (f : Dual -> Dual -> Dual) (t u : Tensor2 Dual) :
  (forall a b, flat a -> flat b -> flat (f a b)) ->
  flat2 t -> flat2 u -> flat2 (map2 (map2 f) t u).
Proof.
  intros Hf Ht Hu.
  apply (Forall_map2 flat1 flat1); [|exact Ht|exact Hu].
  intros r r' Hr Hr'. apply (Forall_map2 flat flat); assumption.
Qed.

Lemma flat_acc_add (x y : Acc Dual) :
  flat_acc x -> flat_acc y -> flat_acc (acc_add x y).
Proof.
  destruct x as [a|t], y as [b|u]; simpl; intros Hx Hy.
  - apply flat_add; assumption.
  - apply flat2_map; [|exact Hy]. intros; apply flat_add; assumption.
  - apply flat2_map; [|exact Hx]. intros; apply flat_add; assumption.
  - apply flat2_map2; [|exact Hx|exact Hy]. intros; apply flat_add; assumption.
Qed.

Lemma flat_acc_mean (x : Acc Dual) : flat_acc x -> flat (acc_mean x).
Proof. destruct x; simpl; [auto | apply flat_reduce_mean]. Qed.

Lemma flat_acc_mean_agent0 (x : Acc Dual) (m : Dual) :
  flat_acc x -> acc_mean_agent0 x = Some m -> flat m.
Proof.
  destruct x as [a|t]; simpl; [discriminate|]. intros Ht Hm.
  destruct (traverse (@hd_error Dual) t) as [col|] eqn:Hc; [|discriminate].
  inversion Hm; subst. apply flat_mean.
  apply traverse_Forall2 in Hc. clear Hm.
  induction Hc as [|row y t' c' Hhd _ IH]; [constructor|].
  inversion Ht as [|? ? Hrow Ht']; subst.
  constructor; [|apply IH; exact Ht'].
  destruct row as [|y0 row]; [discriminate|].
  inversion Hhd; subst. inversion Hrow; assumption.
Qed.

Lemma flat_game_share (p : Tensor3 Dual) (c : Tensor2 Dual) :
  Forall (fun block => match block with
                       | [] => True
                       | agent0 :: _ => flat1 agent0
                       end) p ->
  index0 p = Some c -> flat2 (game_share c).
Proof.
  unfold index0, game_share. intros Hp Hi.
  apply traverse_Forall2 in Hi.
  induction Hi as [|block row p' c' Hrow _ IH]; [constructor|].
  inversion Hp as [|? ? Hblock Hp']; subst.
  constructor; [|apply IH; exact Hp'].
  apply Forall_app; split.
  - destruct block as [|agent0 block]; simpl in Hrow.
    + inversion Hrow; subst. constructor.
    + destruct (hd_error agent0) as [y|] eqn:Hy; [|discriminate].
      destruct (traverse _ block); [|discriminate].
      inversion Hrow; subst. simpl. constructor; [|constructor].
      destruct agent0 as [|y0 agent0]; [discriminate|].
      inversion Hy; subst. inversion Hblock; assumption.
  - apply Forall_map, Forall_forall. intros; apply flat_stop_gradient.
Qed.

Section Gradient.
Variable mparam : MParam.
Variable cfg : Config.
Variable normalize_data : Key -> Tensor3 Dual -> Tensor3 Dual.
Variable unnormalize_data : Key -> Tensor2 Dual -> Tensor2 Dual.
Variable vtrainers : list (FullState Dual -> Tensor3 Dual).
Variable policy_fn : FullState Dual -> option (Tensor3 Dual).
Variable tape_gradient : nat -> InputData Dual -> Tensor2 Dual -> Tensor2 Dual.
Variable input_data : InputData Dual.

Hypothesis Hgame : is_game cfg = true.
Hypothesis Hnorm : flat_normalizer normalize_data.
Hypothesis Hunnorm : flat_unnormalizer unnormalize_data.
Hypothesis Hvalue : Forall flat_value_fn vtrainers.
Hypothesis Hpolicy : agent0_unperturbed policy_fn.
Hypothesis Hinput : flat_input input_data.

Lemma flat_i_tmp (t : nat) :
  flat3 (map (map (fun path => [at_time t path])) (ishock input_data)).
Proof.
  destruct Hinput as (_ & _ & _ & Hi).
  unfold flat3. apply Forall_map. eapply Forall_impl; [|exact Hi].
  intros block Hb. unfold flat2. apply Forall_map.
  eapply Forall_impl; [|exact Hb]. intros path Hpath.
  repeat constructor. apply flat_at_time; exact Hpath.
Qed.

Lemma flat_KS_full_state_dict (t : nat) (k : Tensor2 Dual) :
  flat2 k ->
  flat_state (KS_full_state_dict mparam normalize_data t input_data k).
Proof.
  intros Hk. destruct Hinput as (_ & _ & Ha & _).
  unfold KS_full_state_dict, flat_state; cbn [basic_s agt_s]. split.
  - apply Hnorm, flat_concat_last.
    repeat constructor.
    + apply flat_expand_dims; exact Hk.
    + apply flat_expand_dims, flat_tile, flat_reduce_mean_axis1; exact Hk.
    + apply flat_expand_dims, flat_tile, flat_ashock_at; exact Ha.
    + apply flat_i_tmp.
  - apply Hnorm, flat_expand_dims; exact Hk.
Qed.

Lemma flat_Davila_full_state_dict (t : nat) (k : Tensor2 Dual) :
  flat2 k -> flat_state (Davila_full_state_dict mparam t input_data k).
Proof.
  intros Hk.
  unfold Davila_full_state_dict, flat_state; cbn [basic_s agt_s]. split.
  - apply flat_concat_last.
    repeat constructor.
    + apply flat_expand_dims; exact Hk.
    + apply flat_expand_dims, flat_tile, flat_reduce_mean_axis1; exact Hk.
    + apply flat_i_tmp.
  - apply flat_expand_dims; exact Hk.
Qed.

Lemma flat_JFV_full_state_dict (t : nat) (k : Tensor2 Dual)
  (N_ : Tensor1 Dual) :
  flat2 k -> flat1 N_ ->
  flat_state (JFV_full_state_dict mparam normalize_data t input_data k N_).
Proof.
  intros Hk HN.
  unfold JFV_full_state_dict, flat_state; cbn [basic_s agt_s]. split.
  - apply Hnorm, flat_concat_last.
    repeat constructor.
    + apply flat_expand_dims; exact Hk.
    + apply flat_expand_dims, flat_tile, flat_reduce_mean_axis1; exact Hk.
    + apply flat_expand_dims, flat_tile; exact HN.
    + apply flat_i_tmp.
  - apply Hnorm, flat_expand_dims; exact Hk.
Qed.

Lemma flat_terminal_value (fsd : FullState Dual) (v : Acc Dual) :
  flat_state fsd ->
  terminal_value unnormalize_data vtrainers fsd = Some v -> flat_acc v.
Proof.
  intros Hs. unfold terminal_value.
  destruct (traverse _ vtrainers) as [vs|] eqn:Hv; [|discriminate].
  intros E; inversion E; subst; clear E.
  apply flat_acc_map; [intros a Ha; flat_arith|].
  assert (Hvs : Forall flat2 vs).
  { apply traverse_Forall2 in Hv. revert Hvalue.
    induction Hv as [|vf x vts xs Hx _ IH]; intros Hvf; [constructor|].
    inversion Hvf as [|? ? Hf Hvf']; subst.
    constructor; [|apply IH; exact Hvf'].
    eapply flat_index0; [|exact Hx]. apply Hf; exact Hs. }
  assert (Hfold : forall a, flat_acc a ->
            flat_acc (fold_left
                        (fun value x =>
                           acc_add value (Tn (unnormalize_data key_value x)))
                        vs a)).
  { clear Hv. induction Hvs as [|x xs Hx _ IH]; intros acc0 Hacc; simpl;
      [exact Hacc|].
    apply IH. apply flat_acc_add; [exact Hacc|]. apply Hunnorm; exact Hx. }
  apply Hfold. apply flat_const.
Qed.

Lemma flat_consumption_share (fsd : FullState Dual) (c : Tensor2 Dual) :
  flat_state fsd -> consumption_share cfg policy_fn fsd = Some c -> flat2 c.
Proof.
  intros Hs. unfold consumption_share, masked_share. rewrite Hgame.
  destruct (policy_fn fsd) as [p|] eqn:Hp; [|discriminate].
  destruct (index0 p) as [c0|] eqn:Hi; [|discriminate].
  intros E; inversion E; subst; clear E.
  eapply flat_game_share; [|exact Hi]. eapply Hpolicy; eassumption.
Qed.

Lemma flat_discounted (t : nat) (v : Acc Dual) :
  flat_acc v -> flat_acc (discounted mparam t v).
Proof.
  intros Hv; apply flat_acc_map; [|exact Hv].
  intros a Ha; apply flat_mul; [apply flat_const | exact Ha].
Qed.

Lemma flat_next_capital (w c : Tensor2 Dual) :
  flat2 w -> flat2 c -> flat2 (next_capital w c).
Proof. apply flat2_map2; intros; auto with flat. Qed.

Lemma flat_clipped_csmp (c w : Tensor2 Dual) :
  flat2 c -> flat2 w -> flat2 (clipped_csmp c w).
Proof. apply flat2_map2; intros; auto 10 with flat. Qed.

Lemma flat_endowment (i : Dual) : flat i -> flat (endowment mparam i).
Proof. intros; unfold endowment; auto 20 with flat. Qed.

Lemma flat_KS_wealth (t : nat) (k : Tensor2 Dual) :
  flat2 k -> flat2 (KS_wealth mparam t input_data k).
Proof.
  intros Hk. destruct Hinput as (_ & _ & Ha & Hi). unfold KS_wealth.
  eapply Forall_map2;
    [| apply Forall_combine;
       [apply flat_ashock_at; exact Ha
       | apply flat_reduce_mean_axis1; exact Hk]
     | apply Forall_combine;
       [exact Hk | apply flat_ishock_at; exact Hi]].
  intros [a km] [k_row i_row] [Ha' Hkm] [Hkr Hir]; cbn [fst snd] in *.
  unfold KS_wealth_path. cbv zeta.
  eapply Forall_map2; [|exact Hkr|exact Hir].
  intros x i Hx Hi'. auto 30 with flat.
Qed.

Lemma flat_DavilaAS_wealth (t : nat) (k : Tensor2 Dual) :
  flat2 k -> flat2 (DavilaAS_wealth mparam t input_data k).
Proof.
  intros Hk. destruct Hinput as (_ & _ & Ha & Hi). unfold DavilaAS_wealth.
  eapply Forall_map2;
    [| apply Forall_combine;
       [apply flat_ashock_at; exact Ha
       | apply flat_reduce_mean_axis1; exact Hk]
     | apply Forall_combine;
       [exact Hk | apply flat_ishock_at; exact Hi]].
  intros [a km] [k_row i_row] [Ha' Hkm] [Hkr Hir]; cbn [fst snd] in *.
  unfold DavilaAS_wealth_path. cbv zeta.
  eapply Forall_map2; [|exact Hkr|exact Hir].
  intros x i Hx Hi'. pose proof (flat_endowment i Hi'). auto 30 with flat.
Qed.

Lemma flat_Davila_wealth (t : nat) (k : Tensor2 Dual) :
  flat2 k -> flat2 (Davila_wealth mparam t input_data k).
Proof.
  intros Hk. destruct Hinput as (_ & _ & _ & Hi). unfold Davila_wealth.
  eapply Forall_map2;
    [| apply flat_reduce_mean_axis1; exact Hk
     | apply Forall_combine;
       [exact Hk | apply flat_ishock_at; exact Hi]].
  intros km [k_row i_row] Hkm [Hkr Hir]; cbn [fst snd] in *.
  unfold Davila_wealth_path. cbv zeta.
  eapply Forall_map2; [|exact Hkr|exact Hir].
  intros x i Hx Hi'. pose proof (flat_endowment i Hi'). auto 30 with flat.
Qed.

Lemma flat_JFV_wealth (t : nat) (k : Tensor2 Dual) (N_ : Tensor1 Dual) :
  flat2 k -> flat1 N_ -> flat2 (JFV_wealth mparam t input_data k N_).
Proof.
  intros Hk HN. destruct Hinput as (_ & _ & _ & Hi). unfold JFV_wealth.
  eapply Forall_map2;
    [| apply Forall_combine;
       [exact HN | apply flat_reduce_mean_axis1; exact Hk]
     | apply Forall_combine;
       [exact Hk | apply flat_ishock_at; exact Hi]].
  intros [n km] [k_row i_row] [Hn Hkm] [Hkr Hir]; cbn [fst snd] in *.
  unfold JFV_wealth_path. cbv zeta.
  eapply Forall_map2; [|exact Hkr|exact Hir].
  intros x i Hx Hi'. auto 30 with flat.
Qed.

Lemma flat_Davila_csmp (c w : Tensor2 Dual) :
  flat2 c -> flat2 w -> flat2 (Davila_csmp c w).
Proof. apply flat2_map2; intros; auto with flat. Qed.

Lemma flat_JFV_csmp (c w : Tensor2 Dual) :
  flat2 c -> flat2 w -> flat2 (JFV_csmp mparam c w).
Proof. apply flat2_map2; intros; auto 10 with flat. Qed.

Lemma flat_JFV_next_capital (w c : Tensor2 Dual) :
  flat2 w -> flat2 c -> flat2 (JFV_next_capital mparam w c).
Proof. apply flat2_map2; intros; auto 10 with flat. Qed.

Lemma flat_JFV_next_N (t : nat) (k : Tensor2 Dual) (N_ : Tensor1 Dual) :
  flat2 k -> flat1 N_ -> flat1 (JFV_next_N mparam t input_data k N_).
Proof.
  intros Hk HN. destruct Hinput as (_ & _ & Ha & _).
  pose proof (flat_ashock_at t _ Ha) as Hat.
  pose proof (flat_reduce_mean_axis1 _ Hk) as Hkm.
  unfold JFV_next_N.
  revert Hat HN Hkm.
  generalize (ashock_at t (ashock input_data)) (reduce_mean_axis1 k).
  intros a km Hat; revert N_ km.
  induction Hat as [|x a Hx _ IH]; intros N_ km HN Hkm; [constructor|].
  destruct HN as [|n N_ Hn HN]; [constructor|].
  destruct Hkm as [|m km Hm Hkm]; [constructor|].
  cbn [map3]. constructor; [|apply IH; assumption].
  unfold JFV_next_N_path. cbv zeta. auto 30 with flat.
Qed.

Lemma flat_utility (t : nat) (csmp : Tensor2 Dual) :
  flat2 csmp ->
  flat2 (map (map (fun c =>
                     (const (discount mparam t) * (const 1 - const 1 / c))%S))
             csmp).
Proof. apply flat2_map; intros; auto 10 with flat. Qed.

Lemma flat_log_utility (t : nat) (csmp : Tensor2 Dual) :
  flat2 csmp ->
  flat2 (map (map (fun c => (const (discount mparam t) * log c)%S)) csmp).
Proof. apply flat2_map; intros; auto 10 with flat. Qed.

Lemma KS_body_flat (s s' : LoopState Dual) (t : nat) :
  flat_loop s ->
  KS_body mparam cfg normalize_data unnormalize_data vtrainers policy_fn
          input_data (Some s) t = Some s' ->
  flat_loop s'.
Proof.
  intros (Hk & HN & Hu). unfold KS_body.
  pose proof (flat_KS_full_state_dict t _ Hk) as Hfs.
  destruct (is_terminal cfg t).
  - destruct (terminal_value _ _ _) as [v|] eqn:Hv; [|discriminate].
    intros E; inversion E; subst; clear E.
    repeat split; cbn; try assumption.
    apply flat_acc_add; [exact Hu|].
    apply flat_discounted. eapply flat_terminal_value; eassumption.
  - destruct (consumption_share _ _ _) as [c|] eqn:Hc; [|discriminate].
    intros E; inversion E; subst; clear E.
    pose proof (flat_consumption_share _ _ Hfs Hc) as Hcs.
    pose proof (flat_KS_wealth t _ Hk) as Hw.
    pose proof (flat_clipped_csmp _ _ Hcs Hw) as Hcsmp.
    repeat split; cbn [st_k_cross st_N st_util_sum]; try assumption.
    + apply flat_next_capital; assumption.
    + apply flat_acc_add; [exact Hu|]. apply flat_log_utility; exact Hcsmp.
Qed.

Lemma DavilaAS_body_flat (s s' : LoopState Dual) (t : nat) :
  flat_loop s ->
  DavilaAS_body mparam cfg normalize_data unnormalize_data vtrainers
                policy_fn input_data (Some s) t = Some s' ->
  flat_loop s'.
Proof.
  intros (Hk & HN & Hu). unfold DavilaAS_body.
  pose proof (flat_KS_full_state_dict t _ Hk) as Hfs.
  destruct (is_terminal cfg t).
  - destruct (terminal_value _ _ _) as [v|] eqn:Hv; [|discriminate].
    intros E; inversion E; subst; clear E.
    repeat split; cbn; try assumption.
    apply flat_acc_add; [exact Hu|].
    apply flat_discounted. eapply flat_terminal_value; eassumption.
  - destruct (consumption_share _ _ _) as [c|] eqn:Hc; [|discriminate].
    intros E; inversion E; subst; clear E.
    pose proof (flat_consumption_share _ _ Hfs Hc) as Hcs.
    pose proof (flat_DavilaAS_wealth t _ Hk) as Hw.
    pose proof (flat_clipped_csmp _ _ Hcs Hw) as Hcsmp.
    repeat split; cbn [st_k_cross st_N st_util_sum]; try assumption.
    + apply flat_next_capital; assumption.
    + apply flat_acc_add; [exact Hu|]. apply flat_utility; exact Hcsmp.
Qed.

Lemma Davila_body_flat (s s' : LoopState Dual) (t : nat) :
  flat_loop s ->
  Davila_body mparam cfg unnormalize_data vtrainers policy_fn tape_gradient
              input_data (Some s) t = Some s' ->
  flat_loop s'.
Proof.
  intros (Hk & HN & Hu). unfold Davila_body.
  pose proof (flat_Davila_full_state_dict t _ Hk) as Hfs.
  destruct (is_terminal cfg t).
  - destruct (terminal_value _ _ _) as [v|] eqn:Hv; [|discriminate].
    intros E; inversion E; subst; clear E.
    repeat split; cbn; try assumption.
    apply flat_acc_add; [exact Hu|].
    apply flat_discounted. eapply flat_terminal_value; eassumption.
  - destruct (consumption_share _ _ _) as [c|] eqn:Hc; [|discriminate].
    intros E; inversion E; subst; clear E.
    pose proof (flat_consumption_share _ _ Hfs Hc) as Hcs.
    pose proof (flat_Davila_wealth t _ Hk) as Hw.
    pose proof (flat_Davila_csmp _ _ Hcs Hw) as Hcsmp.
    repeat split; cbn [st_k_cross st_N st_util_sum]; try assumption.
    + apply flat_next_capital; assumption.
    + apply flat_acc_add; [exact Hu|]. apply flat_utility; exact Hcsmp.
Qed.

Lemma JFV_body_flat (s s' : LoopState Dual) (t : nat) :
  flat_loop s ->
  JFV_body mparam cfg normalize_data unnormalize_data vtrainers policy_fn
           input_data (Some s) t = Some s' ->
  flat_loop s'.
Proof.
  intros (Hk & HN & Hu). unfold JFV_body.
  pose proof (flat_JFV_full_state_dict t _ _ Hk HN) as Hfs.
  destruct (is_terminal cfg t).
  - destruct (terminal_value _ _ _) as [v|] eqn:Hv; [|discriminate].
    intros E; inversion E; subst; clear E.
    repeat split; cbn [st_k_cross st_N st_util_sum]; try assumption.
    apply flat_acc_add.
    + apply flat_acc_map; [|exact Hu].
      intros a Ha; flat_arith.
    + apply flat_discounted. eapply flat_terminal_value; eassumption.
  - destruct (consumption_share _ _ _) as [c|] eqn:Hc; [|discriminate].
    intros E; inversion E; subst; clear E.
    pose proof (flat_consumption_share _ _ Hfs Hc) as Hcs.
    pose proof (flat_JFV_wealth t _ _ Hk HN) as Hw.
    pose proof (flat_JFV_csmp _ _ Hcs Hw) as Hcsmp.
    repeat split; cbn [st_k_cross st_N st_util_sum].
    + apply flat_JFV_next_capital; assumption.
    + apply flat_JFV_next_N; assumption.
    + apply flat_acc_add; [exact Hu|]. apply flat_utility; exact Hcsmp.
Qed.

Lemma flat_init_state : flat_loop (init_state input_data).
Proof.
  destruct Hinput as (Hk & HN & _). repeat split; cbn; try assumption.
Qed.

Lemma flat_output (s : LoopState Dual) (gp : option Dual) (out : Output Dual) :
  flat_loop s -> output cfg s gp = Some out ->
  flat (m_util out) /\ flat (k_end out).
Proof.
  intros (Hk & _ & Hu). unfold output.
  destruct (is_socialplanner cfg).
  - intros E; inversion E; subst; clear E; cbn [m_util k_end]. split.
    + apply flat_opp, flat_acc_mean; exact Hu.
    + apply flat_reduce_mean; exact Hk.
  - rewrite Hgame.
    destruct (acc_mean_agent0 _) as [m|] eqn:Hm; [|discriminate].
    intros E; inversion E; subst; clear E; cbn [m_util k_end]. split.
    + apply flat_opp. eapply flat_acc_mean_agent0; eassumption.
    + apply flat_reduce_mean; exact Hk.
Qed.

(** With the shares of the other agents perturbed in any way, the
    objective of each variant does not move. *)
Lemma game_objective_flat :
  (forall out,
      KS_loss mparam cfg normalize_data unnormalize_data vtrainers policy_fn
              input_data = Some out -> tangent (m_util out) = 0) /\
  (forall out,
      Davila_loss mparam cfg unnormalize_data vtrainers policy_fn
                  tape_gradient input_data = Some out ->
      tangent (m_util out) = 0) /\
  (forall out,
      DavilaAS_loss mparam cfg normalize_data unnormalize_data vtrainers
                    policy_fn input_data = Some out ->
      tangent (m_util out) = 0) /\
  (forall out,
      JFV_loss mparam cfg normalize_data unnormalize_data vtrainers policy_fn
               input_data = Some out -> tangent (m_util out) = 0).
Proof.
  repeat split; intros out;
    unfold KS_loss, Davila_loss, DavilaAS_loss, JFV_loss;
    match goal with
    | |- context [fold_left ?body ?ts ?init] =>
        destruct (fold_left body ts init) as [s|] eqn:Hloop; [|discriminate]
    end;
    intros Hout;
    refine (proj1 (flat_output s _ out _ Hout));
    match type of Hloop with
    | fold_left ?body ?ts _ = _ =>
        apply (fold_left_invariant flat_loop body ts (fun _ => eq_refl))
          with (s := init_state input_data);
        [ | apply flat_init_state | exact Hloop ]
    end;
    intros s0 t0 s1 Hs0 Hb.
  - eapply KS_body_flat; eassumption.
  - eapply Davila_body_flat; eassumption.
  - eapply DavilaAS_body_flat; eassumption.
  - eapply JFV_body_flat; eassumption.
Qed.
End Gradient.

(** ** The derivative with respect to the share of agent 0 *)

Ltac dual_entries :=
  unfold lift;
  repeat match goal with
         | |- (_ :: _) = (_ :: _) => f_equal
         | |- mkDual _ _ = mkDual _ _ => f_equal
         end.

Ltac decide_clip :=
  repeat match goal with
         | |- context [Rle_dec ?a ?b] =>
             destruct (Rle_dec a b); [|exfalso; cbn in *; lra]
         | |- context [Rge_dec ?a ?b] =>
             destruct (Rge_dec a b); [|exfalso; cbn in *; lra]
         end.

Ltac eval_wealth := cbn; good_regime; cbn; dual_entries; unit_base; lra.

Lemma rich_KS_wealth_dual :
  KS_wealth example_mparam 0 rich_batch_dual (k_cross rich_batch_dual)
  = [[lift (19 / 10); lift (19 / 10)]].
Proof. eval_wealth. Qed.

Lemma rich_DavilaAS_wealth_dual :
  DavilaAS_wealth example_mparam 0 rich_batch_dual (k_cross rich_batch_dual)
  = [[lift (19 / 10); lift (19 / 10)]].
Proof. eval_wealth. Qed.

Lemma rich_Davila_wealth_dual :
  Davila_wealth example_mparam 0 rich_batch_dual (k_cross rich_batch_dual)
  = [[lift (19 / 10); lift (19 / 10)]].
Proof. eval_wealth. Qed.

Lemma JFV_wealth_dual :
  JFV_wealth example_mparam 0 jfv_batch_dual (k_cross jfv_batch_dual)
             (N jfv_batch_dual)
  = [[lift (577 / 1000); lift (577 / 1000)]].
Proof. eval_wealth. Qed.

Lemma rich_csmp_dual :
  clipped_csmp [[mkDual (1 / 2) 1; mkDual (1 / 2) 0]]
               [[lift (19 / 10); lift (19 / 10)]]
  = [[mkDual (19 / 20) (19 / 10); lift (19 / 20)]].
Proof. cbn. unfold EPSILON. decide_clip. dual_entries; lra. Qed.

Lemma rich_Davila_csmp_dual :
  Davila_csmp [[mkDual (1 / 2) 1; mkDual (1 / 2) 0]]
              [[lift (19 / 10); lift (19 / 10)]]
  = [[mkDual (19 / 20) (19 / 10); lift (19 / 20)]].
Proof. cbn. dual_entries; lra. Qed.

Lemma JFV_csmp_dual :
  JFV_csmp example_mparam [[mkDual (1 / 2) 1; mkDual (1 / 2) 0]]
           [[lift (577 / 1000); lift (577 / 1000)]]
  = [[mkDual (577 / 200) (577 / 100); lift (577 / 200)]].
Proof. cbn. unfold EPSILON. decide_clip. dual_entries; lra. Qed.

(** Period 0 is not terminal and period 1 is in the examples; the share of
    agent 0 carries the unit derivative, the other share is masked. *)
Ltac unroll_two body wealth_eq csmp_eq :=
  cbn [t_unroll example_cfg seq fold_left];
  unfold body at 2;
  replace (is_terminal (example_cfg "game") 0) with false by reflexivity;
  cbn [init_state st_k_cross st_N st_util_sum st_gp_loss];
  replace (consumption_share _ _ _)
    with (Some [[mkDual (1 / 2) 1; mkDual (1 / 2) 0]]) by reflexivity;
  rewrite wealth_eq, csmp_eq;
  unfold body;
  replace (is_terminal (example_cfg "game") 1) with true by reflexivity;
  eexists; split; [reflexivity|];
  cbn; lra.

Lemma KS_agent0_derivative :
  exists d,
    objective_derivative
      (KS_loss example_mparam (example_cfg "game") identity_normalizer
               identity_unnormalizer example_vtrainers_dual
               (perturbed_policy 0) rich_batch_dual) = Some d /\ d <> 0.
Proof.
  unfold objective_derivative, KS_loss.
  unroll_two (@KS_body) rich_KS_wealth_dual rich_csmp_dual.
Qed.

Lemma Davila_agent0_derivative :
  exists d,
    objective_derivative
      (Davila_loss example_mparam (example_cfg "game") identity_unnormalizer
                   example_vtrainers_dual (perturbed_policy 0)
                   (fun _ _ k => k) rich_batch_dual) = Some d /\ d <> 0.
Proof.
  unfold objective_derivative, Davila_loss.
  unroll_two (@Davila_body) rich_Davila_wealth_dual rich_Davila_csmp_dual.
Qed.

Lemma DavilaAS_agent0_derivative :
  exists d,
    objective_derivative
      (DavilaAS_loss example_mparam (example_cfg "game") identity_normalizer
                     identity_unnormalizer example_vtrainers_dual
                     (perturbed_policy 0) rich_batch_dual) = Some d /\ d <> 0.
Proof.
  unfold objective_derivative, DavilaAS_loss.
  unroll_two (@DavilaAS_body) rich_DavilaAS_wealth_dual rich_csmp_dual.
Qed.

Lemma JFV_agent0_derivative :
  exists d,
    objective_derivative
      (JFV_loss example_mparam (example_cfg "game") identity_normalizer
                identity_unnormalizer example_vtrainers_dual
                (perturbed_policy 0) jfv_batch_dual) = Some d /\ d <> 0.
Proof.
  unfold objective_derivative, JFV_loss.
  unroll_two (@JFV_body) JFV_wealth_dual JFV_csmp_dual.
Qed.

(** ** C3: the ["game"] objective moves with the share of agent 0 only *)

Lemma identity_normalizer_flat : flat_normalizer identity_normalizer.
Proof. intros key x Hx; exact Hx. Qed.

Lemma identity_unnormalizer_flat : flat_unnormalizer identity_unnormalizer.
Proof. intros key x Hx; exact Hx. Qed.

Lemma example_vtrainers_flat : Forall flat_value_fn example_vtrainers_dual.
Proof.
  constructor; [|constructor]. intros s _.
  unfold flat3. apply Forall_map, Forall_forall; intros block _.
  apply Forall_map, Forall_forall; intros row _.
  repeat constructor.
Qed.

Lemma perturbed_policy_spares_agent0 : agent0_unperturbed (perturbed_policy 1).
Proof.
  intros s p _ E. inversion E; subst; clear E.
  apply Forall_map, Forall_forall; intros block _.
  destruct block as [|row block]; simpl; [exact I|].
  repeat constructor.
Qed.

Lemma rich_batch_dual_flat : flat_input rich_batch_dual.
Proof. repeat split; repeat constructor. Qed.

(** C3.  Under the ["game"] objective, with every input a constant, the
    collaborators differentiated at fixed parameters, and the consumption
    shares of the agents of index 1 and more perturbed in any way (only the
    share of agent 0 is left alone): the derivative of [m_util] is exactly 0
    in the four variants.  With the share of agent 0 perturbed instead, the
    derivative of [m_util] is not 0 on the example economy, in the four
    variants. *)
Theorem game_gradient_flows_through_agent0_only :
  forall (mparam : MParam) (cfg : Config)
         (normalize_data : Key -> Tensor3 Dual -> Tensor3 Dual)
         (unnormalize_data : Key -> Tensor2 Dual -> Tensor2 Dual)
         (vtrainers : list (FullState Dual -> Tensor3 Dual))
         (policy_fn : FullState Dual -> option (Tensor3 Dual))
         (tape_gradient : nat -> InputData Dual -> Tensor2 Dual -> Tensor2 Dual)
         (input_data : InputData Dual),
    is_game cfg = true ->
    flat_normalizer normalize_data ->
    flat_unnormalizer unnormalize_data ->
    Forall flat_value_fn vtrainers ->
    agent0_unperturbed policy_fn ->
    flat_input input_data ->
    ((forall out,
         KS_loss mparam cfg normalize_data unnormalize_data vtrainers policy_fn
                 input_data = Some out -> tangent (m_util out) = 0) /\
     (forall out,
         Davila_loss mparam cfg unnormalize_data vtrainers policy_fn
                     tape_gradient input_data = Some out ->
         tangent (m_util out) = 0) /\
     (forall out,
         DavilaAS_loss mparam cfg normalize_data unnormalize_data vtrainers
                       policy_fn input_data = Some out ->
         tangent (m_util out) = 0) /\
     (forall out,
         JFV_loss mparam cfg normalize_data unnormalize_data vtrainers
                  policy_fn input_data = Some out ->
         tangent (m_util out) = 0))
    /\
    ((exists d,
         objective_derivative
           (KS_loss example_mparam (example_cfg "game") identity_normalizer
                    identity_unnormalizer example_vtrainers_dual
                    (perturbed_policy 0) rich_batch_dual) = Some d /\ d <> 0) /\
     (exists d,
         objective_derivative
           (Davila_loss example_mparam (example_cfg "game")
                        identity_unnormalizer example_vtrainers_dual
                        (perturbed_policy 0) (fun _ _ k => k) rich_batch_dual)
         = Some d /\ d <> 0) /\
     (exists d,
         objective_derivative
           (DavilaAS_loss example_mparam (example_cfg "game")
                          identity_normalizer identity_unnormalizer
                          example_vtrainers_dual (perturbed_policy 0)
                          rich_batch_dual) = Some d /\ d <> 0) /\
     (exists d,
         objective_derivative
           (JFV_loss example_mparam (example_cfg "game") identity_normalizer
                     identity_unnormalizer example_vtrainers_dual
                     (perturbed_policy 0) jfv_batch_dual) = Some d /\ d <> 0)).
Proof.
  intros mparam cfg normalize_data unnormalize_data vtrainers policy_fn
         tape_gradient input_data Hgame Hnorm Hunnorm Hvalue Hpolicy Hinput.
  split.
  - apply game_objective_flat; assumption.
  - repeat split.
    + apply KS_agent0_derivative.
    + apply Davila_agent0_derivative.
    + apply DavilaAS_agent0_derivative.
    + apply JFV_agent0_derivative.
Qed.

Lemma game_gradient_flows_through_agent0_only_witness :
  is_game (example_cfg "game") = true /\
  flat_normalizer identity_normalizer /\
  flat_unnormalizer identity_unnormalizer /\
  Forall flat_value_fn example_vtrainers_dual /\
  agent0_unperturbed (perturbed_policy 1) /\
  flat_input rich_batch_dual /\
  (exists out,
      KS_loss example_mparam (example_cfg "game") identity_normalizer
              identity_unnormalizer example_vtrainers_dual (perturbed_policy 1)
              rich_batch_dual = Some out) /\
  (forall out,
      KS_loss example_mparam (example_cfg "game") identity_normalizer
              identity_unnormalizer example_vtrainers_dual (perturbed_policy 1)
              rich_batch_dual = Some out -> tangent (m_util out) = 0).
Proof.
  split; [reflexivity|].
  split; [exact identity_normalizer_flat|].
  split; [exact identity_unnormalizer_flat|].
  split; [exact example_vtrainers_flat|].
  split; [exact perturbed_policy_spares_agent0|].
  split; [exact rich_batch_dual_flat|].
  split; [eexists; reflexivity|].
  exact (proj1 (proj1
           (game_gradient_flows_through_agent0_only example_mparam
              (example_cfg "game") identity_normalizer identity_unnormalizer
              example_vtrainers_dual (perturbed_policy 1) (fun _ _ k => k)
              rich_batch_dual eq_refl identity_normalizer_flat
              identity_unnormalizer_flat example_vtrainers_flat
              perturbed_policy_spares_agent0 rich_batch_dual_flat))).
Defined.

(** ** C4: the floor of N in the JFV recursion *)

Section Floor.
Variable mparam : MParam.
Variable cfg : Config.
Variable normalize_data : Key -> Tensor3 R -> Tensor3 R.
Variable unnormalize_data : Key -> Tensor2 R -> Tensor2 R.
Variable vtrainers : list (FullState R -> Tensor3 R).
Variable policy_fn : FullState R -> option (Tensor3 R).
Variable input_data : InputData R.

Local Abbreviation body :=
  (JFV_body mparam cfg normalize_data unnormalize_data vtrainers policy_fn
            input_data).

Lemma JFV_next_N_floor (t : nat) (k : Tensor2 R) (N_ : Tensor1 R) :
  Forall (fun n => 1 / 100 <= n) (JFV_next_N mparam t input_data k N_).
Proof.
  unfold JFV_next_N. apply Forall_map3. intros a n km.
  unfold JFV_next_N_path. cbn. apply Rmax_r.
Qed.

Lemma JFV_body_floors (s s' : LoopState R) (t : nat) :
  is_terminal cfg t = false -> body (Some s) t = Some s' -> floored s'.
Proof.
  intros Ht Hb.
  destruct (JFV_body_step _ _ _ _ _ _ _ _ Ht _ _ Hb) as (c & _ & _ & HN).
  unfold floored. rewrite HN. apply JFV_next_N_floor.
Qed.

Lemma JFV_body_keeps_floor (s s' : LoopState R) (t : nat) :
  floored s -> body (Some s) t = Some s' -> floored s'.
Proof.
  intros Hs Hb. destruct (is_terminal cfg t) eqn:Ht.
  - unfold JFV_body in Hb. rewrite Ht in Hb.
    destruct (terminal_value _ _ _); [|discriminate].
    inversion Hb; subst. exact Hs.
  - eapply JFV_body_floors; eassumption.
Qed.

Lemma JFV_loop_floor (ts : list nat) (s s' : LoopState R) :
  (exists t, In t ts /\ is_terminal cfg t = false) ->
  fold_left body ts (Some s) = Some s' -> floored s'.
Proof.
  revert s; induction ts as [|t ts IH]; intros s (t0 & Hin & Ht0) Hf.
  - destruct Hin.
  - cbn [fold_left] in Hf. destruct (body (Some s) t) as [s1|] eqn:Hb.
    2:{ rewrite fold_left_none in Hf by (intros; reflexivity).
        discriminate. }
    destruct (is_terminal cfg t) eqn:Ht.
    + destruct Hin as [->|Hin]; [congruence|].
      apply (IH s1); [exists t0; auto | exact Hf].
    + apply (fold_left_invariant floored body ts (fun _ => eq_refl)
               (fun a t1 b => JFV_body_keeps_floor a b t1) s1 s');
        [eapply JFV_body_floors; eassumption | exact Hf].
Qed.
End Floor.

(** C4.  Once the JFV recursion has run one non-terminal period, every
    entry of [N] is at least 0.01, and stays so: for any sequence of periods
    that contains a non-terminal one, whatever the batch, the shocks, the
    parameters and the collaborators. *)
Theorem JFV_N_never_below_floor :
  forall (mparam : MParam) (cfg : Config)
         (normalize_data : Key -> Tensor3 R -> Tensor3 R)
         (unnormalize_data : Key -> Tensor2 R -> Tensor2 R)
         (vtrainers : list (FullState R -> Tensor3 R))
         (policy_fn : FullState R -> option (Tensor3 R))
         (input_data : InputData R) (ts : list nat) (s s' : LoopState R),
    (exists t, In t ts /\ is_terminal cfg t = false) ->
    fold_left (JFV_body mparam cfg normalize_data unnormalize_data vtrainers
                        policy_fn input_data) ts (Some s) = Some s' ->
    Forall (fun n => 1 / 100 <= n) (st_N s').
Proof.
  intros mparam cfg normalize_data unnormalize_data vtrainers policy_fn
         input_data ts s s' Hnt Hf.
  exact (JFV_loop_floor mparam cfg normalize_data unnormalize_data vtrainers
           policy_fn input_data ts s s' Hnt Hf).
Qed.

Lemma JFV_N_never_below_floor_witness :
  (exists t, In t (seq 0 2) /\
             is_terminal (example_cfg "socialplanner") t = false) /\
  fold_left (example_JFV_body "socialplanner" rich_batch) (seq 0 2)
            (Some (init_state rich_batch))
  = Some (example_JFV_loop "socialplanner" rich_batch) /\
  Forall (fun n => 1 / 100 <= n)
         (st_N (example_JFV_loop "socialplanner" rich_batch)).
Proof.
  assert (Hnt : exists t, In t (seq 0 2) /\
                          is_terminal (example_cfg "socialplanner") t = false).
  { exists 0%nat. split; [left; reflexivity | reflexivity]. }
  split; [exact Hnt|]. split; [reflexivity|].
  exact (JFV_N_never_below_floor example_mparam (example_cfg "socialplanner")
           identity_normalizer identity_unnormalizer example_vtrainers
           (example_policy "socialplanner") rich_batch (seq 0 2)
           (init_state rich_batch)
           (example_JFV_loop "socialplanner" rich_batch) Hnt eq_refl).
Defined.

(** ** C6: the [dt]-scaled objective of the JFV recursion *)

Lemma map_map2 {X Y Z W : Type} (h : Z -> W) (f : X -> Y -> Z) xs ys :
  map h (map2 f xs ys) = map2 (fun x y => h (f x y)) xs ys.
Proof.
  revert ys; induction xs as [|x xs IH]; intros [|y ys]; simpl; try reflexivity.
  f_equal; apply IH.
Qed.

Lemma map2_map {X X' Y Y' Z : Type} (f : X' -> Y' -> Z) (g : X -> X')
  (k : Y -> Y') xs ys :
  map2 f (map g xs) (map k ys) = map2 (fun x y => f (g x) (k y)) xs ys.
Proof.
  revert ys; induction xs as [|x xs IH]; intros [|y ys]; simpl; try reflexivity.
  f_equal; apply IH.
Qed.

Lemma map2_ext {X Y Z : Type} (f g : X -> Y -> Z) xs ys :
  (forall x y, f x y = g x y) -> map2 f xs ys = map2 g xs ys.
Proof.
  intros Hfg; revert ys; induction xs as [|x xs IH]; intros [|y ys]; simpl;
    try reflexivity.
  rewrite Hfg; f_equal; apply IH.
Qed.

(** Scaling the running sum after adding a period's utilities is adding the
    scaled utilities to the scaled running sum. *)
Lemma scale_running_sum (h b : R) (u : Acc R) (csmp : Tensor2 R) :
  acc_map (fun x => x * h)
    (acc_add u (Tn (map (map (fun c => (const b * (const 1 - const 1 / c))%S))
                        csmp)))
  = acc_add (acc_map (fun x => x * h) u)
      (Tn (map (map (fun c => (const h * (const b * (const 1 - const 1 / c)))%S))
               csmp)).
Proof.
  destruct u as [a|t]; cbn [acc_add acc_map2 acc_map]; f_equal.
  - rewrite !map_map. apply map_ext; intros row.
    rewrite !map_map. apply map_ext; intros c. cbn. ring.
  - rewrite map_map2.
    rewrite <- (map_id t) at 1. rewrite !map2_map.
    apply map2_ext; intros r row.
    rewrite map_map2.
    rewrite <- (map_id r) at 1. rewrite !map2_map.
    apply map2_ext; intros x c. cbn. ring.
Qed.

Section Scaled.
Variable mparam : MParam.
Variable cfg : Config.
Variable normalize_data : Key -> Tensor3 R -> Tensor3 R.
Variable unnormalize_data : Key -> Tensor2 R -> Tensor2 R.
Variable vtrainers : list (FullState R -> Tensor3 R).
Variable policy_fn : FullState R -> option (Tensor3 R).
Variable input_data : InputData R.

Local Abbreviation body :=
  (JFV_body mparam cfg normalize_data unnormalize_data vtrainers policy_fn
            input_data).
Local Abbreviation body_scaled :=
  (JFV_body_scaled mparam cfg normalize_data unnormalize_data vtrainers
                   policy_fn input_data).

Lemma scaled_init :
  scaled_by (dt mparam) (init_state input_data) (init_state input_data).
Proof.
  repeat split. cbn. f_equal. ring.
Qed.

Lemma scaled_step (s ss : LoopState R) (t : nat) :
  is_terminal cfg t = false ->
  scaled_by (dt mparam) s ss ->
  together (dt mparam) (body (Some s) t) (body_scaled (Some ss) t).
Proof.
  intros Ht (Hk & HN & Hgp & Hu).
  unfold JFV_body, JFV_body_scaled.
  rewrite Ht, Hk, HN.
  destruct (consumption_share _ _ _) as [c|]; cbn [together]; [|exact I].
  repeat split; cbn [st_k_cross st_N st_gp_loss st_util_sum].
  - exact Hgp.
  - rewrite Hu. symmetry. apply scale_running_sum.
Qed.

Lemma scaled_prefix (ts : list nat) :
  (forall t, In t ts -> is_terminal cfg t = false) ->
  forall r rs, together (dt mparam) r rs ->
    together (dt mparam) (fold_left body ts r)
             (fold_left body_scaled ts rs).
Proof.
  induction ts as [|t ts IH]; intros Hts r rs Hr; [exact Hr|].
  cbn [fold_left]. apply IH; [intros; apply Hts; right; assumption|].
  destruct r as [s|], rs as [ss|]; cbn [together] in Hr; try contradiction.
  - apply scaled_step; [apply Hts; left; reflexivity | exact Hr].
  - exact I.
Qed.

Lemma scaled_terminal (s ss : LoopState R) (t : nat) :
  is_terminal cfg t = true ->
  scaled_by (dt mparam) s ss ->
  body (Some s) t = body_scaled (Some ss) t.
Proof.
  intros Ht (Hk & HN & Hgp & Hu).
  unfold JFV_body, JFV_body_scaled.
  rewrite Ht, Hk, HN, Hgp, Hu.
  destruct (terminal_value _ _ _) as [v|]; reflexivity.
Qed.

Lemma scaled_loop :
  (t_unroll cfg = 0%nat \/
   fold_left body (seq 0 (t_unroll cfg)) (Some (init_state input_data))
   = fold_left body_scaled (seq 0 (t_unroll cfg))
               (Some (init_state input_data))).
Proof.
  destruct (t_unroll cfg) as [|n] eqn:HT; [left; reflexivity|right].
  rewrite seq_S, !fold_left_app. cbn [Nat.add fold_left].
  assert (Hlast : is_terminal cfg n = true).
  { unfold is_terminal. rewrite HT. apply Z.eqb_eq. lia. }
  assert (Hpre : forall t, In t (seq 0 n) -> is_terminal cfg t = false).
  { intros t Hin. apply in_seq in Hin. unfold is_terminal. rewrite HT.
    apply Z.eqb_neq. lia. }
  pose proof (scaled_prefix (seq 0 n) Hpre (Some (init_state input_data))
                (Some (init_state input_data)) scaled_init) as Hrel.
  destruct (fold_left body (seq 0 n) _) as [s|],
           (fold_left body_scaled (seq 0 n) _) as [ss|];
    cbn [together] in Hrel; try contradiction; [|reflexivity].
  apply scaled_terminal; [exact Hlast | exact Hrel].
Qed.
End Scaled.


(** ** The sampler and the training loop: C5, C8, C9 *)

Lemma example_train_log :
  snd (example_train 4 2 (example_trainer 0))
  = [EvSimulShocks 4;
     EvNextBatch 2; EvSimulShocks 2; EvTrainStep;
     EvNextBatch 2; EvSimulShocks 2; EvUpdatePolicyDataset false; EvTrainStep;
     EvValidLoss;
     EvNextBatch 2; EvSimulShocks 2; EvTrainStep;
     EvNextBatch 2; EvSimulShocks 2; EvUpdatePolicyDataset false; EvTrainStep;
     EvGetValueDataset 3 true; EvValueTrain 3 0;
     EvValidLoss].
Proof.
  unfold example_train, train, bind.
  destruct (Req_dec_T (lr_beg example_tcfg) 0) as [Hz|Hnz];
    [cbn in Hz; lra|].
  vm_compute. reflexivity.
Qed.

Section TrainingProofs.
Variables Dataset Batch Shocks ValueDataset World : Type.
Variable tcfg : TrainConfig.
Variable num_vnet : nat.
Variable datadict : Batch.
Variable epoch_used : Dataset -> Z.
Variable next_batch : Z -> Dataset -> Batch * Dataset.
Variable simul_shocks : Z -> Batch -> World -> Shocks * World.
Variable with_shocks : Batch -> Shocks -> Batch.
Variable get_policydataset : bool -> World -> Dataset * World.
Variable apply_gradients : Batch -> World -> World.
Variable get_valuedataset : bool -> World -> ValueDataset * World.
Variable vtr_train : nat -> ValueDataset -> World -> World.

Local Abbreviation sampler_ :=
  (sampler Dataset Batch Shocks World tcfg epoch_used next_batch simul_shocks
           with_shocks get_policydataset).
Local Abbreviation train_ :=
  (train Dataset Batch Shocks ValueDataset World tcfg num_vnet datadict
         epoch_used next_batch simul_shocks with_shocks get_policydataset
         apply_gradients get_valuedataset vtr_train).

(** C5.  One call of [sampler]: it draws the batch, draws the shocks, and
    then reads the usage counter of the dataset the batch was drawn from.
    When that counter exceeds [epoch_resample] it calls
    [update_policydataset] exactly once, after the two draws and before it
    returns the batch; otherwise it does not call it. *)
Theorem sampler_regenerates_once_when_over_threshold :
  forall (batch_size : Z) (update_init : bool) (s : Trainer Dataset World),
    let drawn := next_batch batch_size (policy_ds s) in
    let shocks := simul_shocks batch_size (fst drawn) (world s) in
    let over := (epoch_used (snd drawn) >? epoch_resample tcfg)%Z in
    exists s' log,
      sampler_ batch_size update_init s
      = (Ok (with_shocks (fst drawn) (fst shocks)), s', log) /\
      log = EvNextBatch batch_size :: EvSimulShocks batch_size
            :: (if over then [EvUpdatePolicyDataset update_init] else []) /\
      count_updates log = (if over then 1 else 0)%nat /\
      policy_ds s' = (if over
                      then fst (get_policydataset update_init (snd shocks))
                      else snd drawn).
Proof.
  intros batch_size update_init s drawn shocks over.
  subst drawn shocks over.
  unfold sampler, update_policydataset, bind, get_ds, emit, set_ds, on_world,
    ret.
  cbn.
  destruct (next_batch batch_size (policy_ds s)) as [train_data d'].
  cbn.
  destruct (simul_shocks batch_size train_data (world s)) as [sh w].
  cbn.
  destruct (epoch_used d' >? epoch_resample tcfg)%Z; cbn.
  - destruct (get_policydataset update_init w) as [d2 w2]; cbn.
    eexists; eexists.
    split; [reflexivity|]. split; [reflexivity|]. split; reflexivity.
  - eexists; eexists.
    split; [reflexivity|]. split; [reflexivity|]. split; reflexivity.
Qed.

(** C8.  When [batch_size] exceeds [valid_size], [train] raises before it
    calls any collaborator: the trainer is unchanged and no shock is drawn,
    no batch sampled, no gradient step taken and no value trainer retrained.
    The exception is the failed assertion, unless the learning-rate schedule
    built just before already divided by a zero [lr_beg]. *)
Theorem train_checks_batch_size_first :
  forall (num_step batch_size : Z) (s : Trainer Dataset World),
    (valid_size tcfg < batch_size)%Z ->
    exists e,
      train_ num_step batch_size s = (Raise e, s, []) /\
      (lr_beg tcfg <> 0 -> e = AssertionError).
Proof.
  intros num_step batch_size s Hlt.
  apply Z.leb_gt in Hlt.
  unfold train, bind, raise, ret.
  destruct (Req_dec_T (lr_beg tcfg) 0) as [Hz|Hnz]; cbn.
  - exists ZeroDivisionError. split; [reflexivity | intros; contradiction].
  - rewrite Hlt; cbn. exists AssertionError. split; reflexivity.
Qed.

Section Logs.
Variable P : Event -> Prop.

Lemma logs_ret {X : Type} (x : X) : logs P (ret Dataset World x).
Proof. intros s; constructor. Qed.

Lemma logs_raise {X : Type} (e : Exception) : logs P (@raise Dataset World X e).
Proof. intros s; constructor. Qed.

Lemma logs_emit (e : Event) : P e -> logs P (emit Dataset World e).
Proof. intros He s; repeat constructor; exact He. Qed.

Lemma logs_get_ds : logs P (get_ds Dataset World).
Proof. intros s; constructor. Qed.

Lemma logs_set_ds (d : Dataset) : logs P (set_ds Dataset World d).
Proof. intros s; constructor. Qed.

Lemma logs_on_world {X : Type} (f : World -> X * World) :
  logs P (on_world Dataset World f).
Proof. intros s; unfold on_world. destruct (f (world s)); constructor. Qed.

Lemma logs_bind_post {X Y : Type} (Q : X -> Prop) (m : M Dataset World X)
  (k : X -> M Dataset World Y) :
  logs_post P Q m -> (forall x, Q x -> logs P (k x)) -> logs P (bind Dataset World m k).
Proof.
  intros Hm Hk s. unfold bind.
  destruct (Hm s) as [Hlog Hq].
  destruct (m s) as [[r s1] log1]. cbn [fst snd] in *.
  destruct r as [x|e]; [|exact Hlog].
  specialize (Hk x (Hq x eq_refl) s1).
  destruct (k x s1) as [[r2 s2] log2]. cbn [snd] in *.
  apply Forall_app; split; assumption.
Qed.

Lemma logs_bind {X Y : Type} (m : M Dataset World X)
  (k : X -> M Dataset World Y) :
  logs P m -> (forall x, logs P (k x)) -> logs P (bind Dataset World m k).
Proof.
  intros Hm Hk. apply (logs_bind_post (fun _ => True)).
  - intros s; split; [apply Hm | trivial].
  - intros x _; apply Hk.
Qed.

Lemma logs_for_each {X S : Type} (xs : list X)
  (body : X -> S -> M Dataset World S) :
  (forall x acc, logs P (body x acc)) ->
  forall acc, logs P (for_each Dataset World xs body acc).
Proof.
  intros Hb; induction xs as [|x xs IH]; intros acc; cbn [for_each].
  - apply logs_ret.
  - apply logs_bind; [apply Hb | exact IH].
Qed.
End Logs.

Local Abbreviation ok := (retrain_event_ok tcfg).

Lemma logs_sampler (batch_size : Z) (update_init : bool) :
  logs ok (sampler_ batch_size update_init).
Proof.
  unfold sampler.
  apply logs_bind; [apply logs_get_ds | intros d].
  apply logs_bind; [apply logs_emit; exact I | intros _].
  destruct (next_batch batch_size d) as [train_data d'].
  apply logs_bind; [apply logs_set_ds | intros _].
  apply logs_bind; [apply logs_emit; exact I | intros _].
  apply logs_bind; [apply logs_on_world | intros shocks].
  apply logs_bind; [apply logs_get_ds | intros d''].
  apply logs_bind; [|intros _; apply logs_ret].
  destruct (epoch_used d'' >? epoch_resample tcfg)%Z; [|apply logs_ret].
  unfold update_policydataset.
  apply logs_bind; [apply logs_emit; exact I | intros _].
  apply logs_bind; [apply logs_on_world | intros d3; apply logs_set_ds].
Qed.

Lemma retrain_due_post (n_step : Z) :
  logs_post ok
    (fun due => due = true -> ok (EvGetValueDataset n_step true))
    (retrain_due Dataset World tcfg n_step).
Proof.
  intros s. unfold retrain_due.
  destruct (String.eqb (value_sampling tcfg) "bchmk") eqn:Hv; cbn [negb].
  - split; [constructor|]. intros x E; inversion E; discriminate.
  - destruct (freq_update_v tcfg =? 0)%Z eqn:Hf.
    + split; [constructor|]. intros x E; inversion E.
    + split; [constructor|]. intros x E; inversion E; subst; clear E.
      intros Hdue. apply andb_true_iff in Hdue. destruct Hdue as [Hm Hp].
      apply Z.eqb_eq in Hm. apply Z.gtb_lt in Hp. apply Z.eqb_neq in Hf.
      cbn. repeat split; try assumption.
      destruct (Z_lt_le_dec (freq_update_v tcfg) 0) as [Hneg|Hpos]; [lia|].
      apply Z.mod_divide in Hm; [|exact Hf].
      apply Z.divide_pos_le in Hm; lia.
Qed.

Lemma logs_retrain_values (n_step : Z) :
  ok (EvGetValueDataset n_step true) ->
  logs ok (retrain_values Dataset ValueDataset World tcfg num_vnet
                          get_valuedataset vtr_train n_step).
Proof.
  intros Hok. unfold retrain_values.
  apply logs_bind; [apply logs_emit; exact Hok | intros _].
  apply logs_bind; [apply logs_on_world | intros vds].
  apply logs_bind; [|intros _; apply logs_ret].
  apply logs_for_each. intros vtr [].
  apply logs_bind; [apply logs_emit; exact Hok | intros _].
  apply logs_on_world.
Qed.

Lemma logs_inner_step (batch_size n step : Z) (update_init : bool) :
  logs ok (inner_step Dataset Batch Shocks ValueDataset World tcfg num_vnet
             epoch_used next_batch simul_shocks with_shocks get_policydataset
             apply_gradients get_valuedataset vtr_train
             batch_size n step update_init).
Proof.
  unfold inner_step.
  apply logs_bind; [apply logs_sampler | intros train_data].
  apply logs_bind.
  { unfold train_step.
    apply logs_bind; [apply logs_emit; exact I | intros _; apply logs_on_world]. }
  intros _.
  eapply logs_bind_post; [apply retrain_due_post|].
  intros due Hdue. destruct due; [|apply logs_ret].
  apply logs_retrain_values. apply Hdue. reflexivity.
Qed.

Lemma logs_train (num_step batch_size : Z) :
  logs ok (train_ num_step batch_size).
Proof.
  unfold train.
  apply logs_bind;
    [destruct (Req_dec_T (lr_beg tcfg) 0); [apply logs_raise | apply logs_ret]
    | intros _].
  apply logs_bind;
    [destruct (batch_size <=? valid_size tcfg)%Z;
     [apply logs_ret | apply logs_raise]
    | intros _].
  apply logs_bind; [apply logs_emit; exact I | intros _].
  apply logs_bind; [apply logs_on_world | intros _].
  apply logs_bind;
    [destruct (freq_valid tcfg =? 0)%Z; [apply logs_raise | apply logs_ret]
    | intros _].
  apply logs_bind; [|intros _; apply logs_ret].
  apply logs_for_each. intros n update_init. unfold epoch.
  apply logs_bind.
  - apply logs_for_each. intros step u. apply logs_inner_step.
  - intros u. apply logs_bind; [apply logs_emit; exact I | intros _; apply logs_ret].
Qed.

(** C9.  Every call [train] makes to retrain the value trainers is made
    at a global step [n_step > 0] that is a multiple of [freq_update_v], with
    a value sampling other than ["bchmk"]; so it is made at step
    [freq_update_v] at the earliest and never at step 0, although step 0 is
    a multiple of [freq_update_v] too.  In the toy instance, with
    [freq_update_v = 3], the retraining does happen at step 3. *)
Theorem retraining_never_at_step_zero :
  forall (num_step batch_size : Z) (s : Trainer Dataset World),
    let log := snd (train_ num_step batch_size s) in
    Forall (retrain_event_ok tcfg) log /\
    (forall u vtr, ~ In (EvGetValueDataset 0 u) log /\
                   ~ In (EvValueTrain 0 vtr) log) /\
    (0 mod freq_update_v tcfg = 0)%Z /\
    In (EvGetValueDataset (freq_update_v example_tcfg) true)
       (snd (example_train 4 2 (example_trainer 0))).
Proof.
  intros num_step batch_size s log.
  pose proof (logs_train num_step batch_size s) as Hlog. fold log in Hlog.
  split; [exact Hlog|]. split; [|split; [apply Zmod_0_l|]].
  - rewrite Forall_forall in Hlog.
    intros u vtr; split; intros Hin; apply Hlog in Hin; cbn in Hin; lia.
  - rewrite example_train_log. cbn. tauto.
Qed.
End TrainingProofs.


Lemma train_checks_batch_size_first_witness :
  (valid_size example_tcfg < 5)%Z /\
  exists e,
    example_train 4 5 (example_trainer 0) = (Raise e, example_trainer 0, []) /\
    (lr_beg example_tcfg <> 0 -> e = AssertionError).
Proof.
  split; [reflexivity|].
  exact (train_checks_batch_size_first Z unit unit unit unit example_tcfg 1 tt
           (fun d => d) (fun _ d => (tt, (d + 1)%Z))
           (fun _ _ w => (tt, w)) (fun b _ => b) (fun _ w => (0%Z, w))
           (fun _ w => w) (fun _ w => (tt, w)) (fun _ _ w => w)
           4%Z 5%Z (example_trainer 0) eq_refl).
Defined.

(** * Rounding: the claims read in binary64 *)

(** ** Powers of two *)

Lemma pow2_pos (e : Z) : 0 < pow2 e.
Proof. apply powerRZ_lt; lra. Qed.

Lemma pow2_add (a b : Z) : pow2 (a + b) = pow2 a * pow2 b.
Proof. apply powerRZ_add; lra. Qed.

Lemma pow2_0 : pow2 0 = 1.
Proof. reflexivity. Qed.

Lemma pow2_IZR (n : Z) : (0 <= n)%Z -> pow2 n = IZR (2 ^ n).
Proof.
  intros Hn. unfold pow2.
  rewrite <- (Z2Nat.id n Hn) at 1. rewrite <- pow_powerRZ.
  rewrite pow_IZR, Z2Nat.id by exact Hn. reflexivity.
Qed.

Lemma pow2_opp (n : Z) : pow2 (- n) = / pow2 n.
Proof. apply powerRZ_neg'. Qed.

Lemma pow2_sub (a b : Z) : pow2 (a - b) = pow2 a / pow2 b.
Proof. unfold Z.sub, Rdiv. rewrite pow2_add, pow2_opp. reflexivity. Qed.

Lemma pow2_ge_2 (n : Z) : (1 <= n)%Z -> 2 <= pow2 n.
Proof.
  intros Hn. rewrite pow2_IZR by lia. apply IZR_le.
  change 2%Z with (2 ^ 1)%Z at 1. apply Z.pow_le_mono_r; lia.
Qed.

Lemma pow2_lt (a b : Z) : (a < b)%Z -> pow2 a < pow2 b.
Proof.
  intros Hab. replace b with (a + (b - a))%Z by ring. rewrite pow2_add.
  pose proof (pow2_pos a). pose proof (pow2_ge_2 (b - a) ltac:(lia)). nra.
Qed.

Lemma pow2_le (a b : Z) : (a <= b)%Z -> pow2 a <= pow2 b.
Proof.
  intros Hab. destruct (Z.eq_dec a b) as [-> |Hne]; [lra|].
  apply Rlt_le, pow2_lt. lia.
Qed.

Lemma pow2_lt_inv (a b : Z) : pow2 a < pow2 b -> (a < b)%Z.
Proof.
  intros Hlt. destruct (Z_lt_le_dec a b) as [H|H]; [exact H|].
  apply pow2_le in H. lra.
Qed.

Lemma ln_2_pos : 0 < ln 2.
Proof. rewrite <- ln_1. apply ln_increasing; lra. Qed.

Lemma ln_pow2 (e : Z) : ln (pow2 e) = IZR e * ln 2.
Proof. unfold pow2. rewrite powerRZ_Rpower by lra. apply ln_Rpower. Qed.

(** ** The exponent *)

Lemma ilog2_unique (x : R) (e : Z) :
  pow2 e <= x < pow2 (e + 1) -> ilog2 x = e.
Proof.
  intros [Hlo Hhi]. pose proof (pow2_pos e) as Hp.
  assert (Hx : 0 < x) by lra.
  pose proof ln_2_pos as HL.
  assert (H1 : IZR e * ln 2 <= ln x).
  { rewrite <- ln_pow2. destruct Hlo as [Hlo|Hlo].
    - apply Rlt_le, ln_increasing; assumption.
    - rewrite Hlo. lra. }
  assert (H2 : ln x < (IZR e + 1) * ln 2).
  { rewrite <- plus_IZR, <- ln_pow2. apply ln_increasing; assumption. }
  unfold ilog2. symmetry. apply Int_part_spec.
  assert (Hq : ln x / ln 2 * ln 2 = ln x) by (field; lra).
  set (q := ln x / ln 2) in *.
  split.
  - apply (Rmult_lt_reg_r (ln 2)); [exact HL|]. lra.
  - apply (Rmult_le_reg_r (ln 2)); [exact HL|]. lra.
Qed.

Lemma ilog2_spec (x : R) :
  0 < x -> pow2 (ilog2 x) <= x < pow2 (ilog2 x + 1).
Proof.
  intros Hx. pose proof ln_2_pos as HL.
  destruct (base_Int_part (ln x / ln 2)) as [H1 H2].
  fold (ilog2 x) in H1, H2.
  assert (Hq : ln x / ln 2 * ln 2 = ln x) by (field; lra).
  set (q := ln x / ln 2) in *.
  assert (Hlo : IZR (ilog2 x) * ln 2 <= ln x) by nra.
  assert (Hhi : ln x < IZR (ilog2 x + 1) * ln 2) by (rewrite plus_IZR; nra).
  rewrite <- !ln_pow2 in *.
  split.
  - destruct (Rle_lt_dec (pow2 (ilog2 x)) x) as [H|H]; [exact H|].
    apply ln_increasing in H; [lra | exact Hx].
  - destruct (Rlt_le_dec x (pow2 (ilog2 x + 1))) as [H|H]; [exact H|].
    destruct H as [H|H].
    + apply ln_increasing in H; [lra | apply pow2_pos].
    + rewrite H in Hhi. lra.
Qed.

(** ** Rounding to the nearest integer, ties to even *)

Lemma round_half_even_bounds (y : R) :
  IZR (round_half_even y) - 1 / 2 <= y <= IZR (round_half_even y) + 1 / 2.
Proof.
  unfold round_half_even. destruct (base_Int_part y) as [H1 H2].
  destruct (Rlt_dec _ _) as [Ha|Ha]; [lra|].
  destruct (Rlt_dec _ _) as [Hb|Hb]; [rewrite plus_IZR; lra|].
  destruct (Z.even _); [lra | rewrite plus_IZR; lra].
Qed.

Lemma round_half_even_near (y : R) (m : Z) :
  - (1 / 2) < y - IZR m < 1 / 2 -> round_half_even y = m.
Proof.
  intros Hy. pose proof (round_half_even_bounds y) as Hb.
  assert (H1 : (round_half_even y - m < 1)%Z).
  { apply lt_IZR. rewrite minus_IZR. lra. }
  assert (H2 : (-1 < round_half_even y - m)%Z).
  { apply lt_IZR. rewrite minus_IZR. lra. }
  lia.
Qed.

Lemma round_half_even_IZR (m : Z) : round_half_even (IZR m) = m.
Proof. apply round_half_even_near. lra. Qed.

Lemma round_half_even_mono (y1 y2 : R) :
  y1 <= y2 -> (round_half_even y1 <= round_half_even y2)%Z.
Proof.
  intros Hy.
  destruct (Z_le_gt_dec (round_half_even y1) (round_half_even y2))
    as [H|H]; [exact H|exfalso].
  pose proof (round_half_even_bounds y1) as B1.
  pose proof (round_half_even_bounds y2) as B2.
  assert (H' : (round_half_even y2 + 1 <= round_half_even y1)%Z) by lia.
  apply IZR_le in H'. rewrite plus_IZR in H'.
  assert (E : y1 = y2) by lra.
  rewrite E in H. lia.
Qed.

Lemma round_half_even_pow2 (n : Z) :
  (0 <= n)%Z -> round_half_even (pow2 n) = (2 ^ n)%Z.
Proof. intros Hn. rewrite pow2_IZR by exact Hn. apply round_half_even_IZR. Qed.

(** ** Rounding to binary64 *)

Lemma exponent_normal (x : R) (e : Z) :
  pow2 e <= x < pow2 (e + 1) -> (emin <= e)%Z -> Z.max (ilog2 x) emin = e.
Proof. intros Hx He. rewrite (ilog2_unique x e Hx). lia. Qed.

Lemma exponent_subnormal (x : R) :
  0 < x < pow2 emin -> Z.max (ilog2 x) emin = emin.
Proof.
  intros [H0 H1]. destruct (ilog2_spec x H0) as [Hlo _].
  assert (H : pow2 (ilog2 x) < pow2 emin) by lra.
  apply pow2_lt_inv in H. lia.
Qed.

Lemma scaled_normal (x : R) (e : Z) :
  pow2 e <= x < pow2 (e + 1) ->
  pow2 52 <= x * pow2 (52 - e) < pow2 53.
Proof.
  intros [Hlo Hhi]. pose proof (pow2_pos (52 - e)) as Hp.
  assert (E1 : pow2 52 = pow2 e * pow2 (52 - e))
    by (rewrite <- pow2_add; f_equal; ring).
  assert (E2 : pow2 53 = pow2 (e + 1) * pow2 (52 - e))
    by (rewrite <- pow2_add; f_equal; ring).
  rewrite E1, E2. split; nra.
Qed.

Lemma rnd64_pos_nonneg (x : R) : 0 < x -> 0 <= rnd64_pos x.
Proof.
  intros Hx. unfold rnd64_pos.
  set (e := Z.max (ilog2 x) emin).
  pose proof (pow2_pos (52 - e)) as H1. pose proof (pow2_pos (e - 52)) as H2.
  assert (H : (0 <= round_half_even (x * pow2 (52 - e)))%Z).
  { rewrite <- (round_half_even_IZR 0). apply round_half_even_mono. nra. }
  apply IZR_le in H. nra.
Qed.

Lemma rnd64_pos_upper (x : R) :
  0 < x -> rnd64_pos x <= pow2 (Z.max (ilog2 x) emin + 1).
Proof.
  intros Hx. unfold rnd64_pos.
  set (e := Z.max (ilog2 x) emin).
  destruct (ilog2_spec x Hx) as [_ Hhi].
  assert (Hle : pow2 (ilog2 x + 1) <= pow2 (e + 1)) by (apply pow2_le; lia).
  pose proof (pow2_pos (52 - e)) as H1. pose proof (pow2_pos (e - 52)) as H2.
  assert (Hs : x * pow2 (52 - e) <= pow2 53).
  { replace 53%Z with (e + 1 + (52 - e))%Z by ring. rewrite pow2_add. nra. }
  assert (H : (round_half_even (x * pow2 (52 - e)) <= 2 ^ 53)%Z).
  { rewrite <- (round_half_even_pow2 53) by lia.
    apply round_half_even_mono, Hs. }
  apply IZR_le in H. rewrite <- pow2_IZR in H by lia.
  replace (e + 1)%Z with (53 + (e - 52))%Z by ring. rewrite pow2_add. nra.
Qed.

Lemma rnd64_pos_lower (x : R) :
  0 < x -> (emin <= ilog2 x)%Z -> pow2 (ilog2 x) <= rnd64_pos x.
Proof.
  intros Hx He. unfold rnd64_pos. rewrite Z.max_l by lia.
  set (e := ilog2 x).
  destruct (scaled_normal x e (ilog2_spec x Hx)) as [Hs _].
  pose proof (pow2_pos (e - 52)) as H2.
  assert (H : (2 ^ 52 <= round_half_even (x * pow2 (52 - e)))%Z).
  { rewrite <- (round_half_even_pow2 52) by lia.
    apply round_half_even_mono, Hs. }
  apply IZR_le in H. rewrite <- pow2_IZR in H by lia.
  replace e with (52 + (e - 52))%Z at 1 by ring. rewrite pow2_add. nra.
Qed.

Lemma ilog2_mono (x y : R) : 0 < x <= y -> (ilog2 x <= ilog2 y)%Z.
Proof.
  intros [Hx Hxy].
  destruct (ilog2_spec x Hx) as [Hlo _].
  destruct (ilog2_spec y ltac:(lra)) as [_ Hhi].
  assert (H : pow2 (ilog2 x) < pow2 (ilog2 y + 1)) by lra.
  apply pow2_lt_inv in H. lia.
Qed.

Lemma rnd64_pos_mono (x y : R) :
  0 < x <= y -> rnd64_pos x <= rnd64_pos y.
Proof.
  intros [Hx Hxy]. assert (Hy : 0 < y) by lra.
  pose proof (ilog2_mono x y (conj Hx Hxy)) as Hexp.
  destruct (Z.eq_dec (Z.max (ilog2 x) emin) (Z.max (ilog2 y) emin))
    as [E|Hne].
  - unfold rnd64_pos. rewrite E. set (e := Z.max (ilog2 y) emin).
    pose proof (pow2_pos (52 - e)) as H1. pose proof (pow2_pos (e - 52)) as H2.
    assert (H : (round_half_even (x * pow2 (52 - e))
                 <= round_half_even (y * pow2 (52 - e)))%Z).
    { apply round_half_even_mono. nra. }
    apply IZR_le in H. nra.
  - assert (Hlt : (Z.max (ilog2 x) emin < ilog2 y)%Z) by lia.
    pose proof (rnd64_pos_upper x Hx) as Hu.
    pose proof (rnd64_pos_lower y Hy ltac:(lia)) as Hl.
    assert (Hp : pow2 (Z.max (ilog2 x) emin + 1) <= pow2 (ilog2 y))
      by (apply pow2_le; lia).
    lra.
Qed.

Lemma rnd64_0 : rnd64 0 = 0.
Proof.
  unfold rnd64. destruct (Rlt_dec 0 0); [lra|].
  destruct (Rlt_dec 0 0); [lra | reflexivity].
Qed.

Lemma rnd64_positive (x : R) : 0 < x -> rnd64 x = rnd64_pos x.
Proof. intros Hx. unfold rnd64. destruct (Rlt_dec 0 x); [reflexivity | lra]. Qed.

Lemma rnd64_negative (x : R) : x < 0 -> rnd64 x = - rnd64_pos (- x).
Proof.
  intros Hx. unfold rnd64. destruct (Rlt_dec 0 x); [lra|].
  destruct (Rlt_dec x 0); [reflexivity | lra].
Qed.

Lemma rnd64_opp (x : R) : rnd64 (- x) = - rnd64 x.
Proof.
  destruct (Rtotal_order x 0) as [H|[H|H]].
  - rewrite (rnd64_positive (- x)) by lra. rewrite (rnd64_negative x H). ring.
  - subst. rewrite Ropp_0, rnd64_0. ring.
  - rewrite (rnd64_negative (- x)) by lra. rewrite (rnd64_positive x) by lra.
    rewrite Ropp_involutive. reflexivity.
Qed.

Lemma rnd64_nonneg (x : R) : 0 <= x -> 0 <= rnd64 x.
Proof.
  intros [Hx|Hx].
  - rewrite rnd64_positive by exact Hx. apply rnd64_pos_nonneg, Hx.
  - subst. rewrite rnd64_0. lra.
Qed.

Lemma rnd64_nonpos (x : R) : x <= 0 -> rnd64 x <= 0.
Proof.
  intros Hx. pose proof (rnd64_nonneg (- x) ltac:(lra)) as H.
  rewrite rnd64_opp in H. lra.
Qed.

(** Rounding keeps the order. *)
Lemma rnd64_mono (x y : R) : x <= y -> rnd64 x <= rnd64 y.
Proof.
  intros Hxy.
  destruct (Rlt_le_dec 0 x) as [Hx|Hx].
  - rewrite !rnd64_positive by lra. apply rnd64_pos_mono. lra.
  - destruct (Rle_lt_dec 0 y) as [Hy|Hy].
    + pose proof (rnd64_nonpos x Hx). pose proof (rnd64_nonneg y Hy). lra.
    + rewrite !rnd64_negative by lra.
      pose proof (rnd64_pos_mono (- y) (- x) ltac:(lra)). lra.
Qed.

(** A real within half a unit in the last place of [m * 2^e], in the
    binade of that number, rounds to it. *)
Lemma rnd64_eval (x : R) (m e : Z) :
  (emin <= e + 52)%Z ->
  pow2 (e + 52) <= x < pow2 (e + 53) ->
  - (1 / 2) < x * pow2 (- e) - IZR m < 1 / 2 ->
  rnd64 x = IZR m * pow2 e.
Proof.
  intros He Hx Hm. pose proof (pow2_pos (e + 52)) as Hp.
  rewrite rnd64_positive by lra. unfold rnd64_pos.
  replace (e + 53)%Z with (e + 52 + 1)%Z in Hx by ring.
  rewrite (exponent_normal x (e + 52) Hx He).
  replace (52 - (e + 52))%Z with (- e)%Z by ring.
  replace (e + 52 - 52)%Z with e by ring.
  rewrite (round_half_even_near _ m Hm). reflexivity.
Qed.

Lemma pow2_cancel (e : Z) : pow2 e * pow2 (- e) = 1.
Proof. rewrite <- pow2_add. replace (e + - e)%Z with 0%Z by ring. reflexivity. Qed.

(** The binary64 numbers with a full mantissa are fixed. *)
Lemma rnd64_fixed (m e : Z) :
  (2 ^ 52 <= m < 2 ^ 53)%Z -> (emin <= e + 52)%Z ->
  rnd64 (IZR m * pow2 e) = IZR m * pow2 e.
Proof.
  intros [Hlo Hhi] He. pose proof (pow2_pos e) as Hp.
  apply IZR_le in Hlo. apply IZR_lt in Hhi.
  rewrite <- !pow2_IZR in * by lia.
  apply rnd64_eval; [exact He | |].
  - rewrite (Z.add_comm e 52), (Z.add_comm e 53), !pow2_add. split; nra.
  - rewrite Rmult_assoc, pow2_cancel. lra.
Qed.

Lemma rnd64_on_grid (m k : Z) :
  (0 <= m <= 2 ^ 53)%Z -> (emin - 52 <= k)%Z ->
  (2 ^ 52 <= m)%Z \/ k = (emin - 52)%Z ->
  rnd64 (IZR m * pow2 k) = IZR m * pow2 k.
Proof.
  intros Hm Hk Hcase.
  destruct (Z.eq_dec m 0) as [-> |Hm0].
  { rewrite Rmult_0_l. apply rnd64_0. }
  destruct (Z.eq_dec m (2 ^ 53)) as [-> |Hm53].
  { replace (IZR (2 ^ 53) * pow2 k) with (IZR (2 ^ 52) * pow2 (k + 1)).
    - apply rnd64_fixed; [split; [lia|] | lia].
      apply Z.pow_lt_mono_r; lia.
    - rewrite <- !pow2_IZR by lia. rewrite <- !pow2_add. f_equal. ring. }
  destruct (Z_lt_le_dec m (2 ^ 52)) as [Hsub|Hnorm].
  - destruct Hcase as [Hc| ->]; [lia|].
    pose proof (pow2_pos (emin - 52)) as Hp.
    assert (Hmpos : 0 < IZR m) by (apply IZR_lt; lia).
    assert (Hx : 0 < IZR m * pow2 (emin - 52) < pow2 emin).
    { split; [nra|]. apply IZR_lt in Hsub. rewrite <- pow2_IZR in Hsub by lia.
      replace emin with (52 + (emin - 52))%Z at 2 by ring.
      rewrite pow2_add. nra. }
    rewrite rnd64_positive by lra. unfold rnd64_pos.
    rewrite (exponent_subnormal _ Hx).
    replace (52 - emin)%Z with (- (emin - 52))%Z by ring.
    rewrite Rmult_assoc, pow2_cancel, Rmult_1_r, round_half_even_IZR.
    reflexivity.
  - apply rnd64_fixed; lia.
Qed.

(** Rounding twice is rounding once: [rnd64 x] is a binary64 number. *)
Lemma rnd64_idem (x : R) : rnd64 (rnd64 x) = rnd64 x.
Proof.
  assert (Hpos : forall y, 0 < y -> rnd64 (rnd64_pos y) = rnd64_pos y).
  { intros y Hy. unfold rnd64_pos.
    set (e := Z.max (ilog2 y) emin).
    pose proof (pow2_pos (52 - e)) as H1.
    assert (H0 : (0 <= round_half_even (y * pow2 (52 - e)))%Z).
    { rewrite <- (round_half_even_IZR 0). apply round_half_even_mono. nra. }
    assert (Hup : (round_half_even (y * pow2 (52 - e)) <= 2 ^ 53)%Z).
    { rewrite <- (round_half_even_pow2 53) by lia.
      apply round_half_even_mono.
      destruct (ilog2_spec y Hy) as [_ Hhi].
      assert (Hle : pow2 (ilog2 y + 1) <= pow2 (e + 1))
        by (apply pow2_le; subst e; lia).
      replace 53%Z with (e + 1 + (52 - e))%Z by ring. rewrite pow2_add. nra. }
    apply rnd64_on_grid; [lia | subst e; lia |].
    destruct (Z_le_gt_dec emin (ilog2 y)) as [Hn|Hs].
    - left. subst e. rewrite Z.max_l by lia.
      rewrite <- (round_half_even_pow2 52) by lia.
      apply round_half_even_mono.
      apply (scaled_normal y (ilog2 y) (ilog2_spec y Hy)).
    - right. subst e. rewrite Z.max_r by lia. reflexivity. }
  destruct (Rtotal_order x 0) as [H|[H|H]].
  - rewrite (rnd64_negative x H), rnd64_opp, Hpos by lra. reflexivity.
  - subst. rewrite !rnd64_0. reflexivity.
  - rewrite (rnd64_positive x H). apply Hpos, H.
Qed.

Lemma rnd64_1 : rnd64 1 = 1.
Proof.
  replace 1 with (IZR (2 ^ 52) * pow2 (-52)) at 1 2.
  - apply rnd64_fixed; [split; [lia|] | unfold emin; lia].
    apply Z.pow_lt_mono_r; lia.
  - rewrite <- pow2_IZR by lia. apply pow2_cancel.
Qed.

(** ** The binary64 scalars *)

Lemma f64_binary64 (x : Float64) : rnd64 (f64 x) = f64 x.
Proof. apply rnd64_idem. Qed.

Lemma f64_minimum (x y : Float64) : f64 (minimum x y) = Rmin (f64 x) (f64 y).
Proof.
  cbn. unfold Rmin. destruct (Rle_dec (f64 x) (f64 y)); reflexivity.
Qed.

Lemma f64_maximum (x y : Float64) : f64 (maximum x y) = Rmax (f64 x) (f64 y).
Proof.
  cbn. unfold Rmax.
  destruct (Rge_dec (f64 x) (f64 y)); destruct (Rle_dec (f64 x) (f64 y));
    try reflexivity; lra.
Qed.

Lemma f64_clip (x lo hi : Float64) :
  f64 (clip_by_value x lo hi) = Rmax (Rmin (f64 x) (f64 hi)) (f64 lo).
Proof. unfold clip_by_value. rewrite f64_maximum, f64_minimum. reflexivity. Qed.

Lemma f64_one : f64 (of_real 1) = 1.
Proof. apply rnd64_1. Qed.

Lemma f64_sigmoid_eq (x : Float64) :
  f64 (f64_sigmoid x) = rnd64 (1 / rnd64 (1 + rnd64 (exp (- f64 x)))).
Proof.
  unfold f64_sigmoid, f64_div, f64_add, f64_exp, f64_opp, f64. cbn [raw].
  rewrite rnd64_1, rnd64_opp, !rnd64_idem. reflexivity.
Qed.

(** The rounded sigmoid stays in the closed unit interval. *)
Lemma f64_sigmoid_range (x : Float64) : 0 <= f64 (f64_sigmoid x) <= 1.
Proof.
  rewrite f64_sigmoid_eq.
  set (e := rnd64 (exp _)).
  assert (He : 0 <= e) by (apply rnd64_nonneg, Rlt_le, exp_pos).
  set (d := rnd64 (1 + e)).
  assert (Hd : 1 <= d).
  { unfold d. apply Rle_trans with (rnd64 1); [rewrite rnd64_1; lra|].
    apply rnd64_mono. lra. }
  assert (Hq : 0 <= 1 / d <= 1).
  { split.
    - apply Rlt_le, Rdiv_lt_0_compat; lra.
    - apply (Rmult_le_reg_r d); [lra|]. unfold Rdiv.
      rewrite Rmult_assoc, Rinv_l; lra. }
  split.
  - apply rnd64_nonneg, Hq.
  - apply Rle_trans with (rnd64 1); [apply rnd64_mono, Hq|].
    rewrite rnd64_1. lra.
Qed.

Lemma exp_INR (n : nat) (x : R) : exp (INR n * x) = exp x ^ n.
Proof.
  induction n as [|n IH].
  - cbn. rewrite Rmult_0_l. apply exp_0.
  - rewrite S_INR, Rmult_plus_distr_r, Rmult_1_l, exp_plus, IH. cbn. ring.
Qed.

Lemma exp_40 : pow2 54 <= exp 40.
Proof.
  replace 40 with (INR 640 * (1 / 16)).
  2:{ rewrite INR_IZR_INZ. cbn. lra. }
  rewrite exp_INR.
  assert (Hb : 17 / 16 <= exp (1 / 16)).
  { pose proof (exp_ineq1 (1 / 16) ltac:(lra)). lra. }
  apply Rle_trans with ((17 / 16) ^ 640); [|apply pow_incr; lra].
  unfold Rdiv. rewrite Rpow_mult_distr, pow_inv.
  rewrite !pow_IZR, pow2_IZR by lia.
  assert (Hden : 0 < IZR (16 ^ Z.of_nat 640)).
  { apply IZR_lt. apply Z.pow_pos_nonneg; lia. }
  apply (Rmult_le_reg_r (IZR (16 ^ Z.of_nat 640))); [exact Hden|].
  rewrite Rmult_assoc, Rinv_l, Rmult_1_r by lra.
  rewrite <- mult_IZR. apply IZR_le.
  apply Z.leb_le. vm_compute. reflexivity.
Qed.

(** From a logit of 40 on the rounded sigmoid is exactly 1. *)
Lemma f64_sigmoid_saturates (x : Float64) :
  40 <= f64 x -> f64 (f64_sigmoid x) = 1.
Proof.
  intros Hx. rewrite f64_sigmoid_eq.
  set (e := rnd64 (exp _)).
  assert (He : 0 <= e <= pow2 (-54)).
  { unfold e. split.
    - apply rnd64_nonneg, Rlt_le, exp_pos.
    - assert (Hfix : rnd64 (pow2 (-54)) = pow2 (-54)).
      { replace (pow2 (-54)) with (IZR (2 ^ 52) * pow2 (-106)).
        - apply rnd64_fixed; [split; [lia|] | unfold emin; lia].
          apply Z.pow_lt_mono_r; lia.
        - rewrite <- pow2_IZR, <- pow2_add by lia. f_equal. }
      rewrite <- Hfix. apply rnd64_mono.
      change (-54)%Z with (- (54))%Z. rewrite pow2_opp.
      assert (H40 : exp 40 <= exp (f64 x)).
      { destruct Hx as [Hx|Hx]; [apply Rlt_le, exp_increasing, Hx|].
        rewrite Hx; lra. }
      pose proof exp_40 as H54. pose proof (pow2_pos 54) as Hp.
      rewrite exp_Ropp. apply Rinv_le_contravar; lra. }
  assert (Hd : rnd64 (1 + e) = 1).
  { replace 1 with (IZR (2 ^ 52) * pow2 (-52)) at 2
      by (rewrite <- pow2_IZR by lia; apply pow2_cancel).
    apply rnd64_eval; [unfold emin; lia | |].
    - change (-52 + 52)%Z with 0%Z. change (-52 + 53)%Z with 1%Z.
      assert (H1 : pow2 1 = 2) by (rewrite pow2_IZR by lia; reflexivity).
      rewrite pow2_0, H1.
      assert (pow2 (-54) < 1).
      { change 1 with (pow2 0). apply pow2_lt. lia. }
      lra.
    - change (- -52)%Z with 52%Z. rewrite <- pow2_IZR by lia.
      assert (E : pow2 (-54) * pow2 52 = 1 / 4).
      { rewrite <- pow2_add. change (-54 + 52)%Z with (- (2))%Z.
        rewrite pow2_opp, pow2_IZR by lia. change (2 ^ 2)%Z with 4%Z. lra. }
      pose proof (pow2_pos 52). nra. }
  rewrite Hd. replace (1 / 1) with 1 by lra. apply rnd64_1.
Qed.


(** ** C7 in binary64 *)

Lemma share3_f64_sigmoid (c : R) (t : Tensor3 Float64) :
  share3_f64 (map (map (map (fun y => sigmoid (const c * y)%S))) t).
Proof.
  unfold share3_f64.
  apply Forall_map, Forall_forall; intros block _.
  apply Forall_map, Forall_forall; intros row _.
  apply Forall_map, Forall_forall; intros y _.
  apply f64_sigmoid_range.
Qed.

Lemma prepare_state_fails {A : Type} `{Scalar A} (cfg : Config)
  (gm_model : Tensor3 A -> Tensor3 A) (input_data : FullState A) :
  prepare_state cfg gm_model input_data = None ->
  full_state cfg = false /\
  n_fm cfg <> 0%Z /\ n_fm cfg <> 1%Z /\ n_fm cfg <> 2%Z.
Proof.
  intros Hs. unfold prepare_state in Hs.
  destruct (full_state cfg).
  - destruct (0 <? n_gm cfg)%Z; discriminate.
  - destruct (n_fm cfg =? 2)%Z eqn:E2;
      [destruct (0 <? n_gm cfg)%Z; discriminate|].
    destruct (n_fm cfg =? 0)%Z eqn:E0;
      [destruct (0 <? n_gm cfg)%Z; discriminate|].
    destruct (n_fm cfg =? 1)%Z eqn:E1;
      [destruct (0 <? n_gm cfg)%Z; discriminate|].
    apply Z.eqb_neq in E2, E0, E1. auto.
Qed.

Lemma f64_of_real_fixed (m e : Z) :
  (2 ^ 52 <= m < 2 ^ 53)%Z -> (emin <= e + 52)%Z ->
  f64 (of_real (IZR m * pow2 e)) = IZR m * pow2 e.
Proof. intros Hm He. unfold f64; cbn [raw]. apply rnd64_fixed; assumption. Qed.

Lemma rnd64_40 : rnd64 40 = 40.
Proof.
  replace 40 with (IZR 5629499534213120 * pow2 (-47)) at 1 2.
  - apply rnd64_fixed; [lia | unfold emin; lia].
  - change (-47)%Z with (- (47))%Z. rewrite pow2_opp, pow2_IZR by lia.
    change (2 ^ 47)%Z with 140737488355328%Z. lra.
Qed.

Lemma rnd64_2 : rnd64 2 = 2.
Proof.
  replace 2 with (IZR (2 ^ 52) * pow2 (-51)) at 1 2.
  - apply rnd64_fixed; [lia | unfold emin; lia].
  - rewrite <- pow2_IZR, <- pow2_add by lia. change (52 + -51)%Z with 1%Z.
    rewrite pow2_IZR by lia. reflexivity.
Qed.

(** The policy of the counterexamples: the network answers 40 for every
    agent, and [sgm_scale] is 1. *)
Lemma saturated_logit : f64 (const 1 * of_real 40)%S = 40.
Proof.
  cbn. unfold f64_mul, f64; cbn [raw].
  rewrite rnd64_1, rnd64_40, Rmult_1_l. apply rnd64_40.
Qed.



Lemma index0_Forall {A : Type} (P : A -> Prop) (p : Tensor3 A)
  (c : Tensor2 A) :
  Forall (Forall (Forall P)) p -> index0 p = Some c -> Forall (Forall P) c.
Proof.
  unfold index0. intros Hp Hi.
  apply traverse_Forall2 in Hi.
  induction Hi as [|block row p' c' Hrow _ IH]; [constructor|].
  inversion Hp as [|? ? Hblock Hp']; subst.
  constructor; [|apply IH; exact Hp'].
  apply traverse_Forall2 in Hrow. clear IH Hp Hp'.
  induction Hrow as [|feat y b' r' Hhd _ IH]; [constructor|].
  inversion Hblock as [|? ? Hfeat Hb']; subst.
  constructor; [|apply IH; exact Hb'].
  destruct feat as [|y0 feat]; [discriminate|].
  inversion Hhd; subst. inversion Hfeat; assumption.
Qed.

Lemma masked_share_f64 (cfg : Config) (c : Tensor2 Float64) :
  masked_share cfg c = c.
Proof.
  unfold masked_share. destruct (is_game cfg); [|reflexivity].
  unfold game_share. induction c as [|row c IH]; [reflexivity|].
  cbn [map]. rewrite IH. f_equal.
  cbn [stop_gradient Scalar_Float64]. rewrite map_id.
  apply (firstn_skipn 1 row).
Qed.

Lemma consumption_share_f64 (cfg cfg' : Config)
  (model gm_model : Tensor3 Float64 -> Tensor3 Float64)
  (fsd : FullState Float64) (c_share : Tensor2 Float64) :
  consumption_share cfg (policy_fn cfg' model gm_model) fsd = Some c_share ->
  share2_f64 c_share.
Proof.
  unfold consumption_share. intros Hc.
  destruct (policy_fn cfg' model gm_model fsd) as [p|] eqn:Hp; [|discriminate].
  destruct (index0 p) as [c|] eqn:Hi; [|discriminate].
  inversion Hc; subst. rewrite masked_share_f64.
  apply (index0_Forall _ p c); [|exact Hi].
  unfold policy_fn in Hp.
  destruct (prepare_state cfg' gm_model fsd); [|discriminate].
  inversion Hp; subst. apply share3_f64_sigmoid.
Qed.

Lemma share2_f64_entry (c : Tensor2 Float64) i j sh :
  share2_f64 c -> entry c i j = Some sh -> 0 <= f64 sh <= 1.
Proof.
  unfold share2_f64, entry. intros Hc He.
  destruct (nth_error c i) as [row|] eqn:Hr; [|discriminate].
  apply nth_error_In in Hr, He.
  rewrite Forall_forall in Hc. specialize (Hc row Hr).
  rewrite Forall_forall in Hc. exact (Hc sh He).
Qed.

Lemma f64_sub_eq (x y : Float64) : f64 (x - y)%S = rnd64 (f64 x - f64 y).
Proof. reflexivity. Qed.

Lemma f64_mul_eq (x y : Float64) : f64 (x * y)%S = rnd64 (f64 x * f64 y).
Proof. reflexivity. Qed.

Lemma f64_div_eq (x y : Float64) : f64 (x / y)%S = rnd64 (f64 x / f64 y).
Proof. reflexivity. Qed.

Lemma f64_const (r : R) : f64 (const r) = rnd64 r.
Proof. reflexivity. Qed.

(** A share of a non-negative wealth, rounded, is at most that wealth, and
    what is left is not negative. *)
Lemma f64_share_of_wealth (sh w : Float64) :
  0 <= f64 sh <= 1 -> 0 <= f64 w ->
  0 <= f64 (sh * w)%S <= f64 w /\ 0 <= f64 (w - sh * w)%S.
Proof.
  intros Hs Hw.
  assert (Hc : 0 <= f64 (sh * w)%S <= f64 w).
  { rewrite f64_mul_eq. split.
    - apply rnd64_nonneg. nra.
    - rewrite <- (f64_binary64 w) at 2. apply rnd64_mono. nra. }
  split; [exact Hc|]. rewrite f64_sub_eq. apply rnd64_nonneg. lra.
Qed.

Lemma Davila_unclipped_f64 (c_share wealth : Tensor2 Float64) :
  share2_f64 c_share ->
  Davila_floor_f64 c_share wealth
    (next_capital wealth (Davila_csmp c_share wealth)).
Proof.
  intros Hshare i j w sh Hw Hs.
  pose proof (share2_f64_entry _ _ _ _ Hshare Hs) as Hsh.
  split; [exact Hsh|]. split.
  - unfold next_capital, Davila_csmp. rewrite !entry_map2, Hw, Hs. reflexivity.
  - intros Hpos. apply f64_share_of_wealth; assumption.
Qed.




Ltac pow2_lit :=
  repeat match goal with
         | |- context [pow2 ?z] =>
             let v := eval vm_compute in z in
             lazymatch v with
             | Z0 => change (pow2 z) with (pow2 0); rewrite pow2_0
             | Zpos ?p =>
                 let c := eval vm_compute in (2 ^ Zpos p)%Z in
                 replace (pow2 z) with (IZR c)
                   by (change z with (Zpos p);
                       rewrite (pow2_IZR (Zpos p)) by lia; reflexivity)
             | Zneg ?p =>
                 let c := eval vm_compute in (2 ^ Zpos p)%Z in
                 replace (pow2 z) with (/ IZR c)
                   by (change z with (- Zpos p)%Z;
                       rewrite (pow2_opp (Zpos p)), (pow2_IZR (Zpos p)) by lia;
                       reflexivity)
             end
         end.

(** [EPSILON = 1e-3] as a binary64 number. *)
Lemma rnd64_EPSILON : rnd64 EPSILON = IZR 4611686018427388 * pow2 (-62).
Proof.
  apply rnd64_eval; [unfold emin; lia | |]; unfold EPSILON; pow2_lit; lra.
Qed.

(** [2.0 - 1e-3] rounds up. *)
Lemma rnd64_below_two :
  rnd64 (2 - IZR 4611686018427388 * pow2 (-62))
  = IZR 9002695655113622 * pow2 (-52).
Proof. apply rnd64_eval; [unfold emin; lia | |]; pow2_lit; lra. Qed.

Lemma rnd64_what_is_left :
  rnd64 (2 - IZR 9002695655113622 * pow2 (-52))
  = IZR 4611686018426880 * pow2 (-62).
Proof. apply rnd64_eval; [unfold emin; lia | |]; pow2_lit; lra. Qed.

Lemma EPSILON_f64_pos : 0 < rnd64 EPSILON.
Proof. rewrite rnd64_EPSILON. pow2_lit. lra. Qed.

Lemma clip_margin_f64 (x w : Float64) :
  let c := clip_by_value x (const EPSILON) (w - const EPSILON)%S in
  let lo := rnd64 EPSILON in
  let hi := rnd64 (f64 w - rnd64 EPSILON) in
  lo <= f64 c /\
  (f64 c <= hi <-> lo <= hi) /\
  (hi < lo -> f64 c = lo) /\
  (lo <= hi -> 0 <= f64 (w - c)%S).
Proof.
  cbv zeta. rewrite f64_sub_eq, f64_clip, f64_sub_eq, !f64_const.
  set (lo := rnd64 EPSILON). set (hi := rnd64 (f64 w - lo)).
  pose proof EPSILON_f64_pos as Hlo. fold lo in Hlo.
  assert (Hhw : hi <= f64 w).
  { unfold hi. rewrite <- (f64_binary64 w) at 2. apply rnd64_mono. lra. }
  unfold Rmax, Rmin.
  destruct (Rle_dec (f64 x) hi); destruct (Rle_dec _ lo);
    repeat split; intros; try lra; apply rnd64_nonneg; lra.
Qed.

Lemma clipped_margin_f64 (c_share wealth : Tensor2 Float64) :
  margin_f64 wealth (clipped_csmp c_share wealth)
             (next_capital wealth (clipped_csmp c_share wealth)).
Proof.
  intros i j w c Hw Hc. cbv zeta.
  split.
  { unfold next_capital. rewrite entry_map2, Hw, Hc. reflexivity. }
  unfold clipped_csmp in Hc. rewrite entry_map2, Hw in Hc.
  destruct (entry c_share i j) as [sh|]; [|discriminate].
  replace c with (clip_by_value (sh * w)%S (const EPSILON)
                                (w - const EPSILON)%S) by congruence.
  apply (clip_margin_f64 (sh * w)%S w).
Qed.

Lemma JFV_clipped_margin_f64 (mparam : MParam)
  (c_share wealth : Tensor2 Float64) :
  JFV_margin_f64 (dt mparam) wealth (JFV_csmp mparam c_share wealth)
    (JFV_next_capital mparam wealth (JFV_csmp mparam c_share wealth)).
Proof.
  intros i j w c Hw Hc. cbv zeta.
  split.
  { unfold JFV_next_capital. rewrite entry_map2, Hw, Hc. reflexivity. }
  unfold JFV_csmp in Hc. rewrite entry_map2, Hw in Hc.
  destruct (entry c_share i j) as [sh|]; [|discriminate].
  replace c with (clip_by_value (sh * w / const (dt mparam))%S
                                (const EPSILON)
                                (w / const (dt mparam) - const EPSILON)%S)
    by congruence.
  rewrite f64_clip, f64_sub_eq, !f64_div_eq, !f64_const.
  set (lo := rnd64 EPSILON).
  set (hi := rnd64 (rnd64 (f64 w / rnd64 (dt mparam)) - lo)).
  set (x := rnd64 (f64 (sh * w)%S / rnd64 (dt mparam))).
  unfold Rmax, Rmin.
  destruct (Rle_dec x hi); destruct (Rle_dec _ lo);
    repeat split; intros; lra.
Qed.

(** Rounding eats the margin: at wealth 2.0, with the clip binding above,
    what is left is below [EPSILON]. *)
Lemma margin_lost_to_rounding :
  exists k,
    entry (next_capital [[of_real 2]]
             (clipped_csmp [[of_real 1]] [[of_real 2]])) 0 0 = Some k /\
    2 * EPSILON <= f64 (of_real 2) /\
    0 < f64 k < rnd64 EPSILON.
Proof.
  exists (of_real 2
          - clip_by_value (of_real 1 * of_real 2) (const EPSILON)
                          (of_real 2 - const EPSILON))%S.
  split; [reflexivity|].
  assert (H2 : f64 (of_real 2) = 2) by apply rnd64_2.
  split; [rewrite H2; unfold EPSILON; lra|].
  rewrite f64_sub_eq, f64_clip, f64_sub_eq, f64_mul_eq, !f64_const.
  rewrite !rnd64_2, rnd64_1, Rmult_1_l, rnd64_2.
  rewrite rnd64_EPSILON, rnd64_below_two.
  assert (Hc : Rmax (Rmin 2 (IZR 9002695655113622 * pow2 (-52)))
                    (IZR 4611686018427388 * pow2 (-62))
               = IZR 9002695655113622 * pow2 (-52)).
  { unfold Rmax, Rmin.
    destruct (Rle_dec 2 _) as [H|H]; destruct (Rle_dec _ _) as [H'|H'];
      try reflexivity; exfalso; revert H H'; pow2_lit; intros; lra. }
  rewrite Hc, rnd64_what_is_left. pow2_lit. lra.
Qed.


Lemma clipped_floor (c_share wealth : Tensor2 R) :
  clamp_floor wealth (clipped_csmp c_share wealth).
Proof.
  intros i j w c Hw Hc Hsmall.
  destruct (clipped_entry _ _ _ _ _ _ Hw Hc) as (sh & _ & ->).
  apply clip_crossed. lra.
Qed.

Lemma JFV_clipped_floor (mparam : MParam) (c_share wealth : Tensor2 R) :
  JFV_clamp_floor (dt mparam) wealth (JFV_csmp mparam c_share wealth).
Proof.
  intros i j w c Hw Hc Hsmall.
  destruct (JFV_csmp_entry _ _ _ _ _ _ _ Hw Hc) as (sh & _ & ->).
  apply clip_crossed. lra.
Qed.

(** C1, amended.  At every non-terminal period of the KS, DavilaAS and JFV
    recursions.  In binary64, with [lo] the rounded [EPSILON] and [hi] the
    rounded [wealth - EPSILON] (JFV: [wealth/dt - EPSILON]): the clipped
    consumption is at least [lo]; it is at most [hi] exactly when
    [lo <= hi], and it is [lo] when [hi < lo]; in the KS and DavilaAS
    recursions the next capital, the rounded [wealth - c], is not negative
    when [lo <= hi].  In exact arithmetic: consumption is at least
    [EPSILON]; it is at most [wealth - EPSILON], and the next capital is at
    least [EPSILON] ([EPSILON * dt] for JFV, with [dt] positive), exactly
    when wealth is at least [2 * EPSILON] (JFV: [wealth/dt]); below that
    the clamp returns [EPSILON].  The bound on the next capital does not
    survive rounding: at wealth 2.0 with the clip binding above, the next
    capital is positive and below the rounded [EPSILON]. *)
Theorem clipped_consumption_margin :
  forall (mparam : MParam) (cfg : Config) (t : nat),
    is_terminal cfg t = false ->
    (forall (normalize_data : Key -> Tensor3 Float64 -> Tensor3 Float64)
            (unnormalize_data : Key -> Tensor2 Float64 -> Tensor2 Float64)
            (vtrainers : list (FullState Float64 -> Tensor3 Float64))
            (policy_fn : FullState Float64 -> option (Tensor3 Float64))
            (input_data : InputData Float64) (s s' : LoopState Float64),
        (KS_body mparam cfg normalize_data unnormalize_data vtrainers
                 policy_fn input_data (Some s) t = Some s' ->
         exists c_share,
           let wealth := KS_wealth mparam t input_data (st_k_cross s) in
           let csmp := clipped_csmp c_share wealth in
           st_k_cross s' = next_capital wealth csmp /\
           margin_f64 wealth csmp (st_k_cross s'))
        /\
        (DavilaAS_body mparam cfg normalize_data unnormalize_data vtrainers
                       policy_fn input_data (Some s) t = Some s' ->
         exists c_share,
           let wealth :=
             DavilaAS_wealth mparam t input_data (st_k_cross s) in
           let csmp := clipped_csmp c_share wealth in
           st_k_cross s' = next_capital wealth csmp /\
           margin_f64 wealth csmp (st_k_cross s'))
        /\
        (JFV_body mparam cfg normalize_data unnormalize_data vtrainers
                  policy_fn input_data (Some s) t = Some s' ->
         exists c_share,
           let wealth :=
             JFV_wealth mparam t input_data (st_k_cross s) (st_N s) in
           let csmp := JFV_csmp mparam c_share wealth in
           st_k_cross s' = JFV_next_capital mparam wealth csmp /\
           JFV_margin_f64 (dt mparam) wealth csmp (st_k_cross s')))
    /\
    (forall (normalize_data : Key -> Tensor3 R -> Tensor3 R)
            (unnormalize_data : Key -> Tensor2 R -> Tensor2 R)
            (vtrainers : list (FullState R -> Tensor3 R))
            (policy_fn : FullState R -> option (Tensor3 R))
            (input_data : InputData R) (s s' : LoopState R),
        (KS_body mparam cfg normalize_data unnormalize_data vtrainers
                 policy_fn input_data (Some s) t = Some s' ->
         exists c_share,
           let wealth := KS_wealth mparam t input_data (st_k_cross s) in
           let csmp := clipped_csmp c_share wealth in
           st_k_cross s' = next_capital wealth csmp /\
           margin wealth csmp (st_k_cross s') /\
           clamp_floor wealth csmp)
        /\
        (DavilaAS_body mparam cfg normalize_data unnormalize_data vtrainers
                       policy_fn input_data (Some s) t = Some s' ->
         exists c_share,
           let wealth :=
             DavilaAS_wealth mparam t input_data (st_k_cross s) in
           let csmp := clipped_csmp c_share wealth in
           st_k_cross s' = next_capital wealth csmp /\
           margin wealth csmp (st_k_cross s') /\
           clamp_floor wealth csmp)
        /\
        (0 < dt mparam ->
         JFV_body mparam cfg normalize_data unnormalize_data vtrainers
                  policy_fn input_data (Some s) t = Some s' ->
         exists c_share,
           let wealth :=
             JFV_wealth mparam t input_data (st_k_cross s) (st_N s) in
           let csmp := JFV_csmp mparam c_share wealth in
           st_k_cross s' = JFV_next_capital mparam wealth csmp /\
           JFV_margin (dt mparam) wealth csmp (st_k_cross s') /\
           JFV_clamp_floor (dt mparam) wealth csmp))
    /\
    (exists k,
        entry (next_capital [[of_real 2]]
                 (clipped_csmp [[of_real 1]] [[of_real 2]])) 0 0 = Some k /\
        2 * EPSILON <= f64 (of_real 2) /\
        0 < f64 k < rnd64 EPSILON).
Proof.
  intros mparam cfg t Ht. split; [|split].
  - intros normalize_data unnormalize_data vtrainers policy_fn input_data
           s s'.
    split; [|split]; intros Hb.
    + destruct (KS_body_step _ _ _ _ _ _ _ _ Ht _ _ Hb) as (c & _ & Hk & _).
      exists c; cbn zeta in *. split; [exact Hk|].
      rewrite Hk. apply clipped_margin_f64.
    + destruct (DavilaAS_body_step _ _ _ _ _ _ _ _ Ht _ _ Hb)
        as (c & _ & Hk & _).
      exists c; cbn zeta in *. split; [exact Hk|].
      rewrite Hk. apply clipped_margin_f64.
    + destruct (JFV_body_step _ _ _ _ _ _ _ _ Ht _ _ Hb) as (c & _ & Hk & _).
      exists c; cbn zeta in *. split; [exact Hk|].
      rewrite Hk. apply JFV_clipped_margin_f64.
  - intros normalize_data unnormalize_data vtrainers policy_fn input_data
           s s'.
    split; [|split].
    + intros Hb.
      destruct (KS_body_step _ _ _ _ _ _ _ _ Ht _ _ Hb) as (c & _ & Hk & _).
      exists c; cbn zeta in *. split; [exact Hk|].
      rewrite Hk. split; [apply clipped_margin | apply clipped_floor].
    + intros Hb.
      destruct (DavilaAS_body_step _ _ _ _ _ _ _ _ Ht _ _ Hb)
        as (c & _ & Hk & _).
      exists c; cbn zeta in *. split; [exact Hk|].
      rewrite Hk. split; [apply clipped_margin | apply clipped_floor].
    + intros Hdt Hb.
      destruct (JFV_body_step _ _ _ _ _ _ _ _ Ht _ _ Hb) as (c & _ & Hk & _).
      exists c; cbn zeta in *. split; [exact Hk|].
      rewrite Hk.
      split; [apply JFV_clipped_margin; exact Hdt | apply JFV_clipped_floor].
  - exact margin_lost_to_rounding.
Qed.

Lemma clipped_consumption_margin_witness :
  is_terminal (example_cfg "socialplanner") 0 = false /\
  exists s',
    KS_body example_mparam (example_cfg "socialplanner") identity_normalizer
            identity_unnormalizer example_vtrainers_f64
            (example_policy_f64 "socialplanner") (to_f64 rich_batch)
            (Some (init_state (to_f64 rich_batch))) 0 = Some s' /\
    exists c_share,
      let wealth :=
        KS_wealth example_mparam 0 (to_f64 rich_batch)
                  (st_k_cross (init_state (to_f64 rich_batch))) in
      let csmp := clipped_csmp c_share wealth in
      st_k_cross s' = next_capital wealth csmp /\
      margin_f64 wealth csmp (st_k_cross s').
Proof.
  assert (Ht : is_terminal (example_cfg "socialplanner") 0 = false)
    by reflexivity.
  split; [exact Ht|].
  eexists. split; [reflexivity|].
  exact (proj1 (proj1 (clipped_consumption_margin example_mparam
                         (example_cfg "socialplanner") 0 Ht)
                      identity_normalizer identity_unnormalizer
                      example_vtrainers_f64
                      (example_policy_f64 "socialplanner")
                      (to_f64 rich_batch) (init_state (to_f64 rich_batch)) _)
               eq_refl).
Defined.


(** * Further properties of the trainer *)

(** ** The forward pass does not see the objective *)

Lemma share_forward (cfg : Config)
  (policy_fn : FullState R -> option (Tensor3 R)) (fsd : FullState R) :
  consumption_share cfg policy_fn fsd
  = match policy_fn fsd with Some p => index0 p | None => None end.
Proof.
  unfold consumption_share. destruct (policy_fn fsd) as [p|]; [|reflexivity].
  destruct (index0 p) as [c|]; [|reflexivity].
  rewrite masked_share_forward. reflexivity.
Qed.

Lemma fold_left_ext {S T : Type} (f g : S -> T -> S) (l : list T) (a : S) :
  (forall s t, f s t = g s t) -> fold_left f l a = fold_left g l a.
Proof.
  intros Hfg; revert a; induction l as [|t l IH]; intros a; simpl;
    [reflexivity|].
  rewrite Hfg. apply IH.
Qed.

Lemma is_terminal_same (cfg1 cfg2 : Config) (t : nat) :
  t_unroll cfg1 = t_unroll cfg2 -> is_terminal cfg1 t = is_terminal cfg2 t.
Proof. intros E; unfold is_terminal; rewrite E; reflexivity. Qed.

Lemma output_k_end {A : Type} `{Scalar A} (cfg : Config) (s : LoopState A)
  (gp : option A) (out : Output A) :
  output cfg s gp = Some out -> k_end out = reduce_mean (st_k_cross s).
Proof.
  unfold output. destruct (is_socialplanner cfg).
  - intros E; inversion E; reflexivity.
  - destruct (is_game cfg); [|discriminate].
    destruct (acc_mean_agent0 _); [|discriminate].
    intros E; inversion E; reflexivity.
Qed.

Lemma output_gp_loss {A : Type} `{Scalar A} (cfg : Config) (s : LoopState A)
  (gp : option A) (out : Output A) :
  output cfg s gp = Some out -> gp_loss out = gp.
Proof.
  unfold output. destruct (is_socialplanner cfg).
  - intros E; inversion E; reflexivity.
  - destruct (is_game cfg); [|discriminate].
    destruct (acc_mean_agent0 _); [|discriminate].
    intros E; inversion E; reflexivity.
Qed.

Lemma fold_left_related {S1 S2 T : Type} (Rel : S1 -> S2 -> Prop)
  (f : S1 -> T -> S1) (g : S2 -> T -> S2) (l : list T) :
  (forall a b t, Rel a b -> Rel (f a t) (g b t)) ->
  forall a b, Rel a b -> Rel (fold_left f l a) (fold_left g l b).
Proof.
  intros Hstep; induction l as [|t l IH]; intros a b Hab; cbn; [exact Hab|].
  apply IH, Hstep, Hab.
Qed.

Section Objective.
Variable mparam : MParam.
Variables cfg1 cfg2 : Config.
Variable normalize_data : Key -> Tensor3 R -> Tensor3 R.
Variable unnormalize_data : Key -> Tensor2 R -> Tensor2 R.
Variable vtrainers : list (FullState R -> Tensor3 R).
Variable policy_fn : FullState R -> option (Tensor3 R).
Variables tape1 tape2 : nat -> InputData R -> Tensor2 R -> Tensor2 R.
Variable input_data : InputData R.
Hypothesis Hsame : t_unroll cfg1 = t_unroll cfg2.

Lemma loops_ignore_objective :
  KS_loop mparam cfg1 normalize_data unnormalize_data vtrainers policy_fn
          input_data
  = KS_loop mparam cfg2 normalize_data unnormalize_data vtrainers policy_fn
            input_data /\
  DavilaAS_loop mparam cfg1 normalize_data unnormalize_data vtrainers policy_fn
                input_data
  = DavilaAS_loop mparam cfg2 normalize_data unnormalize_data vtrainers
                  policy_fn input_data /\
  JFV_loop mparam cfg1 normalize_data unnormalize_data vtrainers policy_fn
           input_data
  = JFV_loop mparam cfg2 normalize_data unnormalize_data vtrainers policy_fn
             input_data.
Proof.
  unfold KS_loop, DavilaAS_loop, JFV_loop. rewrite Hsame.
  repeat split; apply fold_left_ext; intros [s|] t; try reflexivity;
    unfold KS_body, DavilaAS_body, JFV_body;
    rewrite (is_terminal_same cfg1 cfg2 t Hsame), !share_forward;
    reflexivity.
Qed.

Lemma Davila_body_same_forward (l1 l2 : option (LoopState R)) (t : nat) :
  same_forward l1 l2 ->
  same_forward
    (Davila_body mparam cfg1 unnormalize_data vtrainers policy_fn tape1
                 input_data l1 t)
    (Davila_body mparam cfg2 unnormalize_data vtrainers policy_fn tape2
                 input_data l2 t).
Proof.
  destruct l1 as [s1|], l2 as [s2|]; cbn [same_forward]; try tauto.
  intros (Hk & HN & Hu). unfold Davila_body.
  rewrite (is_terminal_same cfg1 cfg2 t Hsame), !share_forward, Hk, HN, Hu.
  destruct (is_terminal cfg2 t).
  - destruct (terminal_value _ _ _); cbn; auto.
  - destruct (policy_fn _) as [p|]; [|exact I].
    destruct (index0 p); cbn; auto.
Qed.

Lemma Davila_loops_same_forward :
  same_forward
    (Davila_loop mparam cfg1 unnormalize_data vtrainers policy_fn tape1
                 input_data)
    (Davila_loop mparam cfg2 unnormalize_data vtrainers policy_fn tape2
                 input_data).
Proof.
  unfold Davila_loop. rewrite Hsame.
  apply (fold_left_related same_forward).
  - intros a b t. apply Davila_body_same_forward.
  - cbn. auto.
Qed.
End Objective.

(** X1.  The forward pass of the four recursions is the same under the
    ["game"] and the ["socialplanner"] objective, and under any other value
    of [opt_type]: two configurations with the same horizon end the KS,
    DavilaAS and JFV loops in the same state, and the Davila loop in the
    same capital, [N] and accumulated utility, so the losses they return
    report the same [k_end].  The accumulated gradient penalty of the Davila
    loss is left out: [tape.gradient] differentiates the share after the
    ["game"] mask, so the two configurations have a gradient each. *)
Theorem forward_pass_ignores_objective :
  forall (mparam : MParam) (cfg1 cfg2 : Config)
         (normalize_data : Key -> Tensor3 R -> Tensor3 R)
         (unnormalize_data : Key -> Tensor2 R -> Tensor2 R)
         (vtrainers : list (FullState R -> Tensor3 R))
         (policy_fn : FullState R -> option (Tensor3 R))
         (tape1 tape2 : nat -> InputData R -> Tensor2 R -> Tensor2 R)
         (input_data : InputData R),
    t_unroll cfg1 = t_unroll cfg2 ->
    (KS_loop mparam cfg1 normalize_data unnormalize_data vtrainers policy_fn
             input_data
     = KS_loop mparam cfg2 normalize_data unnormalize_data vtrainers policy_fn
               input_data /\
     DavilaAS_loop mparam cfg1 normalize_data unnormalize_data vtrainers
                   policy_fn input_data
     = DavilaAS_loop mparam cfg2 normalize_data unnormalize_data vtrainers
                     policy_fn input_data /\
     JFV_loop mparam cfg1 normalize_data unnormalize_data vtrainers policy_fn
              input_data
     = JFV_loop mparam cfg2 normalize_data unnormalize_data vtrainers
                policy_fn input_data /\
     same_forward
       (Davila_loop mparam cfg1 unnormalize_data vtrainers policy_fn tape1
                    input_data)
       (Davila_loop mparam cfg2 unnormalize_data vtrainers policy_fn tape2
                    input_data))
    /\
    (forall out1 out2,
        KS_loss mparam cfg1 normalize_data unnormalize_data vtrainers
                policy_fn input_data = Some out1 ->
        KS_loss mparam cfg2 normalize_data unnormalize_data vtrainers
                policy_fn input_data = Some out2 ->
        k_end out1 = k_end out2)
    /\
    (forall out1 out2,
        Davila_loss mparam cfg1 unnormalize_data vtrainers policy_fn
                    tape1 input_data = Some out1 ->
        Davila_loss mparam cfg2 unnormalize_data vtrainers policy_fn
                    tape2 input_data = Some out2 ->
        k_end out1 = k_end out2)
    /\
    (forall out1 out2,
        DavilaAS_loss mparam cfg1 normalize_data unnormalize_data vtrainers
                      policy_fn input_data = Some out1 ->
        DavilaAS_loss mparam cfg2 normalize_data unnormalize_data vtrainers
                      policy_fn input_data = Some out2 ->
        k_end out1 = k_end out2)
    /\
    (forall out1 out2,
        JFV_loss mparam cfg1 normalize_data unnormalize_data vtrainers
                 policy_fn input_data = Some out1 ->
        JFV_loss mparam cfg2 normalize_data unnormalize_data vtrainers
                 policy_fn input_data = Some out2 ->
        k_end out1 = k_end out2).
Proof.
  intros mparam cfg1 cfg2 normalize_data unnormalize_data vtrainers policy_fn
         tape1 tape2 input_data Hsame.
  pose proof (loops_ignore_objective mparam cfg1 cfg2 normalize_data
                unnormalize_data vtrainers policy_fn input_data
                Hsame) as (HKS & HAS & HJ).
  pose proof (Davila_loops_same_forward mparam cfg1 cfg2 unnormalize_data
                vtrainers policy_fn tape1 tape2 input_data Hsame) as HD.
  split; [repeat split; assumption|].
  split; [|split; [|split]]; intros out1 out2;
    unfold KS_loss, Davila_loss, DavilaAS_loss, JFV_loss.
  - fold (KS_loop mparam cfg1 normalize_data unnormalize_data vtrainers
                  policy_fn input_data).
    fold (KS_loop mparam cfg2 normalize_data unnormalize_data vtrainers
                  policy_fn input_data). rewrite HKS.
    match goal with
    | |- context [match ?l with Some _ => _ | None => _ end] =>
        destruct l as [s|]; [|discriminate]
    end.
    intros H1 H2.
    rewrite (output_k_end _ _ _ _ H1), (output_k_end _ _ _ _ H2).
    reflexivity.
  - fold (Davila_loop mparam cfg1 unnormalize_data vtrainers policy_fn
                      tape1 input_data).
    fold (Davila_loop mparam cfg2 unnormalize_data vtrainers policy_fn
                      tape2 input_data).
    destruct (Davila_loop mparam cfg1 _ _ _ _ _) as [s1|]; [|discriminate].
    destruct (Davila_loop mparam cfg2 _ _ _ _ _) as [s2|]; [|contradiction].
    destruct HD as (Hk & _ & _). intros H1 H2.
    rewrite (output_k_end _ _ _ _ H1), (output_k_end _ _ _ _ H2), Hk.
    reflexivity.
  - fold (DavilaAS_loop mparam cfg1 normalize_data unnormalize_data
                        vtrainers policy_fn input_data).
    fold (DavilaAS_loop mparam cfg2 normalize_data unnormalize_data
                        vtrainers policy_fn input_data). rewrite HAS.
    match goal with
    | |- context [match ?l with Some _ => _ | None => _ end] =>
        destruct l as [s|]; [|discriminate]
    end.
    intros H1 H2.
    rewrite (output_k_end _ _ _ _ H1), (output_k_end _ _ _ _ H2).
    reflexivity.
  - fold (JFV_loop mparam cfg1 normalize_data unnormalize_data vtrainers
                   policy_fn input_data).
    fold (JFV_loop mparam cfg2 normalize_data unnormalize_data vtrainers
                   policy_fn input_data). rewrite HJ.
    match goal with
    | |- context [match ?l with Some _ => _ | None => _ end] =>
        destruct l as [s|]; [|discriminate]
    end.
    intros H1 H2.
    rewrite (output_k_end _ _ _ _ H1), (output_k_end _ _ _ _ H2).
    reflexivity.
Qed.

Lemma forward_pass_ignores_objective_witness :
  t_unroll (example_cfg "game") = t_unroll (example_cfg "socialplanner") /\
  KS_loop example_mparam (example_cfg "game") identity_normalizer
          identity_unnormalizer example_vtrainers (example_policy "game")
          rich_batch
  = KS_loop example_mparam (example_cfg "socialplanner") identity_normalizer
            identity_unnormalizer example_vtrainers (example_policy "game")
            rich_batch /\
  same_forward
    (Davila_loop example_mparam (example_cfg "game") identity_unnormalizer
                 example_vtrainers (example_policy "game") (fun _ _ k => k)
                 rich_batch)
    (Davila_loop example_mparam (example_cfg "socialplanner")
                 identity_unnormalizer example_vtrainers
                 (example_policy "game")
                 (fun _ _ k => map (map (fun _ => 0)) k) rich_batch).
Proof.
  split; [reflexivity|].
  pose proof (proj1
                (forward_pass_ignores_objective example_mparam
                   (example_cfg "game") (example_cfg "socialplanner")
                   identity_normalizer identity_unnormalizer
                   example_vtrainers (example_policy "game")
                   (fun _ _ k => k)
                   (fun _ _ k => map (map (fun _ => 0)) k) rich_batch
                   eq_refl)) as H.
  split; [exact (proj1 H) | exact (proj2 (proj2 (proj2 H)))].
Defined.

(** ** [current_c_policy] and the state the loss builds *)

Ltac ext_step :=
  apply nth_error_ext; intros ?;
  repeat (rewrite nth_error_map2 || rewrite nth_error_map);
  repeat match goal with
         | |- context [nth_error ?l ?i] =>
             is_var l; destruct (nth_error l i); cbn [option_map]
         end;
  try reflexivity.

Lemma stack_last_4 (a b c d : Tensor2 R) :
  concat_last [expand_dims a; expand_dims b; expand_dims c; expand_dims d]
  = stack_last [a; b; c; d].
Proof.
  unfold concat_last, concat_last2, expand_dims. cbn [fold_left stack_last].
  ext_step. f_equal. ext_step.
Qed.

Lemma stack_last_3 (a b c : Tensor2 R) :
  concat_last [expand_dims a; expand_dims b; expand_dims c]
  = stack_last [a; b; c].
Proof.
  unfold concat_last, concat_last2, expand_dims. cbn [fold_left stack_last].
  ext_step. f_equal. ext_step.
Qed.

Lemma i_tmp_expand (t : nat) (i : Tensor3 R) :
  map (map (fun path => [at_time t path])) i = expand_dims (ishock_at t i).
Proof.
  unfold expand_dims, ishock_at. rewrite map_map. apply map_ext; intros block.
  rewrite map_map. reflexivity.
Qed.

(** X2.  [current_c_policy], which the dataset provider calls on raw states to
    regenerate the datasets, returns the consumption shares the loss
    computes at period [t] from the same capital and the shocks of that
    period, in the forward pass and in the four variants, provided
    [normalize_data] is the same map with and without [withtf] (the Davila
    variant does not normalise). *)
Theorem current_c_policy_is_the_trained_policy :
  forall (mparam : MParam) (cfg : Config)
         (normalize_data normalize_data_np : Key -> Tensor3 R -> Tensor3 R)
         (policy_fn : FullState R -> option (Tensor3 R))
         (input_data : InputData R) (t : nat) (k : Tensor2 R) (N_ : Tensor1 R),
    (forall key x, normalize_data_np key x = normalize_data key x) ->
    KS_current_c_policy mparam normalize_data_np policy_fn k
      (ashock_at t (ashock input_data)) (ishock_at t (ishock input_data))
    = consumption_share cfg policy_fn
        (KS_full_state_dict mparam normalize_data t input_data k)
    /\
    Davila_current_c_policy mparam policy_fn k
      (ishock_at t (ishock input_data))
    = consumption_share cfg policy_fn
        (Davila_full_state_dict mparam t input_data k)
    /\
    JFV_current_c_policy mparam normalize_data_np policy_fn k N_
      (ishock_at t (ishock input_data))
    = consumption_share cfg policy_fn
        (JFV_full_state_dict mparam normalize_data t input_data k N_).
Proof.
  intros mparam cfg normalize_data normalize_data_np policy_fn input_data t k
         N_ Hnorm.
  rewrite !share_forward.
  unfold KS_current_c_policy, Davila_current_c_policy, JFV_current_c_policy,
    KS_full_state_dict, Davila_full_state_dict, JFV_full_state_dict.
  cbv zeta. rewrite !i_tmp_expand, !stack_last_4, stack_last_3, !Hnorm.
  repeat split.
Qed.

Lemma current_c_policy_is_the_trained_policy_witness :
  (forall key x,
      @identity_normalizer R key x = @identity_normalizer R key x) /\
  KS_current_c_policy example_mparam identity_normalizer
    (example_policy "game") (k_cross rich_batch)
    (ashock_at 0 (ashock rich_batch)) (ishock_at 0 (ishock rich_batch))
  = consumption_share (example_cfg "game") (example_policy "game")
      (KS_full_state_dict example_mparam identity_normalizer 0 rich_batch
                          (k_cross rich_batch)).
Proof.
  split; [reflexivity|].
  exact (proj1
           (current_c_policy_is_the_trained_policy example_mparam
              (example_cfg "game") identity_normalizer identity_normalizer
              (example_policy "game") rich_batch 0 (k_cross rich_batch)
              (N rich_batch) (fun _ _ => eq_refl))).
Defined.

(** ** [grad] and the gradient penalty *)

(** X3.  [grad] with [grad_penalty] reads ["gp_loss"], which only the Davila
    loss puts in its [output_dict]: on the output of the KS, DavilaAS and
    JFV losses the lookup fails, whatever the loss returned; without
    [grad_penalty] the differentiated quantity is [m_util]. *)
Theorem grad_penalty_needs_the_Davila_loss :
  forall (mparam : MParam) (cfg : Config)
         (normalize_data : Key -> Tensor3 R -> Tensor3 R)
         (unnormalize_data : Key -> Tensor2 R -> Tensor2 R)
         (vtrainers : list (FullState R -> Tensor3 R))
         (policy_fn : FullState R -> option (Tensor3 R))
         (tape_gradient : nat -> InputData R -> Tensor2 R -> Tensor2 R)
         (input_data : InputData R) (out : Output R),
    (KS_loss mparam cfg normalize_data unnormalize_data vtrainers policy_fn
             input_data = Some out \/
     DavilaAS_loss mparam cfg normalize_data unnormalize_data vtrainers
                   policy_fn input_data = Some out \/
     JFV_loss mparam cfg normalize_data unnormalize_data vtrainers policy_fn
              input_data = Some out ->
     total_loss true out = None /\ total_loss false out = Some (m_util out))
    /\
    (Davila_loss mparam cfg unnormalize_data vtrainers policy_fn tape_gradient
                 input_data = Some out ->
     exists g, gp_loss out = Some g /\
               total_loss true out = Some (m_util out + 1 / 10 * g) /\
               total_loss false out = Some (m_util out)).
Proof.
  intros mparam cfg normalize_data unnormalize_data vtrainers policy_fn
         tape_gradient input_data out.
  split.
  - intros Hl.
    assert (Hgp : gp_loss out = None).
    { destruct Hl as [Hl|[Hl|Hl]];
        unfold KS_loss, DavilaAS_loss, JFV_loss in Hl;
        match type of Hl with
        | context [fold_left ?b ?ts ?i] =>
            destruct (fold_left b ts i) as [s|]; [|discriminate]
        end;
        exact (output_gp_loss _ _ _ _ Hl). }
    unfold total_loss. rewrite Hgp. split; reflexivity.
  - unfold Davila_loss.
    destruct (fold_left _ _ _) as [s|]; [|discriminate].
    intros Hl. pose proof (output_gp_loss _ _ _ _ Hl) as Hgp.
    exists (acc_mean (st_gp_loss s)). unfold total_loss. rewrite Hgp.
    repeat split.
Qed.

Lemma log_10_pos : 0 < log_10.
Proof.
  unfold log_10. rewrite <- ln_1. apply ln_increasing; lra.
Qed.

Lemma fold_add_nonneg (l : list R) (a : R) :
  Forall (fun y => 0 <= y) l -> 0 <= a -> 0 <= fold_left Rplus l a.
Proof.
  intros Hl; revert a; induction Hl as [|x l Hx _ IH]; intros a Ha; simpl;
    [exact Ha|].
  apply IH. lra.
Qed.

Lemma mean_nonneg (l : list R) : Forall (fun y => 0 <= y) l -> 0 <= mean l.
Proof.
  intros Hl. unfold mean, tsum. cbn.
  pose proof (fold_add_nonneg l 0 Hl (Rle_refl 0)) as Hs.
  pose proof (pos_INR (length l)) as Hn.
  destruct (Req_dec_T (INR (length l)) 0) as [E|E].
  - rewrite E. unfold Rdiv. rewrite Rinv_0. lra.
  - apply Rmult_le_pos; [exact Hs|].
    apply Rlt_le, Rinv_0_lt_compat. lra.
Qed.

Lemma acc_mean_nonneg (x : Acc R) : nonneg_acc x -> 0 <= acc_mean x.
Proof.
  destruct x as [a|t]; cbn [nonneg_acc acc_mean]; [auto|].
  intros Ht. unfold reduce_mean. apply mean_nonneg.
  induction Ht; simpl; [constructor|]. apply Forall_app; split; assumption.
Qed.

Lemma acc_add_nonneg (x y : Acc R) :
  nonneg_acc x -> nonneg_acc y -> nonneg_acc (acc_add x y).
Proof.
  destruct x as [a|t], y as [b|u]; cbn; intros Hx Hy.
  - lra.
  - apply Forall_map. eapply Forall_impl; [|exact Hy]. intros row Hr.
    apply Forall_map. eapply Forall_impl; [|exact Hr]. cbn; intros; lra.
  - apply Forall_map. eapply Forall_impl; [|exact Hx]. intros row Hr.
    apply Forall_map. eapply Forall_impl; [|exact Hr]. cbn; intros; lra.
  - eapply Forall_map2; [|exact Hx|exact Hy]. intros r r' Hr Hr'.
    eapply Forall_map2; [|exact Hr|exact Hr']. cbn; intros; lra.
Qed.

Lemma Davila_penalty_nonneg (tape_gradient : nat -> InputData R -> Tensor2 R -> Tensor2 R) t input k :
  nonneg_acc (Tn (Davila_penalty tape_gradient t input k)).
Proof.
  cbn. unfold Davila_penalty.
  eapply (Forall_map2 (fun _ => True) (fun _ => True)).
  - intros r r' _ _.
    eapply (Forall_map2 (fun _ => True) (fun _ => True)).
    + intros g x _ _. cbn. apply Rmax_r.
    + apply Forall_forall; auto.
    + apply Forall_forall; auto.
  - apply Forall_forall; auto.
  - apply Forall_forall; auto.
Qed.

Lemma Davila_body_keeps_penalty_nonneg (mparam : MParam) (cfg : Config)
  (unnormalize_data : Key -> Tensor2 R -> Tensor2 R)
  (vtrainers : list (FullState R -> Tensor3 R))
  (policy_fn : FullState R -> option (Tensor3 R))
  (tape_gradient : nat -> InputData R -> Tensor2 R -> Tensor2 R)
  (input_data : InputData R) (s : LoopState R) (t : nat) (s' : LoopState R) :
  nonneg_acc (st_gp_loss s) ->
  Davila_body mparam cfg unnormalize_data vtrainers policy_fn tape_gradient
              input_data (Some s) t = Some s' ->
  nonneg_acc (st_gp_loss s').
Proof.
  intros Hs. unfold Davila_body. destruct (is_terminal cfg t).
  - destruct (terminal_value _ _ _); [|discriminate].
    intros E; inversion E; subst; exact Hs.
  - destruct (consumption_share _ _ _); [|discriminate].
    intros E; inversion E; subst; cbn [st_gp_loss].
    apply acc_add_nonneg; [exact Hs | apply Davila_penalty_nonneg].
Qed.

(** X4.  The gradient penalty the Davila loss reports is never negative, so the
    penalised quantity [grad] differentiates is never below [m_util]. *)
Theorem Davila_gradient_penalty_nonnegative :
  forall (mparam : MParam) (cfg : Config)
         (unnormalize_data : Key -> Tensor2 R -> Tensor2 R)
         (vtrainers : list (FullState R -> Tensor3 R))
         (policy_fn : FullState R -> option (Tensor3 R))
         (tape_gradient : nat -> InputData R -> Tensor2 R -> Tensor2 R)
         (input_data : InputData R) (out : Output R),
    Davila_loss mparam cfg unnormalize_data vtrainers policy_fn tape_gradient
                input_data = Some out ->
    exists g total,
      gp_loss out = Some g /\ 0 <= g /\
      total_loss true out = Some total /\ m_util out <= total.
Proof.
  intros mparam cfg unnormalize_data vtrainers policy_fn tape_gradient
         input_data out.
  unfold Davila_loss.
  destruct (fold_left _ _ _) as [s|] eqn:Hloop; [|discriminate].
  intros Hout. pose proof (output_gp_loss _ _ _ _ Hout) as Hgp.
  assert (Hs : nonneg_acc (st_gp_loss s)).
  { apply (fold_left_invariant (fun s => nonneg_acc (st_gp_loss s))
             (Davila_body mparam cfg unnormalize_data vtrainers policy_fn
                          tape_gradient input_data)
             (seq 0 (t_unroll cfg)) (fun _ => eq_refl))
      with (s := init_state input_data).
    - intros s0 t0 s1. apply Davila_body_keeps_penalty_nonneg.
    - cbn. lra.
    - exact Hloop. }
  pose proof (acc_mean_nonneg _ Hs) as Hg.
  exists (acc_mean (st_gp_loss s)), (m_util out + 1 / 10 * acc_mean (st_gp_loss s)).
  unfold total_loss. rewrite Hgp.
  split; [reflexivity|]. split; [exact Hg|]. split; [reflexivity | lra].
Qed.

Lemma Davila_gradient_penalty_nonnegative_witness :
  exists out,
    Davila_loss example_mparam (example_cfg "socialplanner")
                identity_unnormalizer example_vtrainers
                (example_policy "socialplanner") (fun _ _ k => k) rich_batch
    = Some out /\
    exists g total,
      gp_loss out = Some g /\ 0 <= g /\
      total_loss true out = Some total /\ m_util out <= total.
Proof.
  eexists. split; [reflexivity|].
  exact (Davila_gradient_penalty_nonnegative example_mparam
           (example_cfg "socialplanner") identity_unnormalizer
           example_vtrainers (example_policy "socialplanner")
           (fun _ _ k => k) rich_batch _ eq_refl).
Defined.

(** X5.  Where capital is positive, the gradient penalty of a period charges an
    agent exactly when [tape.gradient(csmp_gp, k_cross)] is negative there,
    and then charges [- gradient * log(10) * k_cross]. *)
Theorem Davila_penalty_charges_decreasing_consumption :
  forall (tape_gradient : nat -> InputData R -> Tensor2 R -> Tensor2 R)
         (t : nat) (input_data : InputData R) (k : Tensor2 R)
         (i j : nat) (g x : R),
    entry (tape_gradient t input_data k) i j = Some g ->
    entry k i j = Some x ->
    0 < x ->
    exists p,
      entry (Davila_penalty tape_gradient t input_data k) i j = Some p /\
      0 <= p /\
      (p = 0 <-> 0 <= g) /\
      (g < 0 -> p = - g * log_10 * x).
Proof.
  intros tape_gradient t input_data k i j g x Hg Hx Hpos.
  unfold Davila_penalty. rewrite entry_map2, Hg, Hx.
  eexists; split; [reflexivity|]. cbn.
  pose proof log_10_pos as Hl.
  assert (Hlx : 0 < log_10 * x) by (apply Rmult_lt_0_compat; assumption).
  unfold Rmax. destruct (Rle_dec (- (g * log_10 * x)) 0) as [Hle|Hgt].
  - assert (0 <= g) by nra.
    split; [lra|]. split; [tauto | intros; lra].
  - assert (g < 0) by nra.
    split; [lra|]. split; [split; intros; nra | intros; ring].
Qed.

Lemma Davila_penalty_charges_decreasing_consumption_witness :
  entry ((fun _ _ (k : Tensor2 R) => k) 0%nat rich_batch (k_cross rich_batch))
        0 0 = Some 1 /\
  entry (k_cross rich_batch) 0 0 = Some 1 /\
  0 < 1 /\
  exists p,
    entry (Davila_penalty (fun _ _ k => k) 0 rich_batch (k_cross rich_batch))
          0 0 = Some p /\
    0 <= p /\ (p = 0 <-> 0 <= 1) /\ (1 < 0 -> p = - 1 * log_10 * 1).
Proof.
  split; [reflexivity|]. split; [reflexivity|]. split; [lra|].
  exact (Davila_penalty_charges_decreasing_consumption (fun _ _ k => k) 0
           rich_batch (k_cross rich_batch) 0 0 1 1 eq_refl eq_refl
           ltac:(lra)).
Defined.

(** ** Horizons of zero and one period, and the objective *)

Lemma game_is_not_socialplanner (cfg : Config) :
  is_game cfg = true -> is_socialplanner cfg = false.
Proof.
  unfold is_game, is_socialplanner. intros Hg.
  apply String.eqb_eq in Hg. rewrite Hg. reflexivity.
Qed.

(** X6.  With [t_unroll = 0] the loop body never runs and [util_sum] is still
    the Python integer [0]: under ["socialplanner"] the four losses return
    [m_util = -0] and the mean of the initial capital as [k_end]; under
    ["game"] the subscript [util_sum[:, 0]] raises in all four. *)
Theorem empty_horizon :
  forall (mparam : MParam) (cfg : Config)
         (normalize_data : Key -> Tensor3 R -> Tensor3 R)
         (unnormalize_data : Key -> Tensor2 R -> Tensor2 R)
         (vtrainers : list (FullState R -> Tensor3 R))
         (policy_fn : FullState R -> option (Tensor3 R))
         (tape_gradient : nat -> InputData R -> Tensor2 R -> Tensor2 R)
         (input_data : InputData R),
    t_unroll cfg = 0%nat ->
    (is_socialplanner cfg = true ->
     let plain := {| m_util := - 0; gp_loss := None;
                     k_end := reduce_mean (k_cross input_data) |} in
     KS_loss mparam cfg normalize_data unnormalize_data vtrainers policy_fn
             input_data = Some plain /\
     DavilaAS_loss mparam cfg normalize_data unnormalize_data vtrainers
                   policy_fn input_data = Some plain /\
     JFV_loss mparam cfg normalize_data unnormalize_data vtrainers policy_fn
              input_data = Some plain /\
     Davila_loss mparam cfg unnormalize_data vtrainers policy_fn tape_gradient
                 input_data
     = Some {| m_util := - 0; gp_loss := Some 0;
               k_end := reduce_mean (k_cross input_data) |})
    /\
    (is_game cfg = true ->
     KS_loss mparam cfg normalize_data unnormalize_data vtrainers policy_fn
             input_data = None /\
     DavilaAS_loss mparam cfg normalize_data unnormalize_data vtrainers
                   policy_fn input_data = None /\
     JFV_loss mparam cfg normalize_data unnormalize_data vtrainers policy_fn
              input_data = None /\
     Davila_loss mparam cfg unnormalize_data vtrainers policy_fn tape_gradient
                 input_data = None).
Proof.
  intros mparam cfg normalize_data unnormalize_data vtrainers policy_fn
         tape_gradient input_data HT.
  unfold KS_loss, DavilaAS_loss, JFV_loss, Davila_loss, output.
  rewrite HT. cbn [seq fold_left].
  split.
  - intros Hsp. rewrite Hsp. repeat split.
  - intros Hg. rewrite (game_is_not_socialplanner cfg Hg), Hg. repeat split.
Qed.

Lemma empty_horizon_witness :
  t_unroll {| t_unroll := 0; sgm_scale := 1; opt_type := "game";
              use_log_k := false; full_state := false; n_fm := 1; n_gm := 0;
              cfg_n_agt := 2 |} = 0%nat /\
  KS_loss example_mparam
          {| t_unroll := 0; sgm_scale := 1; opt_type := "game";
             use_log_k := false; full_state := false; n_fm := 1; n_gm := 0;
             cfg_n_agt := 2 |}
          identity_normalizer identity_unnormalizer example_vtrainers
          (example_policy "game") rich_batch = None.
Proof.
  split; [reflexivity|].
  exact (proj1 (proj2
           (empty_horizon example_mparam
              {| t_unroll := 0; sgm_scale := 1; opt_type := "game";
                 use_log_k := false; full_state := false; n_fm := 1;
                 n_gm := 0; cfg_n_agt := 2 |}
              identity_normalizer identity_unnormalizer example_vtrainers
              (example_policy "game") (fun _ _ k => k) rich_batch eq_refl)
           eq_refl)).
Defined.

Lemma first_period_terminal (cfg : Config) :
  t_unroll cfg = 1%nat -> is_terminal cfg 0 = true.
Proof. intros HT; unfold is_terminal; rewrite HT; reflexivity. Qed.

(** X7.  With [t_unroll = 1] the only period is the terminal one: the policy
    network is never evaluated, so the four losses do not depend on it, and
    the [k_end] they report is the mean of the initial capital. *)
Theorem one_period_horizon_never_calls_the_policy :
  forall (mparam : MParam) (cfg : Config)
         (normalize_data : Key -> Tensor3 R -> Tensor3 R)
         (unnormalize_data : Key -> Tensor2 R -> Tensor2 R)
         (vtrainers : list (FullState R -> Tensor3 R))
         (policy1 policy2 : FullState R -> option (Tensor3 R))
         (tape_gradient : nat -> InputData R -> Tensor2 R -> Tensor2 R)
         (input_data : InputData R),
    t_unroll cfg = 1%nat ->
    (KS_loss mparam cfg normalize_data unnormalize_data vtrainers policy1
             input_data
     = KS_loss mparam cfg normalize_data unnormalize_data vtrainers policy2
               input_data /\
     Davila_loss mparam cfg unnormalize_data vtrainers policy1 tape_gradient
                 input_data
     = Davila_loss mparam cfg unnormalize_data vtrainers policy2 tape_gradient
                   input_data /\
     DavilaAS_loss mparam cfg normalize_data unnormalize_data vtrainers
                   policy1 input_data
     = DavilaAS_loss mparam cfg normalize_data unnormalize_data vtrainers
                     policy2 input_data /\
     JFV_loss mparam cfg normalize_data unnormalize_data vtrainers policy1
              input_data
     = JFV_loss mparam cfg normalize_data unnormalize_data vtrainers policy2
                input_data)
    /\
    (forall out,
        KS_loss mparam cfg normalize_data unnormalize_data vtrainers policy1
                input_data = Some out \/
        Davila_loss mparam cfg unnormalize_data vtrainers policy1
                    tape_gradient input_data = Some out \/
        DavilaAS_loss mparam cfg normalize_data unnormalize_data vtrainers
                      policy1 input_data = Some out \/
        JFV_loss mparam cfg normalize_data unnormalize_data vtrainers policy1
                 input_data = Some out ->
        k_end out = reduce_mean (k_cross input_data)).
Proof.
  intros mparam cfg normalize_data unnormalize_data vtrainers policy1 policy2
         tape_gradient input_data HT.
  pose proof (first_period_terminal cfg HT) as Hterm.
  unfold KS_loss, Davila_loss, DavilaAS_loss, JFV_loss.
  rewrite HT. cbn [seq fold_left].
  unfold KS_body, Davila_body, DavilaAS_body, JFV_body. rewrite Hterm.
  split; [repeat split|].
  intros out Hout.
  destruct Hout as [H|[H|[H|H]]];
    destruct (terminal_value _ _ _) as [v|]; try discriminate;
    rewrite (output_k_end _ _ _ _ H); reflexivity.
Qed.

Lemma one_period_horizon_never_calls_the_policy_witness :
  t_unroll {| t_unroll := 1; sgm_scale := 1; opt_type := "socialplanner";
              use_log_k := false; full_state := false; n_fm := 1; n_gm := 0;
              cfg_n_agt := 2 |} = 1%nat /\
  KS_loss example_mparam
          {| t_unroll := 1; sgm_scale := 1; opt_type := "socialplanner";
             use_log_k := false; full_state := false; n_fm := 1; n_gm := 0;
             cfg_n_agt := 2 |}
          identity_normalizer identity_unnormalizer example_vtrainers
          (example_policy "socialplanner") rich_batch
  = KS_loss example_mparam
            {| t_unroll := 1; sgm_scale := 1; opt_type := "socialplanner";
               use_log_k := false; full_state := false; n_fm := 1; n_gm := 0;
               cfg_n_agt := 2 |}
            identity_normalizer identity_unnormalizer example_vtrainers
            (fun _ => None) rich_batch.
Proof.
  split; [reflexivity|].
  exact (proj1 (proj1
           (one_period_horizon_never_calls_the_policy example_mparam
              {| t_unroll := 1; sgm_scale := 1; opt_type := "socialplanner";
                 use_log_k := false; full_state := false; n_fm := 1;
                 n_gm := 0; cfg_n_agt := 2 |}
              identity_normalizer identity_unnormalizer example_vtrainers
              (example_policy "socialplanner") (fun _ => None)
              (fun _ _ k => k) rich_batch eq_refl))).
Defined.

(** ** An objective that is neither of the two known ones *)

(** X8.  With an [opt_type] that is neither ["socialplanner"] nor ["game"] the
    four losses never return: neither branch binds [output_dict], so the
    [return] raises, for every batch, policy and value network, and only
    after the whole loop has run. *)
Theorem unknown_objective_never_returns :
  forall (mparam : MParam) (cfg : Config)
         (normalize_data : Key -> Tensor3 R -> Tensor3 R)
         (unnormalize_data : Key -> Tensor2 R -> Tensor2 R)
         (vtrainers : list (FullState R -> Tensor3 R))
         (policy_fn : FullState R -> option (Tensor3 R))
         (tape_gradient : nat -> InputData R -> Tensor2 R -> Tensor2 R)
         (input_data : InputData R),
    is_socialplanner cfg = false -> is_game cfg = false ->
    KS_loss mparam cfg normalize_data unnormalize_data vtrainers policy_fn
            input_data = None /\
    Davila_loss mparam cfg unnormalize_data vtrainers policy_fn tape_gradient
                input_data = None /\
    DavilaAS_loss mparam cfg normalize_data unnormalize_data vtrainers
                  policy_fn input_data = None /\
    JFV_loss mparam cfg normalize_data unnormalize_data vtrainers policy_fn
             input_data = None.
Proof.
  intros mparam cfg normalize_data unnormalize_data vtrainers policy_fn
         tape_gradient input_data Hsp Hg.
  unfold KS_loss, Davila_loss, DavilaAS_loss, JFV_loss, output.
  rewrite Hsp, Hg.
  repeat split;
    match goal with
    | |- context [fold_left ?b ?ts ?i] => destruct (fold_left b ts i)
    end; reflexivity.
Qed.

Lemma unknown_objective_never_returns_witness :
  is_socialplanner (example_cfg "planner") = false /\
  is_game (example_cfg "planner") = false /\
  KS_loss example_mparam (example_cfg "planner") identity_normalizer
          identity_unnormalizer example_vtrainers (example_policy "planner")
          rich_batch = None.
Proof.
  split; [reflexivity|]. split; [reflexivity|].
  exact (proj1
           (unknown_objective_never_returns example_mparam
              (example_cfg "planner") identity_normalizer
              identity_unnormalizer example_vtrainers
              (example_policy "planner") (fun _ _ k => k) rich_batch
              eq_refl eq_refl)).
Defined.

(** ** The training loop: how many steps, when it fails, and the
    [update_init] flag *)

Lemma count_events_app (p : Event -> bool) (l1 l2 : list Event) :
  count_events p (l1 ++ l2) = (count_events p l1 + count_events p l2)%nat.
Proof. unfold count_events. rewrite filter_app, length_app. reflexivity. Qed.

Section Counting.
Variables Dataset Batch Shocks ValueDataset World : Type.
Variable tcfg : TrainConfig.
Variable num_vnet : nat.
Variable datadict : Batch.
Variable epoch_used : Dataset -> Z.
Variable next_batch : Z -> Dataset -> Batch * Dataset.
Variable simul_shocks : Z -> Batch -> World -> Shocks * World.
Variable with_shocks : Batch -> Shocks -> Batch.
Variable get_policydataset : bool -> World -> Dataset * World.
Variable apply_gradients : Batch -> World -> World.
Variable get_valuedataset : bool -> World -> ValueDataset * World.
Variable vtr_train : nat -> ValueDataset -> World -> World.
Variable p : Event -> bool.
Hypothesis Hkind : per_step_kind p.

Lemma runs_ret {X : Type} (x : X) : runs p 0 (ret Dataset World x).
Proof. intros s. exists x, s, []. split; reflexivity. Qed.

Lemma runs_emit (e : Event) : runs p (b2n (p e)) (emit Dataset World e).
Proof.
  intros s. exists tt, s, [e]. split; [reflexivity|].
  unfold count_events, b2n. cbn. destruct (p e); reflexivity.
Qed.

Lemma runs_get_ds : runs p 0 (get_ds Dataset World).
Proof. intros s. exists (policy_ds s), s, []. split; reflexivity. Qed.

Lemma runs_set_ds (d : Dataset) : runs p 0 (set_ds Dataset World d).
Proof. intros s. eexists; eexists; eexists. split; reflexivity. Qed.

Lemma runs_on_world {X : Type} (f : World -> X * World) :
  runs p 0 (on_world Dataset World f).
Proof.
  intros s. unfold on_world. destruct (f (world s)) as [x w].
  eexists; eexists; eexists. split; reflexivity.
Qed.

Lemma runs_bind {X Y : Type} (n k : nat) (m : M Dataset World X)
  (f : X -> M Dataset World Y) :
  runs p n m -> (forall x, runs p k (f x)) ->
  runs p (n + k) (bind Dataset World m f).
Proof.
  intros Hm Hf s. unfold bind.
  destruct (Hm s) as (x & s1 & l1 & E1 & C1). rewrite E1.
  destruct (Hf x s1) as (y & s2 & l2 & E2 & C2). rewrite E2.
  exists y, s2, (l1 ++ l2). split; [reflexivity|].
  rewrite count_events_app, C1, C2. reflexivity.
Qed.

Lemma runs_for_each {X S : Type} (n : nat) (xs : list X)
  (body : X -> S -> M Dataset World S) :
  (forall x acc, runs p n (body x acc)) ->
  forall acc, runs p (length xs * n) (for_each Dataset World xs body acc).
Proof.
  intros Hb; induction xs as [|x xs IH]; intros acc; cbn [for_each length].
  - apply runs_ret.
  - cbn [Nat.mul]. apply runs_bind; [apply Hb | exact IH].
Qed.

Lemma runs_eq {X : Type} (n k : nat) (m : M Dataset World X) :
  n = k -> runs p n m -> runs p k m.
Proof. intros ->; auto. Qed.

Lemma runs_sampler (batch_size : Z) (update_init : bool) :
  runs p (b2n (p (EvNextBatch batch_size))
          + b2n (p (EvSimulShocks batch_size)))
       (sampler Dataset Batch Shocks World tcfg epoch_used next_batch
                simul_shocks with_shocks get_policydataset
                batch_size update_init).
Proof.
  unfold sampler.
  eapply runs_eq; [|apply runs_bind; [apply runs_get_ds | intros d]].
  2:{ apply runs_bind; [apply runs_emit | intros _].
      destruct (next_batch batch_size d) as [train_data d'].
      apply runs_bind; [apply runs_set_ds | intros _].
      apply runs_bind; [apply runs_emit | intros _].
      apply runs_bind; [apply runs_on_world | intros shocks].
      apply runs_bind; [apply runs_get_ds | intros d''].
      apply (runs_bind 0 0); [|intros _; apply runs_ret].
      destruct (epoch_used d'' >? epoch_resample tcfg)%Z; [|apply runs_ret].
      unfold update_policydataset.
      eapply runs_eq; [|apply runs_bind; [apply runs_emit | intros _]].
      2:{ apply (runs_bind 0 0); [apply runs_on_world | intros d3; apply runs_set_ds]. }
      rewrite (Hkind (EvUpdatePolicyDataset update_init)) by (left; reflexivity).
      reflexivity. }
  lia.
Qed.

Hypothesis Hdue :
  String.eqb (value_sampling tcfg) "bchmk" = true \/ freq_update_v tcfg <> 0%Z.

Lemma runs_retrain_due (n_step : Z) :
  runs p 0 (retrain_due Dataset World tcfg n_step).
Proof.
  unfold retrain_due.
  destruct (String.eqb (value_sampling tcfg) "bchmk") eqn:Hv; cbn [negb];
    [apply runs_ret|].
  destruct Hdue as [Hb|Hf]; [discriminate|].
  apply Z.eqb_neq in Hf. rewrite Hf. apply runs_ret.
Qed.

Lemma runs_retrain_values (n_step : Z) :
  runs p 0 (retrain_values Dataset ValueDataset World tcfg num_vnet
                           get_valuedataset vtr_train n_step).
Proof.
  unfold retrain_values.
  eapply runs_eq; [|apply runs_bind; [apply runs_emit | intros _]].
  2:{ apply (runs_bind 0); [apply runs_on_world | intros vds].
      apply runs_bind; [|intros _; apply runs_ret].
      apply runs_for_each. intros vtr [].
      eapply runs_eq; [|apply runs_bind; [apply runs_emit | intros _; apply runs_on_world]].
      rewrite (Hkind (EvValueTrain n_step vtr)) by (right; reflexivity).
      reflexivity. }
  rewrite (Hkind (EvGetValueDataset n_step (cfg_update_init tcfg)))
    by (right; reflexivity).
  cbn. lia.
Qed.


Lemma runs_inner_step (batch_size n step : Z) (update_init : bool) :
  runs p (step_events p batch_size)
       (inner_step Dataset Batch Shocks ValueDataset World tcfg num_vnet
          epoch_used next_batch simul_shocks with_shocks get_policydataset
          apply_gradients get_valuedataset vtr_train
          batch_size n step update_init).
Proof.
  unfold inner_step, step_events.
  eapply runs_eq; [|apply runs_bind; [apply runs_sampler | intros train_data]].
  2:{ apply runs_bind.
      - unfold train_step.
        apply runs_bind; [apply runs_emit | intros _; apply runs_on_world].
      - intros _. apply (runs_bind 0 0); [apply runs_retrain_due | intros due].
        destruct due; [apply runs_retrain_values | apply runs_ret]. }
  lia.
Qed.

Lemma length_range (n : Z) : length (range n) = Z.to_nat n.
Proof. unfold range. rewrite length_map, length_seq. reflexivity. Qed.

Lemma runs_train (num_step batch_size : Z) :
  lr_beg tcfg <> 0 ->
  (batch_size <= valid_size tcfg)%Z ->
  freq_valid tcfg <> 0%Z ->
  runs p (b2n (p (EvSimulShocks (valid_size tcfg)))
          + Z.to_nat (num_step / freq_valid tcfg)
            * (Z.to_nat (freq_valid tcfg) * step_events p batch_size
               + b2n (p EvValidLoss)))
       (train Dataset Batch Shocks ValueDataset World tcfg num_vnet datadict
              epoch_used next_batch simul_shocks with_shocks get_policydataset
              apply_gradients get_valuedataset vtr_train num_step batch_size).
Proof.
  intros Hlr Hb Hfv. unfold train.
  destruct (Req_dec_T (lr_beg tcfg) 0) as [E|_]; [contradiction|].
  apply Z.leb_le in Hb. rewrite Hb.
  apply Z.eqb_neq in Hfv. rewrite Hfv.
  apply (runs_bind 0); [apply runs_ret | intros _].
  apply (runs_bind 0); [apply runs_ret | intros _].
  apply runs_bind; [apply runs_emit | intros _].
  apply (runs_bind 0); [apply runs_on_world | intros _].
  apply (runs_bind 0); [apply runs_ret | intros _].
  eapply runs_eq; [|apply runs_bind; [|intros _; apply runs_ret]].
  2:{ apply runs_for_each. intros n update_init. unfold epoch.
      apply runs_bind.
      - apply runs_for_each. intros step u. apply runs_inner_step.
      - intros u. apply runs_bind; [apply runs_emit | intros _; apply runs_ret]. }
  rewrite !length_range, !Nat.add_0_r. reflexivity.
Qed.
End Counting.

Section Failing.
Variables Dataset Batch Shocks ValueDataset World : Type.
Variable tcfg : TrainConfig.
Variable num_vnet : nat.
Variable datadict : Batch.
Variable epoch_used : Dataset -> Z.
Variable next_batch : Z -> Dataset -> Batch * Dataset.
Variable simul_shocks : Z -> Batch -> World -> Shocks * World.
Variable with_shocks : Batch -> Shocks -> Batch.
Variable get_policydataset : bool -> World -> Dataset * World.
Variable apply_gradients : Batch -> World -> World.
Variable get_valuedataset : bool -> World -> ValueDataset * World.
Variable vtr_train : nat -> ValueDataset -> World -> World.
Variable p : Event -> bool.

Local Abbreviation train_ :=
  (train Dataset Batch Shocks ValueDataset World tcfg num_vnet datadict
         epoch_used next_batch simul_shocks with_shocks get_policydataset
         apply_gradients get_valuedataset vtr_train).

Lemma fails_raise {X : Type} (e : Exception) :
  fails p e 0 (@raise Dataset World X e).
Proof. intros s. exists s, []. split; reflexivity. Qed.

Lemma fails_bind_l {X Y : Type} (e : Exception) (n : nat)
  (m : M Dataset World X) (f : X -> M Dataset World Y) :
  fails p e n m -> fails p e n (bind Dataset World m f).
Proof.
  intros Hm s. unfold bind. destruct (Hm s) as (s1 & l1 & E1 & C1).
  rewrite E1. exists s1, l1. split; [reflexivity | exact C1].
Qed.

Lemma fails_bind_r {X Y : Type} (e : Exception) (n k : nat)
  (m : M Dataset World X) (f : X -> M Dataset World Y) :
  runs p n m -> (forall x, fails p e k (f x)) ->
  fails p e (n + k) (bind Dataset World m f).
Proof.
  intros Hm Hf s. unfold bind.
  destruct (Hm s) as (x & s1 & l1 & E1 & C1). rewrite E1.
  destruct (Hf x s1) as (s2 & l2 & E2 & C2). rewrite E2.
  exists s2, (l1 ++ l2). split; [reflexivity|].
  rewrite count_events_app, C1, C2. reflexivity.
Qed.

Lemma range_pos (n : Z) :
  (0 < n)%Z -> exists rest, range n = 0%Z :: rest.
Proof.
  intros Hn. unfold range.
  destruct (Z.to_nat n) as [|k] eqn:E; [lia|].
  cbn. eexists; reflexivity.
Qed.

Lemma fails_eq {X : Type} (e : Exception) (n k : nat) (m : M Dataset World X) :
  n = k -> fails p e n m -> fails p e k m.
Proof. intros ->; auto. Qed.

Hypothesis Hkind : per_step_kind p.

(** With [freq_valid = 0] the division [num_step // freq_valid] raises. *)
Lemma train_freq_valid_zero (num_step batch_size : Z) :
  lr_beg tcfg <> 0 ->
  (batch_size <= valid_size tcfg)%Z ->
  freq_valid tcfg = 0%Z ->
  fails p ZeroDivisionError (b2n (p (EvSimulShocks (valid_size tcfg))))
        (train_ num_step batch_size).
Proof.
  intros Hlr Hb Hfv. unfold train.
  destruct (Req_dec_T (lr_beg tcfg) 0) as [E|_]; [contradiction|].
  apply Z.leb_le in Hb. rewrite Hb. rewrite Hfv. cbn [Z.eqb].
  apply (fails_bind_r _ 0); [apply runs_ret | intros _].
  apply (fails_bind_r _ 0); [apply runs_ret | intros _].
  eapply fails_eq; [|apply fails_bind_r; [apply runs_emit | intros _]].
  2:{ apply (fails_bind_r _ 0 0); [apply runs_on_world | intros _].
      apply fails_bind_l. apply fails_raise. }
  rewrite Nat.add_0_r. reflexivity.
Qed.

(** With [freq_update_v = 0] and a value sampling other than ["bchmk"],
    the test [n_step % freq_update_v == 0] raises at the first step, after
    the batch was drawn and the optimiser update applied. *)
Lemma train_freq_update_zero (num_step batch_size : Z) :
  lr_beg tcfg <> 0 ->
  (batch_size <= valid_size tcfg)%Z ->
  (0 < freq_valid tcfg <= num_step)%Z ->
  String.eqb (value_sampling tcfg) "bchmk" = false ->
  freq_update_v tcfg = 0%Z ->
  fails p ZeroDivisionError
        (b2n (p (EvSimulShocks (valid_size tcfg))) + step_events p batch_size)
        (train_ num_step batch_size).
Proof.
  intros Hlr Hb Hfv Hvs Hfu. unfold train.
  destruct (Req_dec_T (lr_beg tcfg) 0) as [E|_]; [contradiction|].
  apply Z.leb_le in Hb. rewrite Hb.
  assert (Hne : (freq_valid tcfg =? 0)%Z = false) by (apply Z.eqb_neq; lia).
  rewrite Hne.
  destruct (range_pos (num_step / freq_valid tcfg)) as [ns Ens].
  { apply Z.div_str_pos; lia. }
  destruct (range_pos (freq_valid tcfg)) as [steps Esteps]; [lia|].
  rewrite Ens. cbn [for_each].
  apply (fails_bind_r _ 0); [apply runs_ret | intros _].
  apply (fails_bind_r _ 0); [apply runs_ret | intros _].
  apply fails_bind_r; [apply runs_emit | intros _].
  apply (fails_bind_r _ 0); [apply runs_on_world | intros _].
  apply (fails_bind_r _ 0); [apply runs_ret | intros _].
  apply fails_bind_l. apply fails_bind_l.
  unfold epoch. rewrite Esteps. cbn [for_each].
  apply fails_bind_l. apply fails_bind_l.
  unfold inner_step, step_events.
  eapply fails_eq; [|apply fails_bind_r;
                     [apply (runs_sampler Dataset Batch Shocks World tcfg
                               epoch_used next_batch simul_shocks with_shocks
                               get_policydataset p Hkind)
                     | intros train_data]].
  2:{ apply fails_bind_r.
      - unfold train_step.
        apply runs_bind; [apply runs_emit | intros _; apply runs_on_world].
      - intros _. apply fails_bind_l. unfold retrain_due.
        rewrite Hvs, Hfu. cbn [negb Z.eqb]. apply fails_raise. }
  rewrite !Nat.add_0_r. reflexivity.
Qed.
End Failing.

Lemma per_step_kind_intro (p : Event -> bool) :
  (forall e, p e = true ->
             is_regeneration e = false /\ is_retraining e = false) ->
  per_step_kind p.
Proof.
  intros Hp e He. destruct (p e) eqn:E; [|reflexivity].
  apply Hp in E. destruct E as [E1 E2]. rewrite E1, E2 in He.
  destruct He; discriminate.
Qed.

Lemma train_step_per_step : per_step_kind is_train_step.
Proof.
  apply per_step_kind_intro.
  intros [] He; try discriminate; split; reflexivity.
Qed.

Lemma next_batch_per_step : per_step_kind is_next_batch.
Proof.
  apply per_step_kind_intro.
  intros [] He; try discriminate; split; reflexivity.
Qed.

Lemma simul_shocks_per_step : per_step_kind is_simul_shocks.
Proof.
  apply per_step_kind_intro.
  intros [] He; try discriminate; split; reflexivity.
Qed.

Lemma valid_loss_per_step : per_step_kind is_valid_loss.
Proof.
  apply per_step_kind_intro.
  intros [] He; try discriminate; split; reflexivity.
Qed.

Section TrainRuns.
Variables Dataset Batch Shocks ValueDataset World : Type.
Variable tcfg : TrainConfig.
Variable num_vnet : nat.
Variable datadict : Batch.
Variable epoch_used : Dataset -> Z.
Variable next_batch : Z -> Dataset -> Batch * Dataset.
Variable simul_shocks : Z -> Batch -> World -> Shocks * World.
Variable with_shocks : Batch -> Shocks -> Batch.
Variable get_policydataset : bool -> World -> Dataset * World.
Variable apply_gradients : Batch -> World -> World.
Variable get_valuedataset : bool -> World -> ValueDataset * World.
Variable vtr_train : nat -> ValueDataset -> World -> World.

Local Abbreviation train_ :=
  (train Dataset Batch Shocks ValueDataset World tcfg num_vnet datadict
         epoch_used next_batch simul_shocks with_shocks get_policydataset
         apply_gradients get_valuedataset vtr_train).



(** X11.  With [freq_valid = 0] (and the two earlier checks passed)
    [train] raises [ZeroDivisionError] at [num_step // freq_valid]: the
    validation shocks have been simulated by then, and nothing else was
    called; no batch is drawn and no update applied. *)
Theorem zero_validation_frequency_fails_before_training
  (num_step batch_size : Z) (s : Trainer Dataset World) :
  lr_beg tcfg <> 0 ->
  (batch_size <= valid_size tcfg)%Z ->
  freq_valid tcfg = 0%Z ->
  exists s',
    train_ num_step batch_size s
    = (Raise ZeroDivisionError, s', [EvSimulShocks (valid_size tcfg)]) /\
    policy_ds s' = policy_ds s.
Proof.
  intros Hlr Hb Hfv. unfold train, bind.
  destruct (Req_dec_T (lr_beg tcfg) 0) as [E|_]; [contradiction|].
  apply Z.leb_le in Hb. rewrite Hb, Hfv. cbn.
  unfold on_world. cbn.
  destruct (simul_shocks (valid_size tcfg) datadict (world s)) as [sh w].
  cbn. eexists. split; reflexivity.
Qed.
End TrainRuns.



Lemma zero_validation_frequency_fails_before_training_witness :
  exists s',
    example_train_with 0 3 4 2 (example_trainer 0)
    = (Raise ZeroDivisionError, s',
       [EvSimulShocks (valid_size (example_tcfg_with 0 3))]) /\
    policy_ds s' = policy_ds (example_trainer 0).
Proof.
  unfold example_train_with.
  apply zero_validation_frequency_fails_before_training.
  - cbn. lra.
  - cbn. lia.
  - reflexivity.
Defined.

Lemma regenerations_ok_app (c r : bool) (l1 l2 : list Event) :
  regenerations_ok c r (l1 ++ l2)
  = regenerations_ok c r l1 && regenerations_ok c (r || retrained_in l1) l2.
Proof.
  revert r; induction l1 as [|e l1 IH]; intros r; cbn.
  - rewrite orb_false_r. reflexivity.
  - destruct e; cbn; rewrite ?IH, ?orb_true_r, ?andb_assoc; reflexivity.
Qed.

Lemma retrained_in_app (l1 l2 : list Event) :
  retrained_in (l1 ++ l2) = retrained_in l1 || retrained_in l2.
Proof. apply existsb_app. Qed.

Lemma regenerations_ok_split (c r : bool) (l1 l2 : list Event) :
  regenerations_ok c r (l1 ++ EvUpdatePolicyDataset true :: l2) = true ->
  c = true /\ r || retrained_in l1 = true.
Proof.
  rewrite regenerations_ok_app. cbn. intros Hok.
  apply andb_true_iff in Hok. destruct Hok as [_ Hok].
  apply andb_true_iff in Hok. destruct Hok as [Hok _].
  apply andb_true_iff in Hok. destruct Hok as [Hr Hc]. split; assumption.
Qed.


Section Flag.
Variables Dataset Batch Shocks ValueDataset World : Type.
Variable tcfg : TrainConfig.
Variable num_vnet : nat.
Variable datadict : Batch.
Variable epoch_used : Dataset -> Z.
Variable next_batch : Z -> Dataset -> Batch * Dataset.
Variable simul_shocks : Z -> Batch -> World -> Shocks * World.
Variable with_shocks : Batch -> Shocks -> Batch.
Variable get_policydataset : bool -> World -> Dataset * World.
Variable apply_gradients : Batch -> World -> World.
Variable get_valuedataset : bool -> World -> ValueDataset * World.
Variable vtr_train : nat -> ValueDataset -> World -> World.

Local Abbreviation train_ :=
  (train Dataset Batch Shocks ValueDataset World tcfg num_vnet datadict
         epoch_used next_batch simul_shocks with_shocks get_policydataset
         apply_gradients get_valuedataset vtr_train).
Local Abbreviation c := (cfg_update_init tcfg).

Lemma tracks_ret {X : Type} (r : bool) (Q : X -> bool -> Prop) (x : X) :
  Q x r -> tracks c r Q (ret Dataset World x).
Proof.
  intros Hq s. cbn. split; [reflexivity|].
  intros y E; inversion E; subst. rewrite orb_false_r. exact Hq.
Qed.

Lemma tracks_raise {X : Type} (r : bool) (Q : X -> bool -> Prop)
  (e : Exception) : tracks c r Q (@raise Dataset World X e).
Proof. intros s. cbn. split; [reflexivity|]. intros y E; inversion E. Qed.

Lemma tracks_quiet {X : Type} (r : bool) (m : M Dataset World X) :
  (forall s, snd (m s) = []) -> tracks c r (fun _ r' => r' = r) m.
Proof.
  intros Hm s. rewrite Hm. cbn. split; [reflexivity|].
  intros x _. apply orb_false_r.
Qed.

Lemma tracks_emit (r : bool) (e : Event) :
  is_regeneration e = false -> is_get_valuedataset e = false ->
  tracks c r (fun _ r' => r' = r) (emit Dataset World e).
Proof.
  intros H1 H2 s. cbn. split.
  - destruct e; try discriminate; reflexivity.
  - intros _ _. rewrite H2. cbn. apply orb_false_r.
Qed.

Lemma tracks_bind {X Y : Type} (r : bool) (Q : X -> bool -> Prop)
  (Q' : Y -> bool -> Prop) (m : M Dataset World X)
  (k : X -> M Dataset World Y) :
  tracks c r Q m ->
  (forall x r', Q x r' -> tracks c r' Q' (k x)) ->
  tracks c r Q' (bind Dataset World m k).
Proof.
  intros Hm Hk s. unfold bind.
  destruct (Hm s) as [Hlog Hq].
  destruct (m s) as [[res s1] log1]. cbn [fst snd] in *.
  destruct res as [x|e].
  - specialize (Hk x _ (Hq x eq_refl) s1).
    destruct Hk as [Hlog2 Hq2].
    destruct (k x s1) as [[res2 s2] log2]. cbn [fst snd] in *.
    split.
    + rewrite regenerations_ok_app, Hlog, Hlog2. reflexivity.
    + intros y E. rewrite retrained_in_app, orb_assoc. apply Hq2, E.
  - cbn [fst snd]. split; [exact Hlog | intros y E; inversion E].
Qed.

Lemma tracks_same {X Y : Type} (r : bool) (Q' : Y -> bool -> Prop)
  (m : M Dataset World X) (k : X -> M Dataset World Y) :
  tracks c r (fun _ r' => r' = r) m ->
  (forall x, tracks c r Q' (k x)) ->
  tracks c r Q' (bind Dataset World m k).
Proof.
  intros Hm Hk. eapply tracks_bind; [exact Hm|].
  intros x r' ->. apply Hk.
Qed.

Lemma tracks_for_each {X S : Type} (I : S -> bool -> Prop) (xs : list X)
  (body : X -> S -> M Dataset World S) :
  (forall x acc r, I acc r -> tracks c r I (body x acc)) ->
  forall acc r, I acc r -> tracks c r I (for_each Dataset World xs body acc).
Proof.
  intros Hb; induction xs as [|x xs IH]; intros acc r Hacc; cbn [for_each].
  - apply tracks_ret, Hacc.
  - eapply tracks_bind; [apply Hb, Hacc|]. intros acc' r' H'. apply IH, H'.
Qed.

Lemma tracks_on_world {X : Type} (r : bool) (f : World -> X * World) :
  tracks c r (fun _ r' => r' = r) (on_world Dataset World f).
Proof.
  apply tracks_quiet. intros s. unfold on_world.
  destruct (f (world s)); reflexivity.
Qed.

Lemma tracks_sampler (r : bool) (batch_size : Z) (update_init : bool) :
  flag_ok c update_init r ->
  tracks c r (fun _ r' => r' = r)
    (sampler Dataset Batch Shocks World tcfg epoch_used next_batch
             simul_shocks with_shocks get_policydataset
             batch_size update_init).
Proof.
  intros Hflag. unfold sampler.
  apply tracks_same; [apply tracks_quiet; reflexivity | intros d].
  apply tracks_same; [apply tracks_emit; reflexivity | intros _].
  destruct (next_batch batch_size d) as [train_data d'].
  apply tracks_same; [apply tracks_quiet; reflexivity | intros _].
  apply tracks_same; [apply tracks_emit; reflexivity | intros _].
  apply tracks_same; [apply tracks_on_world | intros shocks].
  apply tracks_same; [apply tracks_quiet; reflexivity | intros d''].
  apply tracks_same; [|intros _; apply tracks_ret; reflexivity].
  destruct (epoch_used d'' >? epoch_resample tcfg)%Z;
    [|apply tracks_ret; reflexivity].
  unfold update_policydataset.
  apply tracks_same.
  - intros s. cbn. unfold flag_ok in Hflag. rewrite Hflag. cbn.
    split; [reflexivity | intros _ _; apply orb_false_r].
  - intros _. apply tracks_same; [apply tracks_on_world | intros d3].
    apply tracks_quiet; reflexivity.
Qed.

Lemma tracks_retrain_due (r : bool) (n_step : Z) :
  tracks c r (fun _ r' => r' = r) (retrain_due Dataset World tcfg n_step).
Proof.
  apply tracks_quiet. intros s. unfold retrain_due.
  destruct (negb _); [|reflexivity].
  destruct (freq_update_v tcfg =? 0)%Z; reflexivity.
Qed.

Lemma tracks_retrain_values (r : bool) (n_step : Z) :
  tracks c r (fun u r' => flag_ok c u r')
    (retrain_values Dataset ValueDataset World tcfg num_vnet
                    get_valuedataset vtr_train n_step).
Proof.
  unfold retrain_values.
  apply (tracks_bind r (fun _ r' => r' = true)).
  { intros s. cbn. split; [reflexivity | intros _ _; apply orb_true_r]. }
  intros _ r' ->.
  apply tracks_same; [apply tracks_on_world | intros vds].
  apply tracks_same.
  - apply (tracks_for_each (fun _ r' => r' = true)); [|reflexivity].
    intros vtr [] r' ->.
    apply tracks_same; [apply tracks_emit; reflexivity | intros _].
    apply tracks_on_world.
  - intros _. apply tracks_ret. unfold flag_ok. destruct c; reflexivity.
Qed.

Lemma tracks_inner_step (r : bool) (batch_size n step : Z)
  (update_init : bool) :
  flag_ok c update_init r ->
  tracks c r (flag_ok c)
    (inner_step Dataset Batch Shocks ValueDataset World tcfg num_vnet
       epoch_used next_batch simul_shocks with_shocks get_policydataset
       apply_gradients get_valuedataset vtr_train
       batch_size n step update_init).
Proof.
  intros Hflag. unfold inner_step.
  apply tracks_same; [apply tracks_sampler, Hflag | intros train_data].
  apply tracks_same.
  { unfold train_step.
    apply tracks_same; [apply tracks_emit; reflexivity | intros _].
    apply tracks_on_world. }
  intros _.
  apply tracks_same; [apply tracks_retrain_due | intros due].
  destruct due; [apply tracks_retrain_values | apply tracks_ret, Hflag].
Qed.

Lemma tracks_train (num_step batch_size : Z) :
  tracks c false (fun _ _ => True) (train_ num_step batch_size).
Proof.
  unfold train.
  apply tracks_same;
    [destruct (Req_dec_T (lr_beg tcfg) 0);
     [apply tracks_raise | apply tracks_ret; reflexivity]
    | intros _].
  apply tracks_same;
    [destruct (batch_size <=? valid_size tcfg)%Z;
     [apply tracks_ret; reflexivity | apply tracks_raise]
    | intros _].
  apply tracks_same; [apply tracks_emit; reflexivity | intros _].
  apply tracks_same; [apply tracks_on_world | intros _].
  apply tracks_same;
    [destruct (freq_valid tcfg =? 0)%Z;
     [apply tracks_raise | apply tracks_ret; reflexivity]
    | intros _].
  apply (tracks_bind false (flag_ok c));
    [|intros; apply tracks_ret; exact I].
  apply (tracks_for_each (flag_ok c)); [|reflexivity].
  intros n update_init r Hflag. unfold epoch.
  apply (tracks_bind r (flag_ok c)).
  - apply (tracks_for_each (flag_ok c)); [|exact Hflag].
    intros step u r' Hu. apply tracks_inner_step, Hu.
  - intros u r' Hu.
    apply tracks_same; [apply tracks_emit; reflexivity | intros _].
    apply tracks_ret, Hu.
Qed.

(** X12.  The [update_init] flag of [train] starts as [False] and is
    set, to the configured [update_init], only by a retraining of the value
    trainers.  So whenever a run of [train] regenerates the policy dataset
    with [update_init = True], the configured flag is [True] and the value
    trainers were retrained earlier in that run. *)
Theorem regeneration_with_update_init_follows_retraining
  (num_step batch_size : Z) (s : Trainer Dataset World)
  (l1 l2 : list Event) :
  snd (train_ num_step batch_size s)
  = l1 ++ EvUpdatePolicyDataset true :: l2 ->
  cfg_update_init tcfg = true /\
  exists n_step u, In (EvGetValueDataset n_step u) l1.
Proof.
  intros Hlog.
  destruct (tracks_train num_step batch_size s) as [Hok _].
  rewrite Hlog in Hok. apply regenerations_ok_split in Hok.
  destruct Hok as [Hc Hr]. split; [exact Hc|].
  cbn [orb] in Hr. apply existsb_exists in Hr.
  destruct Hr as (e & Hin & He). destruct e; try discriminate.
  eexists; eexists; exact Hin.
Qed.
End Flag.

Lemma example_train_log_six_steps :
  snd (example_train 6 2 (example_trainer 0))
  = [EvSimulShocks 4;
     EvNextBatch 2; EvSimulShocks 2; EvTrainStep;
     EvNextBatch 2; EvSimulShocks 2; EvUpdatePolicyDataset false; EvTrainStep;
     EvValidLoss;
     EvNextBatch 2; EvSimulShocks 2; EvTrainStep;
     EvNextBatch 2; EvSimulShocks 2; EvUpdatePolicyDataset false; EvTrainStep;
     EvGetValueDataset 3 true; EvValueTrain 3 0;
     EvValidLoss;
     EvNextBatch 2; EvSimulShocks 2; EvTrainStep;
     EvNextBatch 2; EvSimulShocks 2]
    ++ EvUpdatePolicyDataset true :: [EvTrainStep; EvValidLoss].
Proof.
  unfold example_train, train, bind.
  destruct (Req_dec_T (lr_beg example_tcfg) 0) as [Hz|Hnz];
    [cbn in Hz; lra|].
  vm_compute. reflexivity.
Qed.

Lemma regeneration_with_update_init_follows_retraining_witness :
  cfg_update_init example_tcfg = true /\
  exists n_step u,
    In (EvGetValueDataset n_step u)
       [EvSimulShocks 4;
        EvNextBatch 2; EvSimulShocks 2; EvTrainStep;
        EvNextBatch 2; EvSimulShocks 2; EvUpdatePolicyDataset false;
        EvTrainStep;
        EvValidLoss;
        EvNextBatch 2; EvSimulShocks 2; EvTrainStep;
        EvNextBatch 2; EvSimulShocks 2; EvUpdatePolicyDataset false;
        EvTrainStep;
        EvGetValueDataset 3 true; EvValueTrain 3 0;
        EvValidLoss;
        EvNextBatch 2; EvSimulShocks 2; EvTrainStep;
        EvNextBatch 2; EvSimulShocks 2].
Proof.
  exact (regeneration_with_update_init_follows_retraining
           Z unit unit unit unit example_tcfg 1 tt
           (fun d => d) (fun _ d => (tt, (d + 1)%Z))
           (fun _ _ w => (tt, w)) (fun b _ => b) (fun _ w => (0%Z, w))
           (fun _ w => w) (fun _ w => (tt, w)) (fun _ _ w => w)
           6 2 (example_trainer 0) _ _ example_train_log_six_steps).
Defined.

(** ** The state the networks see *)

Lemma log_k_factor {A B : Type} (g : A -> B) (b : Tensor3 A) :
  map (map (fun row => map g (firstn 1 row))) b
  = map (map (map g)) (map (map (firstn 1)) b).
Proof.
  rewrite map_map. apply map_ext. intros block.
  rewrite map_map. reflexivity.
Qed.

(** X13.  With [use_log_k], with [full_state], or with [n_fm = 0],
    [prepare_state] never reads feature 1 of [basic_s], the mean capital the
    caller supplies: two inputs that agree on [agt_s] and on the other
    features of [basic_s] give the same state, so [policy_fn] returns the same
    shares.  (Under [use_log_k] the feature is recomputed as the mean of the
    logarithms; the other two modes drop it.) *)
Theorem prepare_state_ignores_the_supplied_mean :
  forall {A : Type} `{Scalar A} (cfg : Config)
         (model gm_model : Tensor3 A -> Tensor3 A) (x y : FullState A),
    use_log_k cfg = true \/ full_state cfg = true \/ n_fm cfg = 0%Z ->
    same_but_supplied_mean x y ->
    prepare_state cfg gm_model x = prepare_state cfg gm_model y /\
    policy_fn cfg model gm_model x = policy_fn cfg model gm_model y.
Proof.
  intros A HA cfg model gm_model [bx ax] [b_y ay] Hcfg (Ha & H1 & H2).
  cbn [basic_s agt_s] in *. subst ay.
  assert (E : prepare_state cfg gm_model {| basic_s := bx; agt_s := ax |}
              = prepare_state cfg gm_model {| basic_s := b_y; agt_s := ax |}).
  { unfold prepare_state. cbn [basic_s agt_s].
    destruct (use_log_k cfg) eqn:Hlog.
    - rewrite !log_k_factor, H1, H2. reflexivity.
    - destruct Hcfg as [Hc|[Hc|Hc]]; [discriminate| |].
      + rewrite Hc, H1, H2. reflexivity.
      + rewrite Hc. cbn [Z.eqb]. rewrite H1, H2.
        destruct (full_state cfg); reflexivity. }
  split; [exact E|]. unfold policy_fn. rewrite E. reflexivity.
Qed.

Lemma prepare_state_ignores_the_supplied_mean_witness :
  n_fm example_cfg_without_mean = 0%Z /\
  same_but_supplied_mean (example_state 2) (example_state 5) /\
  prepare_state example_cfg_without_mean (fun x => x) (example_state 2)
  = prepare_state example_cfg_without_mean (fun x => x) (example_state 5).
Proof.
  split; [reflexivity|].
  assert (Hsame : same_but_supplied_mean (example_state 2) (example_state 5))
    by (repeat split).
  split; [exact Hsame|].
  exact (proj1 (prepare_state_ignores_the_supplied_mean
                  example_cfg_without_mean zero_net (fun x => x)
                  (example_state 2) (example_state 5)
                  (or_intror (or_intror eq_refl)) Hsame)).
Defined.

(** ** The value networks of the terminal period *)

Lemma map2_map_swap {X Y : Type} (f : Y -> Y -> X) (h : Y -> Y)
  (xs ys : list Y) :
  (forall x y, f (h x) y = f (h y) x) ->
  map2 f (map h xs) ys = map2 f (map h ys) xs.
Proof.
  intros Hf; revert ys; induction xs as [|x xs IH]; intros [|y ys];
    cbn; try reflexivity.
  rewrite Hf, IH. reflexivity.
Qed.

Lemma map2_map2_swap {X : Type} (f : X -> X -> X) (ts xs ys : list X) :
  (forall t x y, f (f t x) y = f (f t y) x) ->
  map2 f (map2 f ts xs) ys = map2 f (map2 f ts ys) xs.
Proof.
  intros Hf; revert xs ys; induction ts as [|t ts IH];
    intros [|x xs] [|y ys]; cbn; try reflexivity.
  rewrite Hf, IH. reflexivity.
Qed.

Lemma acc_add_swap (a : Acc R) (x y : Tensor2 R) :
  acc_add (acc_add a (Tn x)) (Tn y) = acc_add (acc_add a (Tn y)) (Tn x).
Proof.
  destruct a as [c|t]; cbn; f_equal.
  - apply map2_map_swap. intros r1 r2.
    apply map2_map_swap. intros u v. cbn. ring.
  - apply map2_map2_swap. intros r0 r1 r2.
    apply map2_map2_swap. intros u v w. cbn. ring.
Qed.

Lemma fold_left_permutation {S T : Type} (g : S -> T -> S) (l l' : list T) :
  (forall a x y, g (g a x) y = g (g a y) x) ->
  Permutation l l' -> forall a, fold_left g l a = fold_left g l' a.
Proof.
  intros Hg Hp; induction Hp; intros a; cbn.
  - reflexivity.
  - apply IHHp.
  - rewrite Hg. reflexivity.
  - rewrite IHHp1. apply IHHp2.
Qed.

Lemma traverse_some_iff {X Y : Type} (f : X -> option Y) (l : list X)
  (ys : list Y) :
  traverse f l = Some ys <-> map f l = map Some ys.
Proof.
  revert ys; induction l as [|x l IH]; intros ys; cbn.
  - split.
    + intros E; inversion E; reflexivity.
    + destruct ys; [reflexivity | discriminate].
  - destruct (f x) as [y|].
    + destruct (traverse f l) as [ys0|].
      * split.
        -- intros E; inversion E; subst. cbn. f_equal. apply IH. reflexivity.
        -- destruct ys as [|y1 ys1]; [discriminate|]. cbn. intros E.
           inversion E; subst. f_equal. f_equal.
           apply IH in H1. inversion H1; reflexivity.
      * split; [discriminate|].
        destruct ys as [|y1 ys1]; [discriminate|]. cbn. intros E.
        inversion E; subst. apply IH in H1. discriminate.
    + split; [discriminate|].
      destruct ys as [|y1 ys1]; discriminate.
Qed.

Lemma traverse_permutation {X Y : Type} (f : X -> option Y) (l l' : list X)
  (ys : list Y) :
  Permutation l l' -> traverse f l = Some ys ->
  exists ys', traverse f l' = Some ys' /\ Permutation ys ys'.
Proof.
  intros Hp Hys. apply traverse_some_iff in Hys.
  pose proof (Permutation_map f Hp) as Hm. rewrite Hys in Hm.
  apply Permutation_sym in Hm.
  apply Permutation_map_inv in Hm. destruct Hm as (ys' & E & Hp').
  exists ys'. split; [apply traverse_some_iff; exact E|].
  exact Hp'.
Qed.

Lemma terminal_value_permutation
  (unnormalize_data : Key -> Tensor2 R -> Tensor2 R)
  (vtrainers vtrainers' : list (FullState R -> Tensor3 R))
  (fsd : FullState R) :
  Permutation vtrainers vtrainers' ->
  terminal_value unnormalize_data vtrainers fsd
  = terminal_value unnormalize_data vtrainers' fsd.
Proof.
  intros Hp. unfold terminal_value.
  rewrite (Permutation_length Hp).
  destruct (traverse _ vtrainers) as [vs|] eqn:E.
  - destruct (traverse_permutation _ _ _ _ Hp E) as (vs' & E' & Hvs).
    rewrite E'. f_equal. f_equal.
    apply fold_left_permutation; [|exact Hvs].
    intros a x y. apply acc_add_swap.
  - destruct (traverse _ vtrainers') as [vs'|] eqn:E'; [|reflexivity].
    destruct (traverse_permutation _ _ _ _ (Permutation_sym Hp) E')
      as (vs & E2 & _).
    rewrite E2 in E. discriminate.
Qed.

(** X14.  The terminal value is the mean over the value networks, so the
    four losses do not depend on the order in which the trainer holds them:
    with the value networks permuted, each loss returns the same output, or
    raises as before.  (Over exact reals: the sum is rounded in a different
    order in floating point.) *)
Theorem losses_ignore_the_order_of_the_value_networks :
  forall (mparam : MParam) (cfg : Config)
         (normalize_data : Key -> Tensor3 R -> Tensor3 R)
         (unnormalize_data : Key -> Tensor2 R -> Tensor2 R)
         (vtrainers vtrainers' : list (FullState R -> Tensor3 R))
         (policy_fn : FullState R -> option (Tensor3 R))
         (tape_gradient : nat -> InputData R -> Tensor2 R -> Tensor2 R)
         (input_data : InputData R),
    Permutation vtrainers vtrainers' ->
    KS_loss mparam cfg normalize_data unnormalize_data vtrainers policy_fn
            input_data
    = KS_loss mparam cfg normalize_data unnormalize_data vtrainers' policy_fn
              input_data /\
    Davila_loss mparam cfg unnormalize_data vtrainers policy_fn tape_gradient
                input_data
    = Davila_loss mparam cfg unnormalize_data vtrainers' policy_fn
                  tape_gradient input_data /\
    DavilaAS_loss mparam cfg normalize_data unnormalize_data vtrainers
                  policy_fn input_data
    = DavilaAS_loss mparam cfg normalize_data unnormalize_data vtrainers'
                    policy_fn input_data /\
    JFV_loss mparam cfg normalize_data unnormalize_data vtrainers policy_fn
             input_data
    = JFV_loss mparam cfg normalize_data unnormalize_data vtrainers' policy_fn
               input_data.
Proof.
  intros mparam cfg normalize_data unnormalize_data vtrainers vtrainers'
         policy_fn tape_gradient input_data Hp.
  unfold KS_loss, Davila_loss, DavilaAS_loss, JFV_loss.
  repeat split;
    match goal with
    | |- context [fold_left ?b ?ts ?i] =>
        match goal with
        | |- context [fold_left ?b' ts i] =>
            tryif constr_eq b b' then fail else
              (replace (fold_left b ts i) with (fold_left b' ts i);
               [reflexivity|])
        end
    end;
    apply fold_left_ext; intros [s|] t; try reflexivity;
    unfold KS_body, Davila_body, DavilaAS_body, JFV_body;
    destruct (is_terminal cfg t); try reflexivity;
    rewrite (terminal_value_permutation unnormalize_data vtrainers vtrainers'
               _ Hp); reflexivity.
Qed.

Lemma losses_ignore_the_order_of_the_value_networks_witness :
  Permutation example_value_pair example_value_pair_swapped /\
  KS_loss example_mparam (example_cfg "socialplanner") identity_normalizer
          identity_unnormalizer example_value_pair
          (example_policy "socialplanner") rich_batch
  = KS_loss example_mparam (example_cfg "socialplanner") identity_normalizer
            identity_unnormalizer example_value_pair_swapped
            (example_policy "socialplanner") rich_batch.
Proof.
  split; [apply perm_swap|].
  exact (proj1 (losses_ignore_the_order_of_the_value_networks
                  example_mparam (example_cfg "socialplanner")
                  identity_normalizer identity_unnormalizer
                  example_value_pair example_value_pair_swapped
                  (example_policy "socialplanner") (fun _ _ k => k)
                  rich_batch (perm_swap _ _ []))).
Defined.
